(** * Bender: the command queue, the command executor and the page serializer

    A shallow embedding of [src/services/command-queue.js],
    [src/services/command-executor.js], the [Done] tool of
    [src/services/automation-tools.js] and the [LLMinify] class of the content
    script, followed by the properties of the specification that concern them.

    Conventions.
    - A JavaScript string is a [string]; every character stands for one UTF-16
      code unit in the range 0..255.
    - Integers (token counters, indices, budgets) are [Z].
    - The module-level [ref]s of the queue service are the fields of one record
      that is passed from call to call.
    - Whatever an [await] can observe (the model endpoint, the page behind the
      tools, the clock, the operator pressing Stop) is an explicit world value
      threaded through the executor. *)

From Stdlib Require Import ZArith String Ascii Bool Lia DecimalString.
From stdpp Require Import base list.

Set Warnings "-register-all".

Local Open Scope string_scope.
Local Open Scope list_scope.

(** ** JavaScript values and the string built-ins the sources use *)

Module JS.

(** A value as [JSON.parse] can deliver it, plus [undefined]. Numbers are
    integers here: nothing below looks inside a number. *)
Inductive Value : Type :=
| Null
| Undefined
| Bool (b : bool)
| Number (n : Z)
| Str (s : string)
| Array (items : list Value)
| Object (props : list (string * Value)).

Definition isArray (v : Value) : bool :=
  match v with Array _ => true | _ => false end.

(** [v === null || v === undefined] *)
Definition isNullish (v : Value) : bool :=
  match v with Null | Undefined => true | _ => false end.

(** Property read [o.k] on the properties of an object (each key is held
    once): a missing key reads as [undefined]. *)
Fixpoint getProp (k : string) (props : list (string * Value)) : Value :=
  match props with
  | [] => Undefined
  | (k', v) :: rest => if String.eqb k k' then v else getProp k rest
  end.

(** ECMAScript WhiteSpace and LineTerminator code units below 256. *)
Definition isWhiteSpace (c : ascii) : bool :=
  let n := nat_of_ascii c in
  (n =? 9)%nat || (n =? 10)%nat || (n =? 11)%nat || (n =? 12)%nat
  || (n =? 13)%nat || (n =? 32)%nat || (n =? 160)%nat.

Fixpoint trimStart (s : string) : string :=
  match s with
  | EmptyString => EmptyString
  | String c rest => if isWhiteSpace c then trimStart rest else s
  end.

Fixpoint trimEnd (s : string) : string :=
  match s with
  | EmptyString => EmptyString
  | String c rest =>
      match trimEnd rest with
      | EmptyString => if isWhiteSpace c then EmptyString else String c EmptyString
      | t => String c t
      end
  end.

(** Whether every code unit of a string is white space. *)
Fixpoint allWhiteSpace (s : string) : bool :=
  match s with
  | EmptyString => true
  | String c rest => isWhiteSpace c && allWhiteSpace rest
  end.

(** [String.prototype.trim] *)
Definition trim (s : string) : string := trimEnd (trimStart s).

Definition newline : ascii := ascii_of_nat 10.

(** [s.split('\n')]: never empty, [''.split('\n')] is [['']]. *)
Fixpoint splitLines (s : string) : list string :=
  match s with
  | EmptyString => [EmptyString]
  | String c rest =>
      if Ascii.eqb c newline then EmptyString :: splitLines rest
      else match splitLines rest with
           | [] => [String c EmptyString]
           | l :: ls => String c l :: ls
           end
  end.

(** [hay.includes(needle)] *)
Fixpoint includes (needle hay : string) : bool :=
  if String.prefix needle hay then true
  else match hay with
       | EmptyString => false
       | String _ rest => includes needle rest
       end.

(** Truthiness of a string: [''] is falsy. *)
Definition truthyStr (s : string) : bool :=
  match s with EmptyString => false | _ => true end.

(** What a called function hands back: a value, or an exception carrying
    its [message]; either way together with the state it left behind. *)
Inductive Completion (A : Type) : Type :=
| Return (a : A)
| Throw (message : string) (a : A).
Arguments Return {A} a.
Arguments Throw {A} message a.

End JS.

(** ** The command queue service ([src/services/command-queue.js]) *)

Module CommandQueue.
Import JS.

Inductive Status : Type :=
| executing | completed | failed | stopped | retrying.

Definition Status_eqb (a b : Status) : bool :=
  match a, b with
  | executing, executing | completed, completed | failed, failed
  | stopped, stopped | retrying, retrying => true
  | _, _ => false
  end.

Record TokenUsage : Type := mkUsage { input : Z; output : Z; total : Z }.

Definition zeroUsage : TokenUsage := mkUsage 0 0 0.

(** [a.input += b.input || 0] and so on, field by field. *)
Definition addUsage (a b : TokenUsage) : TokenUsage :=
  mkUsage (input a + input b) (output a + output b) (total a + total b).

(** The [usage] object of a model response; a field may be missing. *)
Record ApiUsage : Type := mkApiUsage {
  prompt_tokens : option Z;
  completion_tokens : option Z;
  total_tokens : option Z
}.

(** [x || d] on an optional number: missing and [0] both give [d]. *)
Definition orElse (x : option Z) (d : Z) : Z :=
  match x with
  | Some n => if (n =? 0)%Z then d else n
  | None => d
  end.

(** The entries of a command record. *)
Record ToolCallEvent : Type := mkToolCallEvent {
  tce_name : string;
  tce_args : Value;
  tce_id : string;
  tce_timestamp : string
}.

Record ToolResultEvent : Type := mkToolResult {
  tool_call_id : string;
  tr_role : string;
  tr_content : string;
  tr_timestamp : string
}.

Record AssistantResponse : Type := mkAssistantResponse {
  ar_content : string;
  ar_timestamp : string
}.

(** The [commandRecord] object of [executeCommand]
    ([type] is always ['command_execution']). *)
Record CommandRecord : Type := mkCommandRecord {
  cr_command : string;
  cr_status : Status;
  cr_startTime : string;
  cr_toolCalls : list ToolCallEvent;
  cr_toolResults : list ToolResultEvent;
  cr_responses : list AssistantResponse;
  cr_tokenUsage : TokenUsage;
  cr_error : option string;
  cr_completedAt : option string
}.

(** An entry of [commandResults]. *)
Record CommandResult : Type := mkResult {
  command : string;
  status : Status;
  error : option string;
  data : Value;
  commandHistory : list CommandRecord;
  tokenUsage : TokenUsage
}.

(** The refs of the module. [storedExecuteCommandFn] records whether a
    function is stored (the function itself is passed explicitly wherever
    the model calls it); [timers] lists the delays of the pending
    [setTimeout(() => processNextCommand(...), delay)] calls, oldest first. *)
Record State : Type := mkState {
  currentCommands : list string;
  currentCommandIndex : nat;
  commandResults : list CommandResult;
  isProcessingCommands : bool;
  showResults : bool;
  isPaused : bool;
  shouldStopCurrent : bool;
  currentTokenUsage : TokenUsage;
  totalTokenUsage : TokenUsage;
  storedExecuteCommandFn : bool;
  timers : list Z
}.

Definition initialState : State :=
  mkState [] 0 [] false false false false zeroUsage zeroUsage false [].

Definition set_commandResults (rs : list CommandResult) (st : State) : State :=
  mkState (currentCommands st) (currentCommandIndex st) rs
    (isProcessingCommands st) (showResults st) (isPaused st)
    (shouldStopCurrent st) (currentTokenUsage st) (totalTokenUsage st)
    (storedExecuteCommandFn st) (timers st).

Definition set_currentCommandIndex (i : nat) (st : State) : State :=
  mkState (currentCommands st) i (commandResults st)
    (isProcessingCommands st) (showResults st) (isPaused st)
    (shouldStopCurrent st) (currentTokenUsage st) (totalTokenUsage st)
    (storedExecuteCommandFn st) (timers st).

Definition set_isPaused (b : bool) (st : State) : State :=
  mkState (currentCommands st) (currentCommandIndex st) (commandResults st)
    (isProcessingCommands st) (showResults st) b
    (shouldStopCurrent st) (currentTokenUsage st) (totalTokenUsage st)
    (storedExecuteCommandFn st) (timers st).

Definition set_shouldStopCurrent (b : bool) (st : State) : State :=
  mkState (currentCommands st) (currentCommandIndex st) (commandResults st)
    (isProcessingCommands st) (showResults st) (isPaused st)
    b (currentTokenUsage st) (totalTokenUsage st)
    (storedExecuteCommandFn st) (timers st).

Definition set_currentTokenUsage (u : TokenUsage) (st : State) : State :=
  mkState (currentCommands st) (currentCommandIndex st) (commandResults st)
    (isProcessingCommands st) (showResults st) (isPaused st)
    (shouldStopCurrent st) u (totalTokenUsage st)
    (storedExecuteCommandFn st) (timers st).

Definition set_totalTokenUsage (u : TokenUsage) (st : State) : State :=
  mkState (currentCommands st) (currentCommandIndex st) (commandResults st)
    (isProcessingCommands st) (showResults st) (isPaused st)
    (shouldStopCurrent st) (currentTokenUsage st) u
    (storedExecuteCommandFn st) (timers st).

(** [setTimeout(() => processNextCommand(fn), delay)] *)
Definition setTimeout (delay : Z) (st : State) : State :=
  mkState (currentCommands st) (currentCommandIndex st) (commandResults st)
    (isProcessingCommands st) (showResults st) (isPaused st)
    (shouldStopCurrent st) (currentTokenUsage st) (totalTokenUsage st)
    (storedExecuteCommandFn st) (timers st ++ [delay]).

(** [commandQueueText.split('\n').map(cmd => cmd.trim())
      .filter(cmd => cmd.length > 0)] *)
Definition parseCommands (commandQueueText : string) : list string :=
  List.filter truthyStr (List.map trim (splitLines commandQueueText)).

(** [updateTokenUsage(usage, commandRecord)]: the three accumulators (the
    record's one is returned next to the state). *)
Definition usageDelta (usage : ApiUsage) : TokenUsage :=
  let inputTokens := orElse (prompt_tokens usage) 0 in
  let outputTokens := orElse (completion_tokens usage) 0 in
  let totalTokens := orElse (total_tokens usage) (inputTokens + outputTokens) in
  mkUsage inputTokens outputTokens totalTokens.

Definition updateTokenUsage (usage : option ApiUsage) (rec : CommandRecord)
    (st : State) : CommandRecord * State :=
  match usage with
  | None => (rec, st)
  | Some u =>
      let d := usageDelta u in
      let st1 := set_currentTokenUsage (addUsage (currentTokenUsage st) d) st in
      let st2 := set_totalTokenUsage (addUsage (totalTokenUsage st1) d) st1 in
      (mkCommandRecord (cr_command rec) (cr_status rec) (cr_startTime rec)
         (cr_toolCalls rec) (cr_toolResults rec) (cr_responses rec)
         (addUsage (cr_tokenUsage rec) d) (cr_error rec) (cr_completedAt rec),
       st2)
  end.

Definition resetCurrentTokenUsage (st : State) : State :=
  set_currentTokenUsage zeroUsage st.

(** [commandResults.value.findIndex(p)]; [None] is the source's [-1]. *)
Fixpoint findIndex {A : Type} (p : A -> bool) (l : list A) : option nat :=
  match l with
  | [] => None
  | x :: rest => if p x then Some 0%nat else option_map S (findIndex p rest)
  end.

(** The data of an existing result after a retry delivered [new]. *)
Definition mergeData (existing new : Value) : Value :=
  if negb (isNullish new) then
    if negb (isNullish existing) then
      match existing, new with
      | Array old, Array more => Array (old ++ more)
      | Array old, _ => Array (old ++ [new])
      | _, Array more => Array (existing :: more)
      | _, _ => Array [existing; new]
      end
    else new
  else existing.

Definition mergeResult (existingResult result : CommandResult) : CommandResult :=
  mkResult (command existingResult)
    (status result)
    (error result)
    (mergeData (data existingResult) (data result))
    (commandHistory existingResult ++ commandHistory result)
    (addUsage (tokenUsage existingResult) (tokenUsage result)).

Definition addCommandResult (result : CommandResult) (st : State) : State :=
  match findIndex
          (fun r => String.eqb (command r) (command result)
                    && Status_eqb (status r) retrying)
          (commandResults st) with
  | Some existingResultIndex =>
      match commandResults st !! existingResultIndex with
      | Some existingResult =>
          set_commandResults
            (<[existingResultIndex := mergeResult existingResult result]>
               (commandResults st)) st
      | None => st
      end
  | None =>
      let st1 := set_commandResults (commandResults st ++ [result]) st in
      let st2 := set_currentCommandIndex (S (currentCommandIndex st1)) st1 in
      if storedExecuteCommandFn st2 && negb (isPaused st2)
      then setTimeout 1000 st2
      else st2
  end.

(** [clearCommandQueue] resets every ref; timers that are pending stay
    pending. *)
Definition clearCommandQueue (st : State) : State :=
  mkState [] 0 [] false false false false zeroUsage zeroUsage false (timers st).

Definition stopCurrentCommand (st : State) : State :=
  set_shouldStopCurrent true st.

Definition pauseExecution (st : State) : State := set_isPaused true st.

Definition resumeExecution (st : State) : State :=
  let st1 := set_isPaused false st in
  if storedExecuteCommandFn st1 && isProcessingCommands st1
  then setTimeout 100 st1
  else st1.

Definition resetStopFlag (st : State) : State :=
  set_shouldStopCurrent false st.

Section WithExecutor.

(** [E] is everything else an execute function closes over; an execute
    function takes the command text and either returns or throws. *)
Context {E : Type}.

Definition ExecuteFn : Type := string -> State * E -> Completion (State * E).

(** One call of [processNextCommand], up to the end of its [await]. (The
    lookup of the current command cannot fail after the test before it.) *)
Definition processNextCommand (executeCommandFn : ExecuteFn)
    (s : State * E) : State * E :=
  let (st, e) := s in
  if isPaused st then s
  else if (length (currentCommands st) <=? currentCommandIndex st)%nat then
    (mkState (currentCommands st) (currentCommandIndex st) (commandResults st)
       false true (isPaused st) (shouldStopCurrent st)
       (currentTokenUsage st) (totalTokenUsage st)
       (storedExecuteCommandFn st) (timers st), e)
  else
    match currentCommands st !! currentCommandIndex st with
    | None => s
    | Some currentCommand =>
        match executeCommandFn currentCommand s with
        | Return s' => s'
        | Throw message (st', e') =>
            let st1 :=
              set_commandResults
                (commandResults st' ++
                   [mkResult currentCommand failed (Some message) Null []
                      (currentTokenUsage st')]) st' in
            let st2 := set_currentCommandIndex (S (currentCommandIndex st1)) st1 in
            (setTimeout 1000 st2, e')
        end
    end.

Definition startCommandQueue (commandQueueText : string)
    (executeCommandFn : ExecuteFn) (s : State * E) : State * E :=
  let (st, e) := s in
  if negb (truthyStr (trim commandQueueText)) then s
  else
    let commands := parseCommands commandQueueText in
    if (length commands =? 0)%nat then s
    else
      processNextCommand executeCommandFn
        (mkState commands 0 [] true (showResults st) (isPaused st)
           (shouldStopCurrent st) (currentTokenUsage st) zeroUsage
           true (timers st), e).

(** [r.status = s; r.error = err] *)
Definition setStatusError (s : Status) (err : option string)
    (r : CommandResult) : CommandResult :=
  mkResult (command r) s err (data r) (commandHistory r) (tokenUsage r).

(** [retryCommand]: the target object is the entry at [commandIndex]; the
    writes of the [catch] block reach it at the same position, because
    results are only appended or updated in place meanwhile. *)
Definition retryCommand (commandIndex : Z) (executeCommandFn : ExecuteFn)
    (s : State * E) : State * E :=
  let (st, e) := s in
  if (commandIndex <? 0)%Z
     || (Z.of_nat (length (commandResults st)) <=? commandIndex)%Z
  then s
  else
    let i := Z.to_nat commandIndex in
    match commandResults st !! i with
    | None => s
    | Some commandResult =>
        if negb (Status_eqb (status commandResult) failed)
           && negb (Status_eqb (status commandResult) stopped)
        then s
        else
          let st1 :=
            set_commandResults
              (alter (setStatusError retrying None) i (commandResults st)) st in
          match executeCommandFn (command commandResult)
                  (resetCurrentTokenUsage st1, e) with
          | Return s' => s'
          | Throw message (st', e') =>
              (set_commandResults
                 (alter (setStatusError failed (Some message)) i
                    (commandResults st')) st', e')
          end
    end.

End WithExecutor.

End CommandQueue.

(** ** The [Done] tool ([src/services/automation-tools.js]) *)

Module Tools.
Import JS.

(** What a call that may throw delivers. *)
Inductive Try (A : Type) : Type :=
| Ok (a : A)
| Err (message : string).
Arguments Ok {A} a.
Arguments Err {A} message.

(** What [JSON.parse] delivers: the value, or a [SyntaxError]. *)
Inductive ParseResult : Type :=
| Parsed (v : Value)
| SyntaxError (message : string).

(** The names of the entries of [tools] that act on the page; the sixth
    entry is [Done]. *)
Definition pageToolNames : list string :=
  ["NavigateToUrl"; "ClickElement"; "InputText"; "GoBack";
   "GetAbsoluteUrlFromElement"].

Definition COMMAND_COMPLETE : string := "COMMAND_COMPLETE".

Definition nullDataMessage : string :=
  "Error: Done() called with null data. Please extract the requested data first before calling Done().".

Definition nullDataWarning : string :=
  "WARNING: Done() called with null/undefined data. This should only happen if data extraction truly failed.".

Definition emptyArrayWarning : string :=
  "WARNING: Done() called with empty array. Make sure you extracted the requested data.".

Definition destructureMessage : string :=
  "Cannot destructure property 'data' of 'args' as it is null.".

Section Builtins.

(** The host's [JSON.parse] and [JSON.stringify]. *)
Variable JSON_parse : string -> ParseResult.
Variable JSON_stringify : Value -> string.

(** [parsedData] of the [Done] implementation. *)
Definition parseIfString (data : Value) : Value :=
  match data with
  | Str s =>
      match JSON_parse s with
      | Parsed v => v
      | SyntaxError _ => data
      end
  | _ => data
  end.

(** The payload [Done] returns on success. *)
Definition sentinel (parsedData : Value) : string :=
  JSON_stringify (Object [("type", Str COMMAND_COMPLETE); ("data", parsedData)]).

(** [const { data } = args] on arguments that are not [null]: a value
    without a [data] property reads as [undefined]. *)
Definition dataOf (args : Value) : Value :=
  match args with
  | Object props => getProp "data" props
  | _ => Undefined
  end.

(** The implementation of [Done]: the [console.warn] lines it prints and
    what it returns. [const { data } = args] throws on [null]. *)
Definition Done_implementation (args : Value) : list string * Try string :=
  if isNullish args then ([], Err destructureMessage)
  else
    let data := dataOf args in
    if isNullish data then ([nullDataWarning], Ok nullDataMessage)
    else
      let warnings := match data with
                      | Array [] => [emptyArrayWarning]
                      | _ => []
                      end in
      (warnings, Ok (sentinel (parseIfString data))).

End Builtins.

End Tools.

(** ** The command executor ([src/services/command-executor.js]) *)

Module CommandExecutor.
Import JS CommandQueue Tools.

(** The model protocol. *)
Record ToolCall : Type := mkToolCall {
  tc_id : string;
  function_name : string;
  function_arguments : string
}.

Record AssistantMessage : Type := mkAssistantMessage {
  am_content : option string;
  tool_calls : option (list ToolCall)
}.

Record Response : Type := mkResponse {
  usage : option ApiUsage;
  choices : list AssistantMessage
}.

(** An entry of the transcript sent to the model. *)
Record ApiMessage : Type := mkApiMessage {
  msg_role : string;
  msg_content : option string;
  msg_tool_calls : option (list ToolCall);
  msg_tool_call_id : option string;
  msg_timestamp : option string
}.

(** What the operator can do to the queue while an [await] is pending: the
    buttons of the panel that are enabled while the queue is processing. *)
Inductive OperatorAction : Type :=
| PressStop | PressPause | PressResume.

Definition applyAction (a : OperatorAction) (st : State) : State :=
  match a with
  | PressStop => stopCurrentCommand st
  | PressPause => pauseExecution st
  | PressResume => resumeExecution st
  end.

(** The calls that left the process, in order: a request to the model (with
    the attempt's token total at that moment) or a tool implementation run.
    The journal is not a field of the source; it is kept to state what was
    and what was not executed. *)
Inductive Event : Type :=
| ModelCall (spentBefore : Z)
| ToolRun (call : ToolCall).

(** A request to the model was made below a token limit. *)
Definition spendsBelow (limit : Z) (ev : Event) : Prop :=
  match ev with
  | ModelCall spent => (spent < limit)%Z
  | ToolRun _ => True
  end.

Definition isModelCall (ev : Event) : bool :=
  match ev with
  | ModelCall _ => true
  | ToolRun _ => false
  end.

(** The number of requests to the model in a journal. *)
Definition modelCalls (j : list Event) : nat := length (List.filter isModelCall j).

Definition Z_to_string (z : Z) : string := NilZero.string_of_int (Z.to_int z).

Definition stoppedMessage : string := "Command stopped by user".
Definition apiKeyMessage : string := "Please configure your API key in settings".
Definition noChoiceMessage : string :=
  "Cannot read properties of undefined (reading 'message')".
Definition defaultData : string := "Command completed".

Definition tokenLimitMessage (maxTokens spent : Z) : string :=
  "Token limit reached (" ++ Z_to_string maxTokens ++ "). Current usage: "
    ++ Z_to_string spent ++ " tokens".

Definition unknownToolMessage (name : string) : string :=
  "Error: Unknown tool " ++ name.

Definition errorMessage (message : string) : string := "Error: " ++ message.

Definition hasToolCalls (m : AssistantMessage) : bool :=
  match tool_calls m with
  | Some (_ :: _) => true
  | _ => false
  end.

Definition callsOf (m : AssistantMessage) : list ToolCall :=
  match tool_calls m with
  | Some calls => calls
  | None => []
  end.

(** The arguments of [executeCommand]; [commandHistory] is the caller's array
    as it is on entry. *)
Module Args.
Record t : Type := make {
  command : string;
  apiKey : string;
  modelName : string;
  commandHistory : list CommandRecord;
  buildApiMessages : list CommandRecord -> list ApiMessage;
  customSystemPrompt : string;
  maxToolCalls : Z;
  maxTokens : Z
}.
End Args.

(** The host of the executor: the world behind the [await]s and the
    built-ins.
    - [clock] is [new Date().toLocaleTimeString()];
    - [create] is [openai.chat.completions.create] for a model name and a
      transcript: a response, or a rejection with its message;
    - [pageTool] holds the implementations of the five page tools, each of
      which catches its own errors and returns text;
    - [operator] lists the operator's actions while the last [await] was
      pending;
    - [baseSystemPrompt] is the text of the base prompt for a command. *)
Class Host : Type := {
  World : Type;
  clock : World -> string;
  create : string -> list ApiMessage -> World -> Try Response * World;
  pageTool : string -> Value -> World -> string * World;
  operator : World -> list OperatorAction;
  JSON_parse : string -> ParseResult;
  JSON_stringify : Value -> string;
  baseSystemPrompt : string -> string
}.

(** No [processNextCommand] timer comes due while an attempt that starts
    from the refs [q] runs: none is pending when it starts, and the operator
    does not press Resume before it ends ([resumeExecution] registers one
    whenever the queue is processing). Such an attempt has the refs to itself
    between its [await]s. Otherwise the callback of the timer starts a second
    [executeCommand] on the same refs while the first one waits; what the two
    then do to the refs depends on how their [await]s interleave, which the
    functions below do not describe. *)
Definition undisturbed {host : Host} (q : State) : Prop :=
  timers q = [] /\ forall w, ~ In PressResume (operator w).

Section Attempt.

Context {host : Host}.
Variable call : Args.t.

(** The mutable objects of one attempt. *)
Record Machine : Type := mkMachine {
  queue : State;
  world : World;
  commandRecord : CommandRecord;
  journal : list Event
}.

Definition set_queue (q : State) (m : Machine) : Machine :=
  mkMachine q (world m) (commandRecord m) (journal m).

Definition set_commandRecord (r : CommandRecord) (m : Machine) : Machine :=
  mkMachine (queue m) (world m) r (journal m).

(** The end of an [await] of an attempt: the world has moved on, the call
    is journalled and the handlers of the buttons the operator pressed
    meanwhile have run on the refs. A timer that [resumeExecution] registers
    is kept in [timers]; its callback is a task of its own and is not run
    here: what is stated of the refs of an attempt is stated for attempts
    that are [undisturbed]. *)
Definition resume (ev : Event) (w : World) (m : Machine) : Machine :=
  mkMachine (fold_left (fun st a => applyAction a st) (operator w) (queue m))
    w (commandRecord m) (journal m ++ [ev]).

(** Writes to [commandRecord]. *)
Definition terminate (s : Status) (err : option string) (m : Machine) : Machine :=
  let r := commandRecord m in
  set_commandRecord
    (mkCommandRecord (cr_command r) s (cr_startTime r) (cr_toolCalls r)
       (cr_toolResults r) (cr_responses r) (cr_tokenUsage r) err
       (Some (clock (world m)))) m.

Definition pushToolCall (c : ToolCallEvent) (m : Machine) : Machine :=
  let r := commandRecord m in
  set_commandRecord
    (mkCommandRecord (cr_command r) (cr_status r) (cr_startTime r)
       (cr_toolCalls r ++ [c]) (cr_toolResults r) (cr_responses r)
       (cr_tokenUsage r) (cr_error r) (cr_completedAt r)) m.

Definition pushToolResult (t : ToolResultEvent) (m : Machine) : Machine :=
  let r := commandRecord m in
  set_commandRecord
    (mkCommandRecord (cr_command r) (cr_status r) (cr_startTime r)
       (cr_toolCalls r) (cr_toolResults r ++ [t]) (cr_responses r)
       (cr_tokenUsage r) (cr_error r) (cr_completedAt r)) m.

Definition pushResponse (a : AssistantResponse) (m : Machine) : Machine :=
  let r := commandRecord m in
  set_commandRecord
    (mkCommandRecord (cr_command r) (cr_status r) (cr_startTime r)
       (cr_toolCalls r) (cr_toolResults r) (cr_responses r ++ [a])
       (cr_tokenUsage r) (cr_error r) (cr_completedAt r)) m.

(** [addCommandResult({command, status, error, data, commandHistory,
    tokenUsage: {...currentTokenUsage.value}})]: the object handed over and
    the machine after the call. *)
Definition report (s : Status) (err : option string) (d : Value)
    (m : Machine) : CommandResult * Machine :=
  let result := mkResult (Args.command call) s err d
                  (Args.commandHistory call ++ [commandRecord m])
                  (currentTokenUsage (queue m)) in
  (result, set_queue (addCommandResult result (queue m)) m).

(** The two stop branches. *)
Definition stopCommand (m : Machine) : CommandResult * Machine :=
  let m1 := set_queue (resetStopFlag (queue m)) m in
  report stopped (Some stoppedMessage) Null
    (terminate stopped (Some stoppedMessage) m1).

(** The [catch] block at the end. *)
Definition failCommand (message : string) (m : Machine) : CommandResult * Machine :=
  report failed (Some message) Null (terminate failed (Some message) m).

(** The completion branch of a tool result. *)
Definition completeCommand (t : ToolResultEvent) (actualData : Value)
    (m : Machine) : CommandResult * Machine :=
  let r := commandRecord m in
  let m1 := set_commandRecord
              (mkCommandRecord (cr_command r) completed (cr_startTime r)
                 (cr_toolCalls r) (cr_toolResults r) (cr_responses r)
                 (cr_tokenUsage r) (cr_error r) (Some (clock (world m)))) m in
  report completed None actualData (pushToolResult t m1).

(** The code after the loop. *)
Definition finishCommand (assistantMessage : AssistantMessage)
    (m : Machine) : CommandResult * Machine :=
  let content := match am_content assistantMessage with
                 | Some c => c
                 | None => EmptyString
                 end in
  let m1 := if truthyStr content
            then pushResponse (mkAssistantResponse content (clock (world m))) m
            else m in
  let r := commandRecord m1 in
  let m2 := set_commandRecord
              (mkCommandRecord (cr_command r) completed (cr_startTime r)
                 (cr_toolCalls r) (cr_toolResults r) (cr_responses r)
                 (cr_tokenUsage r) (cr_error r) (Some (clock (world m1)))) m1 in
  report completed None
    (Str (if truthyStr content then content else defaultData)) m2.

(** [tools.find(t => t.function.name === name)] followed by the call of its
    implementation. *)
Definition runTool (call : ToolCall) (args : Value) (m : Machine)
    : option (Try string * Machine) :=
  let name := function_name call in
  if String.eqb name "Done" then
    Some (snd (Done_implementation JSON_parse JSON_stringify args),
          mkMachine (queue m) (world m) (commandRecord m)
            (journal m ++ [ToolRun call]))
  else if existsb (String.eqb name) pageToolNames then
    let (result, w) := pageTool name args (world m) in
    Some (Ok result, resume (ToolRun call) w m)
  else None.

Definition toolResult (call : ToolCall) (content : string) (m : Machine)
    : ToolResultEvent :=
  mkToolResult (tc_id call) "tool" content (clock (world m)).

(** What a tool result says about completion: [Some actualData] when it
    contains the marker, parses, and [completionData.data] can be read. *)
Definition completionOf (result : string) : option Value :=
  if includes COMMAND_COMPLETE result then
    match JSON_parse result with
    | Parsed (Object props) => Some (getProp "data" props)
    | Parsed Null | Parsed Undefined => None
    | Parsed _ => Some Undefined
    | SyntaxError _ => None
    end
  else None.

(** The first [for] of the loop body: the calls are parsed and pushed to
    [commandRecord.toolCalls]; a [SyntaxError] leaves the loop with its
    message ([Some]), the calls before it staying recorded. *)
Fixpoint recordToolCalls (calls : list ToolCall) (m : Machine)
    : option string * Machine :=
  match calls with
  | [] => (None, m)
  | toolCall :: rest =>
      match JSON_parse (function_arguments toolCall) with
      | SyntaxError message => (Some message, m)
      | Parsed args =>
          recordToolCalls rest
            (pushToolCall
               (mkToolCallEvent (function_name toolCall) args (tc_id toolCall)
                  (clock (world m))) m)
      end
  end.

(** The body of the [try] around one tool call, up to the point where its
    result is known: either the result is a completion signal, or the call
    is answered with a text (the result, or the message of what went
    wrong). *)
Inductive CallOutcome : Type :=
| Completion (result : string) (actualData : Value) (m : Machine)
| Answer (content : string) (m : Machine).

Definition runCall (toolCall : ToolCall) (m : Machine) : CallOutcome :=
  match JSON_parse (function_arguments toolCall) with
  | SyntaxError message => Answer (errorMessage message) m
  | Parsed args =>
      match runTool toolCall args m with
      | None => Answer (unknownToolMessage (function_name toolCall)) m
      | Some (Err message, m') => Answer (errorMessage message) m'
      | Some (Ok result, m') =>
          match completionOf result with
          | Some actualData => Completion result actualData m'
          | None => Answer result m'
          end
      end
  end.

(** The second [for]: the calls are dispatched one after the other. Either
    the function has returned (stop or completion), or the batch is through
    with its [toolCallResults]. *)
Inductive Batch : Type :=
| Returned (r : CommandResult * Machine)
| Through (toolCallResults : list ToolResultEvent) (m : Machine).

Fixpoint dispatch (calls : list ToolCall) (toolCallResults : list ToolResultEvent)
    (m : Machine) : Batch :=
  match calls with
  | [] => Through toolCallResults m
  | toolCall :: rest =>
      if shouldStopCurrent (queue m) then Returned (stopCommand m)
      else
        match runCall toolCall m with
        | Completion result actualData m' =>
            Returned (completeCommand (toolResult toolCall result m') actualData m')
        | Answer content m' =>
            let t := toolResult toolCall content m' in
            dispatch rest (toolCallResults ++ [t]) (pushToolResult t m')
        end
  end.

(** A call of a tool other than [Done] whose arguments parse. *)
Definition plainCall (c : ToolCall) : Prop :=
  (exists args, JSON_parse (function_arguments c) = Parsed args)
  /\ function_name c <> "Done".

(** The machine a batch ends in. *)
Definition machineOf (b : Batch) : Machine :=
  match b with
  | Returned r => snd r
  | Through _ m => m
  end.

Definition maxIterations : Z := Z.min (Args.maxToolCalls call) 50.

Definition nl : string := String newline EmptyString.

Definition systemPrompt : string :=
  if truthyStr (trim (Args.customSystemPrompt call))
  then baseSystemPrompt (Args.command call) ++ nl ++ nl
         ++ "ADDITIONAL INSTRUCTIONS:" ++ nl
         ++ trim (Args.customSystemPrompt call)
  else baseSystemPrompt (Args.command call).

Definition systemMessage : ApiMessage :=
  mkApiMessage "system" (Some systemPrompt) None None None.

Definition assistantApiMessage (a : AssistantMessage) : ApiMessage :=
  mkApiMessage "assistant" (am_content a) (tool_calls a) None None.

Definition toolApiMessage (t : ToolResultEvent) : ApiMessage :=
  mkApiMessage (tr_role t) (Some (tr_content t)) None (Some (tool_call_id t))
    (Some (tr_timestamp t)).

(** One round-trip: the request, the token accounting of the response, and
    the read of [response.choices[0].message]. *)
Definition roundTrip (apiMessages : list ApiMessage) (m : Machine)
    : Try AssistantMessage * Machine :=
  let spent := total (currentTokenUsage (queue m)) in
  let (answer, w) := create (Args.modelName call) apiMessages (world m) in
  let m1 := resume (ModelCall spent) w m in
  match answer with
  | Err message => (Err message, m1)
  | Ok response =>
      let (r, q) := updateTokenUsage (usage response) (commandRecord m1) (queue m1) in
      let m2 := mkMachine q (world m1) r (journal m1) in
      match choices response with
      | [] => (Err noChoiceMessage, m2)
      | choice :: _ => (Ok choice, m2)
      end
  end.

(** The [while] loop with the code after it. [fuel] bounds the number of
    iterations; [None] means the bound was too small. *)
Fixpoint loop (fuel : nat) (apiMessages : list ApiMessage)
    (assistantMessage : AssistantMessage) (iterations : Z) (m : Machine)
    : option (CommandResult * Machine) :=
  if hasToolCalls assistantMessage && (iterations <? maxIterations)%Z then
    match fuel with
    | O => None
    | S fuel' =>
        let iterations := (iterations + 1)%Z in
        if shouldStopCurrent (queue m) then Some (stopCommand m)
        else if (Args.maxTokens call <=? total (currentTokenUsage (queue m)))%Z then
          Some (failCommand
                  (tokenLimitMessage (Args.maxTokens call)
                     (total (currentTokenUsage (queue m))))
                  m)
        else
          match recordToolCalls (callsOf assistantMessage) m with
          | (Some message, m1) => Some (failCommand message m1)
          | (None, m1) =>
              match dispatch (callsOf assistantMessage) [] m1 with
              | Returned r => Some r
              | Through toolCallResults m2 =>
                  let apiMessages :=
                    apiMessages ++ [assistantApiMessage assistantMessage]
                      ++ List.map toolApiMessage toolCallResults in
                  match roundTrip apiMessages m2 with
                  | (Err message, m3) => Some (failCommand message m3)
                  | (Ok next, m3) => loop fuel' apiMessages next iterations m3
                  end
              end
          end
    end
  else Some (finishCommand assistantMessage m).

(** [executeCommand], from the refs [q] and the world [w] it is called in. *)
Definition executeCommand (q : State) (w : World)
    : option (CommandResult * Machine) :=
  let r := mkCommandRecord (Args.command call) executing (clock w) [] [] []
             zeroUsage None None in
  let m := mkMachine (resetCurrentTokenUsage q) w r [] in
  if negb (truthyStr (Args.apiKey call)) then Some (failCommand apiKeyMessage m)
  else
    let apiMessages :=
      systemMessage
        :: Args.buildApiMessages call (Args.commandHistory call ++ [r]) in
    match roundTrip apiMessages m with
    | (Err message, m1) => Some (failCommand message m1)
    | (Ok assistantMessage, m1) =>
        loop (Z.to_nat maxIterations) apiMessages assistantMessage 0 m1
    end.

End Attempt.

(** [executeCommand] as the queue calls it: the function the panel passes to
    [startCommandQueue] and [retryCommand] fixes every argument but the
    command text. It does not throw, and the loop does not use up the fuel
    it is given. *)
Definition asExecuteFn {host : Host} (argumentsFor : string -> Args.t)
    : ExecuteFn (E := World) :=
  fun command s =>
    match executeCommand (argumentsFor command) (fst s) (snd s) with
    | Some (_, m) => Return (queue m, world m)
    | None => Return s
    end.

End CommandExecutor.

(** ** The page serializer (class [LLMinify] of the content script) *)

Module LLMinify.
Import JS.

(** The identity of a node object: one of the live document, or one made by
    [cloneNode] from the live node of the same number. *)
Inductive Ref : Type :=
| Live (n : nat)
| Copy (n : nat).

(** DOM nodes of an HTML document as the parser builds it. The [tagName] of
    an HTML element is its tag in upper case (['A']); the [tagName] of an
    element of another namespace (SVG, MathML) is its name as it is, in
    lower or mixed case (['a'], ['foreignObject']). *)
Inductive Node : Type :=
| Element (ref : Ref) (tagName : string) (attributes : list (string * string))
    (childNodes : list Node)
| Text (data : string)
| Comment (data : string).

Definition isElement (n : Node) : bool :=
  match n with Element _ _ _ _ => true | _ => false end.

Definition isComment (n : Node) : bool :=
  match n with Comment _ => true | _ => false end.

Definition attributesOf (n : Node) : list (string * string) :=
  match n with Element _ _ attrs _ => attrs | _ => [] end.

Definition childNodesOf (n : Node) : list Node :=
  match n with Element _ _ _ kids => kids | _ => [] end.

Definition tagNameOf (n : Node) : string :=
  match n with Element _ t _ _ => t | _ => EmptyString end.

Fixpoint getAttribute (name : string) (attrs : list (string * string)) : option string :=
  match attrs with
  | [] => None
  | (k, v) :: rest => if String.eqb k name then Some v else getAttribute name rest
  end.

Definition hasAttribute (name : string) (attrs : list (string * string)) : bool :=
  match getAttribute name attrs with Some _ => true | None => false end.

(** [el.setAttribute(name, value)]: the value of an attribute that is there
    is replaced, a new attribute goes to the end. *)
Fixpoint setAttribute (name value : string) (attrs : list (string * string))
    : list (string * string) :=
  match attrs with
  | [] => [(name, value)]
  | (k, v) :: rest =>
      if String.eqb k name then (k, value) :: rest
      else (k, v) :: setAttribute name value rest
  end.

Definition lowerChar (c : ascii) : ascii :=
  let n := nat_of_ascii c in
  if (65 <=? n)%nat && (n <=? 90)%nat then ascii_of_nat (n + 32) else c.

Fixpoint toLowerCase (s : string) : string :=
  match s with
  | EmptyString => EmptyString
  | String c rest => String (lowerChar c) (toLowerCase rest)
  end.

Definition inList (x : string) (l : list string) : bool := existsb (String.eqb x) l.

Definition upperChar (c : ascii) : ascii :=
  let n := nat_of_ascii c in
  if (97 <=? n)%nat && (n <=? 122)%nat then ascii_of_nat (n - 32) else c.

Fixpoint toUpperCase (s : string) : string :=
  match s with
  | EmptyString => EmptyString
  | String c rest => String (upperChar c) (toUpperCase rest)
  end.

(** The [tagName]s that type selectors select. A type selector is compared
    with the local name of an element: it selects the HTML elements of that
    tag, whose [tagName] is the selector in upper case, and the elements of
    another namespace with that name, whose [tagName] is the selector as
    written (the selector [a] selects the links of HTML and those of SVG). *)
Definition tagNamesOf (typeSelectors : list string) : list string :=
  List.map toUpperCase typeSelectors ++ typeSelectors.

(** The type selectors and the event attributes of
    [_interactiveSelectors]. *)
Definition interactiveTags : list string :=
  tagNamesOf ["input"; "button"; "select"; "textarea"; "option"; "a"].

Definition interactiveAttrs : list string :=
  ["onclick"; "onkeydown"; "onkeyup"; "onkeypress"; "onchange"; "oninput";
   "onfocus"; "onblur"].

Definition _allowedAttrs : list string := [].

Definition _controlTags : list string :=
  ["INPUT"; "BUTTON"; "SELECT"; "TEXTAREA"; "OPTION"; "A"; "IMG"].

(** [el.matches(this._interactiveSelectors)] *)
Definition matchesInteractive (n : Node) : bool :=
  match n with
  | Element _ t attrs _ =>
      inList t interactiveTags
      || existsb (fun a => hasAttribute a attrs) interactiveAttrs
  | _ => false
  end.

(** The element descendants of a node in document order. *)
Fixpoint descendants (n : Node) : list Node :=
  match n with
  | Element _ _ _ kids =>
      flat_map (fun k => if isElement k then k :: descendants k else []) kids
  | _ => []
  end.

(** [clone.querySelectorAll(selectors)]: descendants only. *)
Definition querySelectorAll (p : Node -> bool) (root : Node) : list Node :=
  List.filter p (descendants root).

(** [document.querySelectorAll(selectors)]: the document element is a
    descendant of the document. *)
Definition documentQuerySelectorAll (p : Node -> bool) (documentElement : Node)
    : list Node :=
  List.filter p (documentElement :: descendants documentElement).

Definition copyRef (r : Ref) : Ref :=
  match r with Live n => Copy n | Copy n => Copy n end.

(** [node.cloneNode(true)] *)
Fixpoint cloneNode (n : Node) : Node :=
  match n with
  | Element r t attrs kids => Element (copyRef r) t attrs (List.map cloneNode kids)
  | other => other
  end.

(** A pass over [Array.from(root.querySelectorAll('*'))], forwards or
    reversed, whose body looks at one element (its own attributes and its
    present child nodes) and leaves [f el] in its place in the parent: the
    element itself, nothing ([el.remove()]) or its child ([replaceChild]).
    In the reversed order (steps 7 to 9) the descendants of an element come
    before it, so the body sees an element whose subtree is already
    processed; siblings do not see each other. The bodies of the forward
    passes (steps 3 and 5) do not look at the child nodes, so there the order
    makes no difference. *)
Fixpoint eachDescendant (f : Node -> list Node) (n : Node) : Node :=
  match n with
  | Element r t attrs kids =>
      Element r t attrs
        (flat_map (fun k => if isElement k then f (eachDescendant f k) else [k])
           kids)
  | other => other
  end.

(** Step 3. *)
Definition keepAttribute (tag : string) (attr : string * string) : bool :=
  let name := toLowerCase (fst attr) in
  inList name _allowedAttrs
  || (String.eqb name "value" && inList tag _controlTags)
  || (String.eqb name "checked" && String.eqb tag "INPUT")
  || (String.eqb name "selected" && String.eqb tag "OPTION").

Definition stripElement (n : Node) : list Node :=
  match n with
  | Element r t attrs kids => [Element r t (List.filter (keepAttribute t) attrs) kids]
  | other => [other]
  end.

Definition _stripAttributes (clone : Node) : Node := eachDescendant stripElement clone.

(** [String(id)] *)
Definition idText (n : nat) : string := NilZero.string_of_uint (Nat.to_uint n).

(** Step 4 on the clone: the elements of [clone.querySelectorAll(selectors)]
    get the numbers from [counter] on, in document order. The selectors do
    not look at [id], so numbering during the walk reaches the elements of
    the list taken before. The visit returns the next free number. *)
Fixpoint numberNode (counter : nat) (n : Node) {struct n} : nat * Node :=
  match n with
  | Element r t attrs kids =>
      let hit := matchesInteractive n in
      let attrs' := if hit
                    then setAttribute "id" (idText counter) attrs
                    else attrs in
      let fix numberList (c : nat) (l : list Node) {struct l} : nat * list Node :=
        match l with
        | [] => (c, [])
        | k :: rest =>
            let (c1, k') := numberNode c k in
            let (c2, rest') := numberList c1 rest in
            (c2, k' :: rest')
        end in
      let (c', kids') := numberList (if hit then S counter else counter) kids in
      (c', Element r t attrs' kids')
  | other => (counter, other)
  end.

Fixpoint numberList (c : nat) (l : list Node) : nat * list Node :=
  match l with
  | [] => (c, [])
  | k :: rest =>
      let (c1, k') := numberNode c k in
      let (c2, rest') := numberList c1 rest in
      (c2, k' :: rest')
  end.

Definition numberDescendants (clone : Node) : Node :=
  match clone with
  | Element r t attrs kids => Element r t attrs (snd (numberList 1 kids))
  | other => other
  end.

(** An entry [{ id, el }] of [this.mapping]; [el] is [undefined] ([None])
    when [originalInteractiveEls] has no element at that index. *)
Record Entry : Type := mkEntry { id : nat; el : option Node }.

(** The [forEach((cloneEl, i) => ...)] of step 4 from index [i] on; the id
    pushed at index [i] is [i + 1]. *)
Fixpoint mappingFrom (i : nat) (clonedInteractiveEls originalInteractiveEls : list Node)
    : list Entry :=
  match clonedInteractiveEls with
  | [] => []
  | _ :: rest =>
      mkEntry (S i) (originalInteractiveEls !! i)
        :: mappingFrom (S i) rest originalInteractiveEls
  end.

Definition buildMapping (clonedInteractiveEls originalInteractiveEls : list Node)
    : list Entry :=
  mappingFrom 0 clonedInteractiveEls originalInteractiveEls.

Definition _assignElementIds (clone : Node) (originalInteractiveEls : list Node)
    : list Entry * Node :=
  (buildMapping (querySelectorAll matchesInteractive clone) originalInteractiveEls,
   numberDescendants clone).

(** Step 5: the elements of [querySelectorAll('script, noscript, style')];
    [el.textContent = ''] leaves the element without children. *)
Definition blankedTags : list string := tagNamesOf ["script"; "noscript"; "style"].

Definition blankElement (n : Node) : list Node :=
  match n with
  | Element r t attrs kids =>
      if inList t blankedTags then [Element r t attrs []] else [n]
  | other => [other]
  end.

(** Step 6. *)
Fixpoint _removeComments (n : Node) : Node :=
  match n with
  | Element r t attrs kids =>
      Element r t attrs
        (flat_map (fun k => if isComment k then [] else [_removeComments k]) kids)
  | other => other
  end.

Section Style.

(** [window.getComputedStyle(el)]: the [display] and the [visibility] of an
    element of the clone. *)
Variable getComputedStyle : Node -> string * string.

(** Step 7. *)
Definition isHidden (n : Node) : bool :=
  let attrs := attributesOf n in
  hasAttribute "hidden" attrs
  || match getAttribute "aria-hidden" attrs with
     | Some v => String.eqb v "true"
     | None => false
     end
  || match getAttribute "role" attrs with
     | Some v => inList v ["presentation"; "none"]
     | None => false
     end
  || String.eqb (fst (getComputedStyle n)) "none"
  || String.eqb (snd (getComputedStyle n)) "hidden".

Definition removeIfHidden (n : Node) : list Node := if isHidden n then [] else [n].

Definition _removeHiddenElements (clone : Node) : Node :=
  eachDescendant removeIfHidden clone.

(** Step 8. *)
Definition isRealText (n : Node) : bool :=
  match n with
  | Text d => truthyStr (trim d)
  | _ => false
  end.

Definition pruneIfEmpty (n : Node) : list Node :=
  match n with
  | Element r t attrs kids =>
      if hasAttribute "id" attrs then [n]
      else if inList t _controlTags then [n]
      else if String.eqb t "A" && hasAttribute "href" attrs then [n]
      else
        let hasText := existsb isRealText kids in
        let hasElement := existsb isElement kids in
        if negb hasText && negb hasElement then [] else [n]
  | other => [other]
  end.

Definition _pruneEmptyNodes (clone : Node) : Node := eachDescendant pruneIfEmpty clone.

(** Step 9. *)
Definition collapseIfWrapper (n : Node) : list Node :=
  match n with
  | Element r t attrs kids =>
      if hasAttribute "id" attrs then [n]
      else if inList t _controlTags then [n]
      else
        let elementChildren := List.filter isElement kids in
        let textNodes := List.filter isRealText kids in
        match elementChildren with
        | [child] =>
            if (length textNodes =? 0)%nat && (length kids =? 1)%nat
            then [child] else [n]
        | _ => [n]
        end
  | other => [other]
  end.

Definition _collapseSingleChildWrappers (clone : Node) : Node :=
  eachDescendant collapseIfWrapper clone.

(** The object after [refresh()]: [mapping] and the clone of which [HTML] is
    the normalized [outerHTML]. *)
Record Page : Type := mkPage { mapping : list Entry; tree : Node }.

Definition refresh (documentElement : Node) : Page :=
  let originalInteractiveEls :=
    documentQuerySelectorAll matchesInteractive documentElement in
  let clone := cloneNode documentElement in
  let clone := _stripAttributes clone in
  let (mapping, clone) := _assignElementIds clone originalInteractiveEls in
  let clone := eachDescendant blankElement clone in
  let clone := _removeComments clone in
  let clone := _removeHiddenElements clone in
  let clone := _pruneEmptyNodes clone in
  let clone := _collapseSingleChildWrappers clone in
  mkPage mapping clone.

End Style.

(** The elements of a tree in document order, the root included. *)
Definition elementsOf (n : Node) : list Node :=
  if isElement n then n :: descendants n else [].

Definition refOf (n : Node) : option Ref :=
  match n with Element r _ _ _ => Some r | _ => None end.

Definition hasId (n : Node) : bool := hasAttribute "id" (attributesOf n).

(** The elements with an [id] attribute among [l] and below, in document
    order, each as its identity, its tag and its attributes. *)
Definition labelled (l : list Node) : list (option Ref * string * list (string * string)) :=
  List.map (fun n => (refOf n, tagNameOf n, attributesOf n))
    (List.filter hasId (flat_map elementsOf l)).

(** The values of the [id] attributes of the elements among [l] and below,
    in document order. *)
Definition idValues (l : list Node) : list string :=
  omap (fun n => getAttribute "id" (attributesOf n)) (flat_map elementsOf l).

(** The values of the [id] attributes that the serialization of a tree
    shows: those of the root and of its descendants. *)
Definition idAttributes (root : Node) : list string := idValues [root].

(** The number of elements among [l] and below that the selectors select. *)
Definition interactiveCount (l : list Node) : nat :=
  length (List.filter matchesInteractive (flat_map elementsOf l)).

(** Whether the value of an [id] attribute is the number of an entry of the
    mapping that holds an element. *)
Definition resolves (mapping : list Entry) (value : string) : bool :=
  existsb
    (fun m => String.eqb (idText (id m)) value
              && match el m with Some _ => true | None => false end)
    mapping.

(** What step 4 does to a node without [id] attributes, visited with the
    counter at [c]. *)
Definition numbered (n : Node) : Prop :=
  forall c,
    idValues [n] = [] ->
    fst (numberNode c n) = (c + interactiveCount [n])%nat
    /\ idValues [snd (numberNode c n)]
       = List.map idText (seq c (interactiveCount [n])).

(** [getElementById(id)] for a numeric [id]. *)
Definition getElementById (mapping : list Entry) (wanted : Z) : option Node :=
  match List.find (fun m => (Z.of_nat (id m) =? wanted)%Z) mapping with
  | Some m => el m
  | None => None
  end.

End LLMinify.

(** ** What the specification says, in its own words *)

Module Spec.
Import JS.

(** Section 4.4: two non-array values become a 2-element array, an array
    absorbs a scalar (original data first), two arrays concatenate. *)
Definition mergedData (original retry : Value) : Value :=
  match original, retry with
  | Array old, Array more => Array (old ++ more)
  | Array old, scalar => Array (old ++ [scalar])
  | scalar, Array more => Array (scalar :: more)
  | a, b => Array [a; b]
  end.

End Spec.

(** ** Concrete queues, hosts and pages used as inputs below *)

Module Scenarios.
Import JS CommandQueue Tools CommandExecutor.

(** An execute function that only counts its calls. *)
Definition counting : ExecuteFn (E := nat) :=
  fun _ s => Return (fst s, S (snd s)).

(** An idle queue on which Stop was pressed after its last command had
    ended, with the tokens of that command still counted. *)
Definition stopPendingState : State :=
  mkState ["get the title"] 1
    [mkResult "get the title" completed None (Str "Example Title") [] (mkUsage 7 3 10)]
    false true false true (mkUsage 7 3 10) (mkUsage 7 3 10) true [].

(** A queue whose operator has paused and pressed Stop, with tokens spent. *)
Definition pausedState : State :=
  mkState [] 0 [] false false true true (mkUsage 7 3 10) zeroUsage false [].

Definition oneCompleted : State :=
  set_commandResults
    [mkResult "get the title" completed None (Str "Example Title") [] (mkUsage 7 3 10)]
    initialState.

(** A result under retry and the outcome of the retry. *)
Definition awaitingRetry : State :=
  set_commandResults
    [mkResult "get the title" retrying None Null [] (mkUsage 7 3 10)]
    initialState.

Definition retryOutcome : CommandResult :=
  mkResult "get the title" completed None (Str "Example Title") [] (mkUsage 1 2 3).

(** The JSON texts of the scenarios; the last one breaks off. *)
Definition emptyObjectText : string := "{}".
Definition emptyArrayText : string := "[]".
Definition truncatedText : string := "{".

(** [JSON.parse] on the texts that occur in the scenarios. *)
Definition parse (text : string) : ParseResult :=
  if String.eqb text emptyObjectText then Parsed (Object [])
  else if String.eqb text emptyArrayText then Parsed (Array [])
  else SyntaxError "Unexpected end of JSON input".

Definition dq : string := String (ascii_of_nat 34) EmptyString.

(** [JSON.stringify] on values whose strings need no escape. *)
Fixpoint stringify (v : Value) : string :=
  match v with
  | Null | Undefined => "null"
  | Bool true => "true"
  | Bool false => "false"
  | Number n => Z_to_string n
  | Str s => dq ++ s ++ dq
  | Array items => "[" ++ String.concat "," (List.map stringify items) ++ "]"
  | Object props =>
      "{" ++ String.concat ","
               (List.map
                  (fun kv => (dq ++ fst kv ++ dq ++ ":" ++ stringify (snd kv))%string)
                  props) ++ "}"
  end.

Definition goBack (id : string) : ToolCall := mkToolCall id "GoBack" emptyObjectText.

Definition brokenClick (id : string) : ToolCall :=
  mkToolCall id "ClickElement" truncatedText.

(** A model that answers every request with the same tool calls and the
    same usage. *)
Definition insistentModel (calls : list ToolCall) (inTokens outTokens : Z)
    : string -> list ApiMessage -> nat -> Try Response * nat :=
  fun _ _ w =>
    (Ok (mkResponse
           (Some (mkApiUsage (Some inTokens) (Some outTokens)
                    (Some (inTokens + outTokens)%Z)))
           [mkAssistantMessage None (Some calls)]),
     S w).

(** A host whose world counts the finished [await]s; [stopAt] is the count
    at which the operator is found to have pressed Stop, if any. *)
Definition hostOf (calls : list ToolCall) (inTokens outTokens : Z)
    (stopAt : option nat) : Host :=
  {| World := nat;
     clock := fun w => Z_to_string (Z.of_nat w);
     create := insistentModel calls inTokens outTokens;
     pageTool := fun _ _ w => ("Navigated to previous page", S w);
     operator := fun w => match stopAt with
                          | Some n => if (w =? n)%nat then [PressStop] else []
                          | None => []
                          end;
     JSON_parse := parse;
     JSON_stringify := stringify;
     baseSystemPrompt := fun c => ("Complete the following task: " ++ c)%string |}.

Definition userMessage (h : list CommandRecord) : list ApiMessage :=
  match h with
  | r :: _ => [mkApiMessage "user" (Some (cr_command r)) None None None]
  | [] => []
  end.

Definition callWith (maxToolCalls maxTokens : Z) : Args.t :=
  Args.make "get the title" "sk-test" "gpt-4o" [] userMessage EmptyString
    maxToolCalls maxTokens.

Definition argumentsFor (command : string) : Args.t :=
  Args.make command "sk-test" "gpt-4o" [] userMessage EmptyString 50 150000.

(** Pages. [<html><body><div onclick="go()">Go</div></body></html>] *)
Definition clickableDivPage : LLMinify.Node :=
  LLMinify.Element (LLMinify.Live 0) "HTML" []
    [LLMinify.Element (LLMinify.Live 1) "BODY" []
       [LLMinify.Element (LLMinify.Live 2) "DIV" [("onclick", "go()")]
          [LLMinify.Text "Go"]]].

(** [<html id="app"><body><a href="/x">Read</a></body></html>] *)
Definition rootIdPage : LLMinify.Node :=
  LLMinify.Element (LLMinify.Live 0) "HTML" [("id", "app")]
    [LLMinify.Element (LLMinify.Live 1) "BODY" []
       [LLMinify.Element (LLMinify.Live 2) "A" [("href", "/x")]
          [LLMinify.Text "Read"]]].

(** [<html><body><a href="/x">Read</a><button>Go</button></body></html>]
    and the page after a navigation, [<html><body><a href="/y">Back</a>
    </body></html>]. *)
Definition twoControlsPage : LLMinify.Node :=
  LLMinify.Element (LLMinify.Live 0) "HTML" []
    [LLMinify.Element (LLMinify.Live 1) "BODY" []
       [LLMinify.Element (LLMinify.Live 2) "A" [("href", "/x")]
          [LLMinify.Text "Read"];
        LLMinify.Element (LLMinify.Live 3) "BUTTON" [] [LLMinify.Text "Go"]]].

Definition oneControlPage : LLMinify.Node :=
  LLMinify.Element (LLMinify.Live 0) "HTML" []
    [LLMinify.Element (LLMinify.Live 1) "BODY" []
       [LLMinify.Element (LLMinify.Live 2) "A" [("href", "/y")]
          [LLMinify.Text "Back"]]].

(** The computed style of an element of a clone, which is in no document:
    every property is the empty string. *)
Definition detachedStyle : LLMinify.Node -> string * string :=
  fun _ => (EmptyString, EmptyString).

End Scenarios.

(** ** What an attempt keeps and how it ends *)

Module Runs.
Import JS CommandQueue Tools CommandExecutor.

(** The statuses an attempt can end in. *)
Definition isTerminal (s : Status) : bool :=
  match s with
  | completed | failed | stopped => true
  | executing | retrying => false
  end.

(** A property of the refs that the executor keeps while an attempt runs:
    it survives what the operator does during an [await], the token
    accounting of a response and the reset of the stop flag. *)
Definition keptByExecutor {host : Host} (P : State -> Prop) : Prop :=
  (forall w st, P st -> P (fold_left (fun st a => applyAction a st) (operator w) st))
  /\ (forall u r st, P st -> P (snd (updateTokenUsage u r st)))
  /\ (forall st, P st -> P (resetStopFlag st)).

(** What holds of the command record while the attempt runs. *)
Definition running {host : Host} (call : Args.t) (m : Machine) : Prop :=
  cr_command (commandRecord m) = Args.command call
  /\ cr_error (commandRecord m) = None
  /\ cr_tokenUsage (commandRecord m) = currentTokenUsage (queue m).

(** An attempt has ended: [rm] is what the one call of [addCommandResult]
    was given and left, made from a machine [m1] whose record is closed with
    the status, the error and a completion time. *)
Definition ended {host : Host} (call : Args.t) (P : State -> Prop)
    (rm : CommandResult * Machine) : Prop :=
  exists s err d m1,
    rm = report call s err d m1
    /\ P (queue m1)
    /\ isTerminal s = true
    /\ (s = completed -> err = None)
    /\ (s <> completed -> d = Null /\ err <> None)
    /\ cr_status (commandRecord m1) = s
    /\ cr_error (commandRecord m1) = err
    /\ cr_completedAt (commandRecord m1) <> None
    /\ cr_command (commandRecord m1) = Args.command call
    /\ cr_tokenUsage (commandRecord m1) = currentTokenUsage (queue m1).

(** The refs an attempt does not write before it reports. *)
Definition sameQueue (q st : State) : Prop :=
  currentCommands st = currentCommands q
  /\ currentCommandIndex st = currentCommandIndex q
  /\ commandResults st = commandResults q
  /\ isProcessingCommands st = isProcessingCommands q
  /\ showResults st = showResults q
  /\ storedExecuteCommandFn st = storedExecuteCommandFn q.

(** [t] is [a] plus [b], field by field. *)
Definition usagePlus (t a b : TokenUsage) : Prop :=
  input t = (input a + input b)%Z
  /\ output t = (output a + output b)%Z
  /\ total t = (total a + total b)%Z.

(** Each tool result of a record answers the tool call recorded at the same
    position; calls at the end may be unanswered. *)
Definition answersInOrder (r : CommandRecord) : Prop :=
  List.map tool_call_id (cr_toolResults r) `prefix_of` List.map tce_id (cr_toolCalls r).

(** The sum of the token counters of a list of results. *)
Definition usageSum (results : list CommandResult) : TokenUsage :=
  fold_right (fun r acc => addUsage (tokenUsage r) acc) zeroUsage results.

End Runs.

(** ** The timers of the queue *)

Module EventLoop.
Import JS CommandQueue.

Definition clearTimers (st : State) : State :=
  mkState (currentCommands st) (currentCommandIndex st) (commandResults st)
    (isProcessingCommands st) (showResults st) (isPaused st)
    (shouldStopCurrent st) (currentTokenUsage st) (totalTokenUsage st)
    (storedExecuteCommandFn st) [].

Section Timers.
Context {E : Type}.

(** The event loop runs a timer that is due. Every callback registered by
    the queue is [() => processNextCommand(fn)]. With one timer pending the
    callback runs on the refs without it, and the attempt it starts has the
    refs to itself. With several pending (Resume pressed while the timer for
    the next command is still pending) the later callbacks run while the
    attempt that the first one started is waiting: such overlapping runs are
    not described here, and the step is [None] for them, as it is when
    nothing is pending. *)
Definition fireTimer (fn : ExecuteFn (E := E)) (s : State * E)
    : option (State * E) :=
  match timers (fst s) with
  | [_] => Some (processNextCommand fn (clearTimers (fst s), snd s))
  | _ => None
  end.

Fixpoint fireTimers (n : nat) (fn : ExecuteFn (E := E)) (s : State * E)
    : option (State * E) :=
  match n with
  | O => Some s
  | S n' =>
      match fireTimer fn s with
      | Some s' => fireTimers n' fn s'
      | None => None
      end
  end.

End Timers.

(** The refs of a queue that has reported on its first [k] commands and has
    nothing pending. *)
Definition reportedUpTo (commands : list string) (k : nat) (st : State) : Prop :=
  currentCommands st = commands
  /\ currentCommandIndex st = k
  /\ isProcessingCommands st = true
  /\ storedExecuteCommandFn st = true
  /\ isPaused st = false
  /\ timers st = []
  /\ List.map command (commandResults st) = take k commands
  /\ Forall (fun r => Runs.isTerminal (status r) = true) (commandResults st)
  /\ totalTokenUsage st = Runs.usageSum (commandResults st).

End EventLoop.

(** ** The view of the panel and the settings ([App.vue], [store.js], [Settings.vue]) *)

Module Panel.
Import JS CommandQueue.

(** What one result adds to [data] in [unifiedData]: the items of an array,
    any other value that is not [null] or [undefined] as one item. *)
Definition pushed (d : Value) : list Value :=
  if negb (isNullish d) then
    match d with
    | Array items => items
    | _ => [d]
    end
  else [].

(** The computed property [unifiedData] of the panel. *)
Definition unifiedData (commandResults : list CommandResult) : list Value :=
  flat_map (fun result => pushed (data result)) commandResults.

End Panel.

Module Store.
Import JS.

(** Truthiness of a value. *)
Definition truthy (v : Value) : bool :=
  match v with
  | Null | Undefined => false
  | Bool b => b
  | Number n => negb (n =? 0)%Z
  | Str s => truthyStr s
  | Array _ | Object _ => true
  end.

(** [a || b] *)
Definition orElse (a b : Value) : Value := if truthy a then a else b.

(** The five settings, as the refs of [store.js] and as the refs of the
    settings dialog hold them. *)
Record Settings : Type := mkSettings {
  llm : Value;
  apiKey : Value;
  customSystemPrompt : Value;
  maxToolCalls : Value;
  maxTokens : Value
}.

(** The refs as the modules create them. *)
Definition initialSettings : Settings :=
  mkSettings (Str "openai") (Str "") (Str "") (Number 50) (Number 150000).

(** [chrome.storage.sync]: the items under their keys, the newest first. *)
Definition Storage : Type := list (string * Value).

(** [chrome.storage.sync.set(items)]: an item whose value is [undefined] is
    not stored, the others replace what is under their keys. *)
Definition sync_set (items : list (string * Value)) (storage : Storage) : Storage :=
  List.filter (fun item => match snd item with Undefined => false | _ => true end)
    items ++ storage.

(** [result.key] of the [result] of [chrome.storage.sync.get(keys)] for one
    of the keys asked for. *)
Definition sync_get (key : string) (storage : Storage) : Value := getProp key storage.

(** [loadSettings] of [store.js], and the [onMounted] hook of the dialog,
    which does the same to the refs of the dialog. *)
Definition loadSettings (storage : Storage) (refs : Settings) : Settings :=
  mkSettings
    (if truthy (sync_get "llm" storage) then sync_get "llm" storage else llm refs)
    (if truthy (sync_get "apiKey" storage) then sync_get "apiKey" storage else apiKey refs)
    (if truthy (sync_get "customSystemPrompt" storage)
     then sync_get "customSystemPrompt" storage else customSystemPrompt refs)
    (match sync_get "maxToolCalls" storage with
     | Undefined => maxToolCalls refs
     | v => v
     end)
    (match sync_get "maxTokens" storage with
     | Undefined => maxTokens refs
     | v => v
     end).

(** The items that both [saveSettings] functions store. *)
Definition itemsOf (s : Settings) : list (string * Value) :=
  [("llm", llm s);
   ("apiKey", apiKey s);
   ("customSystemPrompt", orElse (customSystemPrompt s) (Str ""));
   ("maxToolCalls", orElse (maxToolCalls s) (Number 50));
   ("maxTokens", orElse (maxTokens s) (Number 150000))].

(** [saveSettings(newLLM, ...)] of [store.js]: the refs and the storage
    after the call. *)
Definition saveSettings (new : Settings) (storage : Storage) : Settings * Storage :=
  (mkSettings (llm new) (apiKey new)
     (orElse (customSystemPrompt new) (Str ""))
     (orElse (maxToolCalls new) (Number 50))
     (orElse (maxTokens new) (Number 150000)),
   sync_set (itemsOf new) storage).

(** [saveSettings] of the settings dialog: it stores the refs of the dialog
    and leaves every ref as it is. *)
Definition dialogSaveSettings (dialog : Settings) (storage : Storage) : Storage :=
  sync_set (itemsOf dialog) storage.

End Store.

(** ** The serialized tree and the elements it addresses *)

Module Addressing.
Import JS LLMinify.

(** The elements among [l] and below that the selectors select, in document
    order, each as its identity and its tag. *)
Definition selected (l : list Node) : list (option Ref * string) :=
  List.map (fun n => (refOf n, tagNameOf n))
    (List.filter matchesInteractive (flat_map elementsOf l)).

(** An element that the selectors select is selected by its tag (not only
    by an event attribute). *)
Definition byTag (n : Node) : bool :=
  implb (matchesInteractive n) (inList (tagNameOf n) interactiveTags).

(** The root is not selected, and every element below it that is selected
    is selected by its tag. *)
Definition selectedByTag (documentElement : Node) : bool :=
  negb (matchesInteractive documentElement)
  && forallb byTag (descendants documentElement).

(** The identity and the tag of the copy of an element. *)
Definition copyOf (key : option Ref * string) : option Ref * string :=
  (option_map copyRef (fst key), snd key).

(** The elements with an [id] among [after] and below are elements that
    the selectors select among [before] and below, and the one at position
    [i] there carries the number [c + i]. *)
Definition addressedFrom (c : nat) (before after : list Node) : Prop :=
  forall key,
    In key (labelled after) ->
    exists i,
      selected before !! i = Some (fst key)
      /\ getAttribute "id" (snd key) = Some (idText (c + i)).

End Addressing.

Module Tree.
Import JS LLMinify.

(** A node with everything below it, in document order. *)
Fixpoint subtree (n : Node) : list Node :=
  n :: match n with
       | Element _ _ _ kids => flat_map subtree kids
       | _ => []
       end.

(** The nodes below the root of a tree. *)
Definition below (root : Node) : list Node := flat_map subtree (childNodesOf root).

(** The elements that step 5 empties. *)
Definition isBlanked (n : Node) : bool := inList (tagNameOf n) blankedTags.

(** An element carries an [id] exactly when one of the six type selectors
    selects it. *)
Definition idRule (n : Node) : Prop :=
  isElement n = true -> hasId n = inList (tagNameOf n) interactiveTags.

(** Every attribute of a node is [id] or one that step 3 keeps. *)
Definition attributeRule (n : Node) : Prop :=
  Forall (fun a => fst a = "id" \/ keepAttribute (tagNameOf n) a = true)
    (attributesOf n).

(** What step 3 leaves of an element: no [id] and none of the event
    attributes of the selectors, only attributes that are kept. *)
Definition stripped (n : Node) : Prop :=
  isElement n = true ->
  hasId n = false
  /\ existsb (fun a => hasAttribute a (attributesOf n)) interactiveAttrs = false
  /\ Forall (fun a => keepAttribute (tagNameOf n) a = true) (attributesOf n).

(** An emptied element has no child and no [id]. *)
Definition blanked (n : Node) : Prop :=
  isBlanked n = true -> childNodesOf n = [] /\ hasId n = false.

(** A property of nodes that does not look below the node, except for
    whether it has children. *)
Definition shallow (Q : Node -> Prop) : Prop :=
  forall r t attrs kids kids',
    (kids = [] -> kids' = []) ->
    Q (Element r t attrs kids) -> Q (Element r t attrs kids').

End Tree.

Module Hiding.
Import JS LLMinify.

(** The clone as step 7 finds it: after steps 2 to 6. *)
Definition beforeHiding (documentElement : Node) : Node :=
  _removeComments
    (eachDescendant blankElement
       (snd (_assignElementIds (_stripAttributes (cloneNode documentElement))
               (documentQuerySelectorAll matchesInteractive documentElement)))).

(** [<html><body><div hidden>secret</div><p aria-hidden="true">more</p>
    </body></html>] *)
Definition hiddenPartsPage : Node :=
  Element (Live 0) "HTML" []
    [Element (Live 1) "BODY" []
       [Element (Live 2) "DIV" [("hidden", EmptyString)] [Text "secret"];
        Element (Live 3) "P" [("aria-hidden", "true")] [Text "more"]]].

End Hiding.

(** ** The content script and the page tools ([automation-tools.js],
    [content-script-api.js]) *)

Module ContentScript.
Import JS LLMinify.

(** [String(v)], as a template literal prints a value. *)
Fixpoint toString (v : Value) : string :=
  match v with
  | Null => "null"
  | Undefined => "undefined"
  | Bool true => "true"
  | Bool false => "false"
  | Number n => CommandExecutor.Z_to_string n
  | Str s => s
  | Array items =>
      String.concat ","
        (List.map (fun item => match item with
                               | Null | Undefined => EmptyString
                               | _ => toString item
                               end) items)
  | Object _ => "[object Object]"
  end.

(** The page: the live document and its window.
    - [current] is an element object as it is now (the mapping holds it as
      it was at the refresh);
    - [innerText] is the rendered text of an element;
    - [property] is [el[name]];
    - [click], [enterText] and [historyBack] are what [el.click()], the
      assignment to [el.value] followed by the [input] and [change] events,
      and [window.history.back()] do to the page;
    - [resolveURL] is [new URL(href, window.location.href).href], or nothing
      when the constructor throws;
    - [normalizedHTML] is [_normalizeHTML]: the [outerHTML] of a tree after
      the replacements. *)
Class Dom : Type := {
  Document : Type;
  documentElement : Document -> Node;
  getComputedStyle : Document -> Node -> string * string;
  current : Document -> Node -> Node;
  innerText : Document -> Node -> string;
  property : Document -> Node -> string -> Value;
  click : Node -> Document -> Document;
  enterText : Node -> Value -> Document -> Document;
  historyBack : Document -> Document;
  resolveURL : Document -> string -> option string;
  normalizedHTML : Node -> string
}.

Section OnPage.

Context {dom : Dom}.

(** [benderPage] ([None] is [null], otherwise the mapping of the object) and
    the document. *)
Record Script : Type := mkScript {
  benderPage : option (list Entry);
  document : Document
}.

(** [node.textContent] *)
Fixpoint textContent (n : Node) : string :=
  match n with
  | Element _ _ _ kids => String.concat EmptyString (List.map textContent kids)
  | Text d => d
  | Comment _ => EmptyString
  end.

(** [getElementById(id)] for any value: [m.id === id] holds for a number
    only. *)
Definition getElementByIdOf (mapping : list Entry) (id : Value) : option Node :=
  match id with
  | Number n => getElementById mapping n
  | _ => None
  end.

Definition fallbackAttributes : list string :=
  ["title"; "alt"; "placeholder"; "href"; "src"].

(** The loop over the fallback attributes of [getElementHumanReadable]. *)
Fixpoint firstFallback (d : Document) (el : Node) (attrs : list string) : string :=
  match attrs with
  | [] => EmptyString
  | attr :: rest =>
      let fromProperty :=
        match property d el attr with
        | Str p => if truthyStr (trim p) then trim p else firstFallback d el rest
        | _ => firstFallback d el rest
        end in
      match getAttribute attr (attributesOf (current d el)) with
      | Some val => if truthyStr (trim val) then trim val else fromProperty
      | None => fromProperty
      end
  end.

(** [getElementHumanReadable(id)]: [null] or a string. *)
Definition getElementHumanReadable (d : Document) (mapping : list Entry)
    (id : Value) : Value :=
  match getElementByIdOf mapping id with
  | None => Null
  | Some el =>
      let shown := if truthyStr (innerText d el) then innerText d el
                   else textContent (current d el) in
      if truthyStr (trim shown) then Str (trim shown)
      else Str (firstFallback d el fallbackAttributes)
  end.

Definition notFoundMessage : string := "Element not found".

(** One entry of the result of [getAbsoluteUrlFromElement]. *)
Definition urlEntry (d : Document) (mapping : list Entry) (id : Value) : Value :=
  match getElementByIdOf mapping id with
  | None =>
      Object [("id", id); ("name", Null); ("url", Null);
              ("error", Str notFoundMessage)]
  | Some el =>
      let name := getElementHumanReadable d mapping id in
      let url :=
        match getAttribute "href" (attributesOf (current d el)) with
        | Some href =>
            if truthyStr href then
              match resolveURL d href with
              | Some absolute => Str absolute
              | None => Str href
              end
            else Null
        | None => Null
        end in
      Object [("id", id);
              ("name", match name with
                       | Str s => if truthyStr s then name else Str EmptyString
                       | _ => Str EmptyString
                       end);
              ("url", url)]
  end.

(** What the summary of the tool is to show as the link of an element: its
    [href] attribute made absolute against the location of the page, the
    attribute as it is written when [URL] does not accept it, and ['No URL']
    for an element without the attribute or with an empty one. *)
Definition shownLink (d : Document) (el : Node) : string :=
  match getAttribute "href" (attributesOf (current d el)) with
  | Some href =>
      if truthyStr href then
        match resolveURL d href with
        | Some absolute => if truthyStr absolute then absolute else "No URL"
        | None => href
        end
      else "No URL"
  | None => "No URL"
  end.

Definition getAbsoluteUrlFromElement (d : Document) (mapping : list Entry)
    (ids : Value) : Value :=
  let idArray := match ids with Array items => items | _ => [ids] end in
  Array (List.map (urlEntry d mapping) idArray).

(** A message to the content script and its answer, [{ result }] or
    [{ error }]. *)
Record Request : Type := mkRequest {
  action : string;
  r_id : Value;
  r_text : Value;
  r_ids : Value
}.

Inductive Response : Type :=
| Result (result : Value)
| Failure (error : string).

Definition notInitializedMessage : string :=
  "Page not initialized. Call getCurrentPageHTML first.".

Definition unknownActionMessage : string := "Unknown action".

Definition dq : string := String (ascii_of_nat 34) EmptyString.

(** The listener of [chrome.runtime.onMessage]. *)
Definition onMessage (request : Request) (s : Script) : Response * Script :=
  let d := document s in
  if String.eqb (action request) "getCurrentPageHTML" then
    let page := refresh (getComputedStyle d) (documentElement d) in
    (Result (Str (normalizedHTML (tree page))), mkScript (Some (mapping page)) d)
  else if String.eqb (action request) "clickElement" then
    match benderPage s with
    | None => (Failure notInitializedMessage, s)
    | Some mapping =>
        match getElementByIdOf mapping (r_id request) with
        | Some clickElement =>
            let d' := click clickElement d in
            (Result (Str ("Clicked " ++ dq
                            ++ toString (getElementHumanReadable d' mapping (r_id request))
                            ++ dq ++ " (" ++ toString (r_id request) ++ ")")),
             mkScript (Some mapping) d')
        | None =>
            (Result (Str ("Element " ++ toString (r_id request) ++ " not found")), s)
        end
    end
  else if String.eqb (action request) "inputText" then
    match benderPage s with
    | None => (Failure notInitializedMessage, s)
    | Some mapping =>
        match getElementByIdOf mapping (r_id request) with
        | Some inputElement =>
            let d' := enterText inputElement (r_text request) d in
            (Result (Str ("Entered text " ++ dq ++ toString (r_text request) ++ dq
                            ++ " into " ++ dq
                            ++ toString (getElementHumanReadable d' mapping (r_id request))
                            ++ dq ++ " (" ++ toString (r_id request) ++ ")")),
             mkScript (Some mapping) d')
        | None =>
            (Result (Str ("Element with ID " ++ toString (r_id request)
                            ++ " not found")), s)
        end
    end
  else if String.eqb (action request) "getAbsoluteUrlFromElement" then
    match benderPage s with
    | None => (Failure notInitializedMessage, s)
    | Some mapping =>
        (Result (getAbsoluteUrlFromElement d mapping (r_ids request)), s)
    end
  else if String.eqb (action request) "goBack" then
    (Result (Str "Navigated to previous page"), mkScript (benderPage s) (historyBack d))
  else (Failure unknownActionMessage, s).

End OnPage.

End ContentScript.

Module ContentScriptApi.
Import JS Tools ContentScript.

(** The browser as the side panel sees it.
    - [activeTab]: whether [chrome.tabs.query] finds an active tab;
    - [tabStatus], [tabUrl]: the [status] of that tab and its [url] as a
      template literal prints it;
    - [elapse]: what happens while a [setTimeout] of so many milliseconds
      is pending;
    - [sendError]: the message of [chrome.runtime.lastError] in the callback
      of [chrome.tabs.sendMessage], when no listener answered;
    - [script], [setScript]: the content script of the active tab;
    - [update]: what [chrome.tabs.update(id, { url })] does: nothing when
      the call throws (the callback is not called), otherwise the message of
      [chrome.runtime.lastError] in the callback, if any, and the browser
      after the call. *)
Class Browser {dom : Dom} : Type := {
  Tabs : Type;
  activeTab : Tabs -> bool;
  tabStatus : Tabs -> string;
  tabUrl : Tabs -> string;
  elapse : Z -> Tabs -> Tabs;
  sendError : Tabs -> option string;
  script : Tabs -> Script;
  setScript : Script -> Tabs -> Tabs;
  update : Value -> Tabs -> option (option string * Tabs)
}.

Section Api.

Context {dom : Dom} {browser : Browser}.

(** A promise: it stays pending ([None]), or it is resolved ([Ok]) or
    rejected ([Err]) in the browser it leaves behind. *)
Definition Promise (A : Type) : Type := Tabs -> option (Try A * Tabs).

Definition resolve {A : Type} (a : A) : Promise A := fun w => Some (Ok a, w).

Definition reject {A : Type} (message : string) : Promise A :=
  fun w => Some (Err message, w).

(** [await p] followed by [k]; a rejection is thrown on. *)
Definition await {A B : Type} (p : Promise A) (k : A -> Promise B) : Promise B :=
  fun w =>
    match p w with
    | None => None
    | Some (Err message, w') => Some (Err message, w')
    | Some (Ok a, w') => k a w'
    end.

(** [try { p } catch (error) { k(error.message) }] *)
Definition catch {A : Type} (p : Promise A) (k : string -> Promise A) : Promise A :=
  fun w =>
    match p w with
    | None => None
    | Some (Err message, w') => k message w'
    | Some (Ok a, w') => Some (Ok a, w')
    end.

(** [checkPageReady] polls every 500 ms; [patience] bounds the number of
    polls that are waited for. *)
Fixpoint checkPageReady (patience : nat) : Promise unit :=
  fun w =>
    match patience with
    | O => None
    | S patience' =>
        if String.eqb (tabStatus w) "complete" then Some (Ok tt, elapse 1000 w)
        else checkPageReady patience' (elapse 500 w)
    end.

Definition waitForPageReady (patience : nat) : Promise unit :=
  fun w => if activeTab w then checkPageReady patience w else Some (Ok tt, w).

Definition noActiveTabMessage : string := "No active tab found".

(** [sendMessageToContentScript(action, data)] *)
Definition sendMessageToContentScript (request : Request) : Promise Value :=
  fun w =>
    if activeTab w then
      match sendError w with
      | Some message => Some (Err message, w)
      | None =>
          let (response, s) := onMessage request (script w) in
          let w' := setScript s w in
          match response with
          | Failure message =>
              if truthyStr message then Some (Err message, w')
              else Some (Ok Undefined, w')
          | Result result => Some (Ok result, w')
          end
      end
    else Some (Err noActiveTabMessage, w).

(** [navigateToUrl(url)] *)
Definition navigateToUrl (patience : nat) (url : Value) : Promise string :=
  fun w =>
    if activeTab w then
      match update url w with
      | None => None
      | Some (Some message, w') => Some (Err message, w')
      | Some (None, w') =>
          catch
            (await (waitForPageReady patience)
               (fun _ => resolve ("Navigated to " ++ toString url
                                    ++ " and page is ready")%string))
            (fun message =>
               resolve ("Navigated to " ++ toString url
                          ++ " (page ready check failed: " ++ message ++ ")")%string)
            w'
      end
    else Some (Err noActiveTabMessage, w).

End Api.

End ContentScriptApi.

Module AutomationTools.
Import JS Tools ContentScript ContentScriptApi.

Section Implementations.

Context {dom : Dom} {browser : Browser}.

(** [waitFor(ms)] *)
Definition waitFor (ms : Z) : Promise unit := fun w => Some (Ok tt, elapse ms w).

Definition nl : string := String newline EmptyString.

(** [getPageContext()]: the [html] and the [url] as they are printed. *)
Definition getPageContext (patience : nat) : Promise (string * string) :=
  catch
    (await (waitFor 200) (fun _ =>
     await (waitForPageReady patience) (fun _ =>
     await (sendMessageToContentScript
              (mkRequest "getCurrentPageHTML" Undefined Undefined Undefined))
       (fun html w =>
          let url := if activeTab w then tabUrl w else "Unknown" in
          Some (Ok (toString (if Store.truthy html then html
                              else Str "Failed to get page HTML"), url), w)))))
    (fun message => resolve (("Error getting page HTML: " ++ message)%string, "Unknown")).

(** [const { name } = args]: [null] and [undefined] cannot be destructured. *)
Definition destructure (name : string) (args : Value) : Promise Value :=
  match args with
  | Null =>
      reject ("Cannot destructure property '" ++ name ++ "' of 'args' as it is null.")%string
  | Undefined =>
      reject ("Cannot destructure property '" ++ name
                ++ "' of 'args' as it is undefined.")%string
  | Object props => resolve (getProp name props)
  | _ => resolve Undefined
  end.

(** The text that the three tools with a page in their result return. *)
Definition withPage (result : string) (pageContext : string * string) : string :=
  (result ++ nl ++ nl ++ "Current URL: " ++ snd pageContext ++ nl ++ nl
     ++ "Page HTML:" ++ nl ++ fst pageContext)%string.

Definition NavigateToUrl (patience : nat) (args : Value) : Promise string :=
  catch
    (await (destructure "url" args) (fun url =>
     await (navigateToUrl patience url) (fun result =>
     await (waitFor 200) (fun _ =>
     await (waitForPageReady patience) (fun _ =>
     await (getPageContext patience) (fun pageContext =>
     resolve (withPage result pageContext)))))))
    (fun message => resolve ("Error navigating to URL: " ++ message)%string).

Definition ClickElement (patience : nat) (args : Value) : Promise string :=
  catch
    (await (destructure "id" args) (fun id =>
     await (sendMessageToContentScript (mkRequest "clickElement" id Undefined Undefined))
       (fun result =>
     await (waitFor 200) (fun _ =>
     await (waitForPageReady patience) (fun _ =>
     await (getPageContext patience) (fun pageContext =>
     resolve (withPage (toString result) pageContext)))))))
    (fun message => resolve ("Error clicking element: " ++ message)%string).

Definition InputText (patience : nat) (args : Value) : Promise string :=
  catch
    (await (destructure "id" args) (fun id =>
     let text := match args with Object props => getProp "text" props | _ => Undefined end in
     await (sendMessageToContentScript (mkRequest "inputText" id text Undefined))
       (fun result =>
     await (waitFor 200) (fun _ =>
     await (waitForPageReady patience) (fun _ =>
     await (sendMessageToContentScript
              (mkRequest "getElementInfo" id Undefined Undefined))
       (fun elementInfo =>
     let name := match elementInfo with
                 | Object props =>
                     if Store.truthy (getProp "name" props) then getProp "name" props
                     else Str "Unknown"
                 | _ => Str "Unknown"
                 end in
     await (getPageContext patience) (fun _ =>
     resolve ("Entered text into element ID " ++ toString id ++ " ("
                ++ ContentScript.dq ++ toString name ++ ContentScript.dq ++ ")")%string)))))))
    (fun message => resolve ("Error inputting text: " ++ message)%string).

Definition GoBack (patience : nat) (args : Value) : Promise string :=
  catch
    (await (sendMessageToContentScript (mkRequest "goBack" Undefined Undefined Undefined))
       (fun result =>
     await (waitFor 200) (fun _ =>
     await (waitForPageReady patience) (fun _ =>
     await (getPageContext patience) (fun pageContext =>
     resolve (withPage (toString result) pageContext))))))
    (fun message => resolve ("Error going back: " ++ message)%string).

(** One line of the summary of [GetAbsoluteUrlFromElement]. *)
Definition summaryLine (item : Value) : Promise string :=
  match item with
  | Null =>
      reject "Cannot read properties of null (reading 'error')"
  | Undefined =>
      reject "Cannot read properties of undefined (reading 'error')"
  | _ =>
      let prop := fun name => match item with
                              | Object props => getProp name props
                              | _ => Undefined
                              end in
      if Store.truthy (prop "error")
      then resolve ("ID " ++ toString (prop "id") ++ ": " ++ toString (prop "error"))%string
      else resolve ("ID " ++ toString (prop "id") ++ ": " ++ ContentScript.dq
                      ++ toString (prop "name") ++ ContentScript.dq ++ " -> "
                      ++ toString (if Store.truthy (prop "url") then prop "url"
                                   else Str "No URL"))%string
  end.

Fixpoint summaryLines (items : list Value) : Promise (list string) :=
  match items with
  | [] => resolve []
  | item :: rest =>
      await (summaryLine item) (fun line =>
      await (summaryLines rest) (fun lines => resolve (line :: lines)))
  end.

Definition GetAbsoluteUrlFromElement (patience : nat) (args : Value) : Promise string :=
  catch
    (await (destructure "ids" args) (fun ids =>
     await (sendMessageToContentScript
              (mkRequest "getAbsoluteUrlFromElement" Undefined Undefined ids))
       (fun result =>
     await (getPageContext patience) (fun _ =>
     let resultData := match result with Array items => items | _ => [result] end in
     await (summaryLines resultData) (fun lines =>
     resolve ("Extracted URLs:" ++ nl ++ String.concat nl lines)%string)))))
    (fun message => resolve ("Error extracting URLs: " ++ message)%string).

(** The first letters of the texts that the page tools return. *)
Definition toolInitials : list ascii := ["E"; "N"; "C"]%char.

Definition startsWithOneOf (letters : list ascii) (s : string) : bool :=
  match s with
  | String c _ => existsb (Ascii.eqb c) letters
  | EmptyString => false
  end.

(** The implementations of the page tools by name. *)
Definition implementation (name : string) (patience : nat) (args : Value)
    : option (Promise string) :=
  if String.eqb name "NavigateToUrl" then Some (NavigateToUrl patience args)
  else if String.eqb name "ClickElement" then Some (ClickElement patience args)
  else if String.eqb name "InputText" then Some (InputText patience args)
  else if String.eqb name "GoBack" then Some (GoBack patience args)
  else if String.eqb name "GetAbsoluteUrlFromElement"
  then Some (GetAbsoluteUrlFromElement patience args)
  else None.

End Implementations.

End AutomationTools.

(** ** More inputs *)

Module MoreScenarios.
Import JS CommandQueue Tools CommandExecutor.

(** The arguments of a [Done] call with a title, and the signal that the
    tool makes of it. *)
Definition titleArguments : Value := Object [("data", Str "Example Title")].

Definition titleSignal : Value :=
  Object [("type", Str COMMAND_COMPLETE); ("data", Str "Example Title")].

(** [JSON.parse] on the texts of the scenarios with a [Done] call. *)
Definition parseDone (text : string) : ParseResult :=
  if String.eqb text (Scenarios.stringify titleArguments) then Parsed titleArguments
  else if String.eqb text (Scenarios.stringify titleSignal) then Parsed titleSignal
  else Scenarios.parse text.

Definition done (id : string) : ToolCall :=
  mkToolCall id "Done" (Scenarios.stringify titleArguments).

(** A host whose model asks for [Done] and then for a page tool in one
    batch. *)
Definition doneHost : Host :=
  {| World := nat;
     clock := fun w => Z_to_string (Z.of_nat w);
     create := Scenarios.insistentModel [done "c1"; Scenarios.goBack "c2"] 3 2;
     pageTool := fun _ _ w => ("Navigated to previous page", S w);
     operator := fun _ => [];
     JSON_parse := parseDone;
     JSON_stringify := Scenarios.stringify;
     baseSystemPrompt := fun c => ("Complete the following task: " ++ c)%string |}.

(** A host whose model always asks to go back and whose operator is found
    to have pressed Pause when [pauseAt] [await]s have finished. *)
Definition pausingHost (pauseAt : nat) : Host :=
  {| World := nat;
     clock := fun w => Z_to_string (Z.of_nat w);
     create := Scenarios.insistentModel [Scenarios.goBack "c1"] 3 2;
     pageTool := fun _ _ w => ("Navigated to previous page", S w);
     operator := fun w => if (w =? pauseAt)%nat then [PressPause] else [];
     JSON_parse := Scenarios.parse;
     JSON_stringify := Scenarios.stringify;
     baseSystemPrompt := fun c => ("Complete the following task: " ++ c)%string |}.

(** The arguments the panel fixes, with a cap of one round-trip. *)
Definition briefArguments (command : string) : Args.t :=
  Args.make command "sk-test" "gpt-4o" [] Scenarios.userMessage EmptyString 1 150000.

(** A queue of two commands as [startCommandQueue] leaves it for the first
    call of [processNextCommand]. *)
Definition twoCommands : State :=
  mkState ["get the title"; "get the links"] 0 [] true false false false
    zeroUsage zeroUsage true [].

(** A call without an API key. *)
Definition keylessCall : Args.t :=
  Args.make "get the title" EmptyString "gpt-4o" [] Scenarios.userMessage
    EmptyString 50 150000.

(** A queue that has ended with its one command failed. *)
Definition oneFailed : State :=
  mkState ["get the title"] 1
    [mkResult "get the title" failed (Some "Request timed out") Null []
       (mkUsage 7 3 10)]
    false true false false (mkUsage 7 3 10) (mkUsage 7 3 10) true [].

(** What a user left in the settings dialog: no prompt, a bound of zero. *)
Definition dialogValues : Store.Settings :=
  Store.mkSettings (Str "gpt-4o-mini") (Str "sk-test") (Str EmptyString) (Number 0)
    (Number 2000).

End MoreScenarios.

Module ToolScenarios.
Import JS LLMinify ContentScript ContentScriptApi AutomationTools.

(** A page that is its own tree, with an input whose text is entered by
    putting it into the [value] attribute. *)
Definition formPage : Node :=
  Element (Live 0) "HTML" []
    [Element (Live 1) "BODY" []
       [Element (Live 2) "INPUT" [("placeholder", "Search")] []]].

Definition typedPage (text : Value) : Node :=
  Element (Live 0) "HTML" []
    [Element (Live 1) "BODY" []
       [Element (Live 2) "INPUT" [("placeholder", "Search"); ("value", toString text)]
          []]].

Definition formDom : Dom :=
  {| Document := Node;
     documentElement := fun d => d;
     getComputedStyle := fun _ _ => (EmptyString, EmptyString);
     current := fun _ el => el;
     innerText := fun _ _ => EmptyString;
     property := fun _ _ _ => Undefined;
     click := fun _ d => d;
     enterText := fun _ text _ => typedPage text;
     historyBack := fun d => d;
     resolveURL := fun _ href => Some href;
     normalizedHTML := fun _ => "<html><body><input id=1></body></html>" |}.

(** A browser with one tab that has finished loading and whose content
    script answers. *)
Definition formBrowser : Browser (dom := formDom) :=
  {| Tabs := Script (dom := formDom);
     activeTab := fun _ => true;
     tabStatus := fun _ => "complete";
     tabUrl := fun _ => "https://example.com/";
     elapse := fun _ w => w;
     sendError := fun _ => None;
     script := fun w => w;
     setScript := fun s _ => s;
     update := fun _ w => Some (None, w) |}.

(** The tab after the page was read once. *)
Definition formTab : Script (dom := formDom) :=
  mkScript (dom := formDom)
    (Some (mapping (refresh (fun _ => (EmptyString, EmptyString)) formPage)))
    formPage.

Definition typeHello : Value := Object [("id", Number 1); ("text", Str "hello")].

(** A browser whose tab is loading for the first second: [Tabs] is the time
    that has passed, in milliseconds. *)
Definition loadingBrowser : Browser (dom := formDom) :=
  {| Tabs := Z;
     activeTab := fun _ => true;
     tabStatus := fun t => if (t <? 1000)%Z then "loading" else "complete";
     tabUrl := fun _ => "https://example.com/";
     elapse := fun ms t => (t + ms)%Z;
     sendError := fun _ => None;
     script := fun _ => formTab;
     setScript := fun _ t => t;
     update := fun _ t => Some (None, t) |}.

(** The tab of [loadingBrowser] after so many milliseconds. *)
Definition loadingTab (ms : Z) : Tabs (Browser := loadingBrowser) := ms.

(** [<html><body><a href="/docs">Docs</a><a>Top</a></body></html>] at
    [https://example.com/]. *)
Definition linksPage : Node :=
  Element (Live 0) "HTML" []
    [Element (Live 1) "BODY" []
       [Element (Live 2) "A" [("href", "/docs")] [Text "Docs"];
        Element (Live 3) "A" [] [Text "Top"]]].

(** [outerHTML] of a tree whose texts and attribute values need no escape.
    [_normalizeHTML] leaves such a text as it is when the tree holds no
    white space between its tags. *)
Definition voidTags : list string := ["INPUT"; "IMG"; "BR"; "HR"; "META"; "LINK"].

Fixpoint outerHTML (n : Node) : string :=
  match n with
  | Element _ t attrs kids =>
      let name := toLowerCase t in
      let shown :=
        String.concat EmptyString
          (List.map (fun a => (" " ++ fst a ++ "=" ++ ContentScript.dq ++ snd a
                                 ++ ContentScript.dq)%string) attrs) in
      if inList t voidTags then ("<" ++ name ++ shown ++ ">")%string
      else ("<" ++ name ++ shown ++ ">"
              ++ String.concat EmptyString (List.map outerHTML kids)
              ++ "</" ++ name ++ ">")%string
  | Text d => d
  | Comment d => ("<!--" ++ d ++ "-->")%string
  end.

Definition linksDom : Dom :=
  {| Document := Node;
     documentElement := fun d => d;
     getComputedStyle := fun _ _ => (EmptyString, EmptyString);
     current := fun _ el => el;
     innerText := fun _ el => textContent el;
     property := fun _ _ _ => Undefined;
     click := fun _ d => d;
     enterText := fun _ _ d => d;
     historyBack := fun d => d;
     resolveURL := fun _ href => Some ("https://example.com" ++ href)%string;
     normalizedHTML := outerHTML |}.

Definition linksBrowser : Browser (dom := linksDom) :=
  {| Tabs := Script (dom := linksDom);
     activeTab := fun _ => true;
     tabStatus := fun _ => "complete";
     tabUrl := fun _ => "https://example.com/";
     elapse := fun _ w => w;
     sendError := fun _ => None;
     script := fun w => w;
     setScript := fun s _ => s;
     update := fun _ w => Some (None, w) |}.

Definition linksTab : Script (dom := linksDom) :=
  mkScript (dom := linksDom)
    (Some (mapping (refresh (fun _ => (EmptyString, EmptyString)) linksPage)))
    linksPage.

End ToolScenarios.

(** * Properties of the command queue *)

Module QueueFacts.
Import JS CommandQueue.

(** ** Trimming and splitting *)

Lemma trimStart_allWhiteSpace s : allWhiteSpace (trimStart s) = allWhiteSpace s.
Proof.
  induction s as [|c rest IH]; simpl; [reflexivity|].
  destruct (isWhiteSpace c) eqn:Hc; simpl; [exact IH | now rewrite Hc].
Qed.

Lemma trimEnd_empty s : trimEnd s = EmptyString <-> allWhiteSpace s = true.
Proof.
  induction s as [|c rest IH]; simpl; [tauto|].
  destruct (trimEnd rest) eqn:Ht.
  - destruct (isWhiteSpace c); simpl.
    + split; [intros _; now apply IH | reflexivity].
    + split; discriminate.
  - split; [discriminate|].
    intros H. apply andb_true_iff in H as [_ H]. apply IH in H. discriminate.
Qed.

Lemma trim_empty s : trim s = EmptyString <-> allWhiteSpace s = true.
Proof. unfold trim. rewrite trimEnd_empty, trimStart_allWhiteSpace. tauto. Qed.

Lemma splitLines_allWhiteSpace s :
  allWhiteSpace s = true -> Forall (fun l => allWhiteSpace l = true) (splitLines s).
Proof.
  induction s as [|c rest IH]; simpl; intros H.
  - repeat constructor.
  - apply andb_true_iff in H as [Hc Hrest]. specialize (IH Hrest).
    destruct (Ascii.eqb c newline).
    + constructor; [reflexivity | exact IH].
    + destruct (splitLines rest) as [|l ls].
      * repeat constructor. simpl. now rewrite Hc.
      * inversion IH; subst. constructor; [simpl; now rewrite Hc | assumption].
Qed.

Lemma parseCommands_blank text :
  trim text = EmptyString -> parseCommands text = [].
Proof.
  intros H. apply trim_empty, splitLines_allWhiteSpace in H.
  unfold parseCommands. induction H as [|l ls Hl _ IH]; simpl; [reflexivity|].
  apply trim_empty in Hl. rewrite Hl. simpl. exact IH.
Qed.

Lemma truthyStr_false s : truthyStr s = false <-> s = EmptyString.
Proof. destruct s; simpl; split; congruence. Qed.

Lemma parseCommands_In text c :
  In c (parseCommands text) <->
  exists line, In line (splitLines text) /\ c = trim line /\ c <> EmptyString.
Proof.
  unfold parseCommands. rewrite filter_In, in_map_iff. split.
  - intros [[line [Heq Hin]] Hne]. exists line. repeat split; auto.
    intros ->. discriminate.
  - intros [line [Hin [-> Hne]]]. split; [eauto|].
    destruct (trim line); [congruence | reflexivity].
Qed.

(** ** [findIndex] *)

Lemma findIndex_Some {A} (p : A -> bool) l i :
  findIndex p l = Some i ->
  exists x, l !! i = Some x /\ p x = true
            /\ forall j y, (j < i)%nat -> l !! j = Some y -> p y = false.
Proof.
  revert i. induction l as [|a l IH]; simpl; intros i H; [discriminate|].
  destruct (p a) eqn:Hp.
  - injection H as <-. exists a. repeat split; auto. intros j y Hj. lia.
  - destruct (findIndex p l) as [k|] eqn:Hk; simpl in H; [|discriminate].
    injection H as <-. destruct (IH k eq_refl) as [x [Hx [Hpx Hmin]]].
    exists x. repeat split; auto.
    intros [|j] y Hj Hy; simpl in Hy.
    + now injection Hy as <-.
    + apply (Hmin j); [lia | exact Hy].
Qed.

Lemma mergeData_spec existing new :
  mergeData existing new =
  if isNullish new then existing
  else if isNullish existing then new
  else Spec.mergedData existing new.
Proof. destruct existing, new; reflexivity. Qed.

(** ** Retry-merge *)

(** C4 as amended: recording an outcome against the first result that is
    in the retrying state for the same command text merges in place. The data
    follow the array rules of the specification when both the original and
    the retry carry data (neither is [null] nor [undefined]); a retry without
    data keeps the original data and a retry with data replaces missing
    original data. Token counters add field by field, histories concatenate,
    status and error are the retry's, the index stays, no result is added and
    no next command is scheduled. *)
Theorem addCommandResult_retry_merge (result existing : CommandResult)
    (st : State) (i : nat) :
  findIndex (fun r => String.eqb (command r) (command result)
                      && Status_eqb (status r) retrying)
            (commandResults st) = Some i ->
  commandResults st !! i = Some existing ->
  exists merged,
    commandResults (addCommandResult result st) = <[i := merged]> (commandResults st)
    /\ data merged =
         (if isNullish (data result) then data existing
          else if isNullish (data existing) then data result
          else Spec.mergedData (data existing) (data result))
    /\ input (tokenUsage merged)
         = (input (tokenUsage existing) + input (tokenUsage result))%Z
    /\ output (tokenUsage merged)
         = (output (tokenUsage existing) + output (tokenUsage result))%Z
    /\ total (tokenUsage merged)
         = (total (tokenUsage existing) + total (tokenUsage result))%Z
    /\ commandHistory merged = commandHistory existing ++ commandHistory result
    /\ status merged = status result
    /\ error merged = error result
    /\ command merged = command existing
    /\ currentCommandIndex (addCommandResult result st) = currentCommandIndex st
    /\ length (commandResults (addCommandResult result st))
         = length (commandResults st)
    /\ timers (addCommandResult result st) = timers st.
Proof.
  intros Hfind Hlookup. unfold addCommandResult. rewrite Hfind, Hlookup.
  exists (mergeResult existing result). simpl.
  rewrite mergeData_spec, length_insert. repeat split; reflexivity.
Qed.

(** A retry that delivers a title for a result without data. *)
Lemma addCommandResult_retry_merge_witness :
  exists merged,
    commandResults (addCommandResult Scenarios.retryOutcome Scenarios.awaitingRetry)
      = [merged]
    /\ data merged = Str "Example Title"
    /\ total (tokenUsage merged) = 13%Z
    /\ status merged = completed.
Proof.
  destruct (addCommandResult_retry_merge Scenarios.retryOutcome
              (mkResult "get the title" retrying None Null [] (mkUsage 7 3 10))
              Scenarios.awaitingRetry 0 eq_refl eq_refl)
    as [merged [Hres [Hdata [_ [_ [Htotal [_ [Hstatus _]]]]]]]].
  exists merged. repeat split; assumption.
Defined.

(** C4 fails as stated: the original data of a failed or stopped result is
    [null], which is not an array, and neither is the text a retry delivers;
    the merged data is that text and not the pair of the two. *)
Lemma retry_merge_null_counterexample :
  data <$> commandResults
             (addCommandResult Scenarios.retryOutcome Scenarios.awaitingRetry) !! 0%nat
    = Some (Str "Example Title")
  /\ Str "Example Title" <> Spec.mergedData Null (Str "Example Title").
Proof. split; [reflexivity | discriminate]. Qed.

(** ** Retry of a result that cannot be retried *)

(** C10: with an index outside the result list, or on a result that is
    neither failed nor stopped, [retryCommand] returns the refs and the rest
    of the world as they were, whatever the execute function would do. *)
Theorem retryCommand_noop {E : Type} (commandIndex : Z)
    (executeCommandFn : ExecuteFn (E := E)) (st : State) (e : E) :
  (commandIndex < 0)%Z
  \/ (Z.of_nat (length (commandResults st)) <= commandIndex)%Z
  \/ (exists r, commandResults st !! Z.to_nat commandIndex = Some r
                /\ status r <> failed /\ status r <> stopped) ->
  retryCommand commandIndex executeCommandFn (st, e) = (st, e).
Proof.
  intros H. unfold retryCommand.
  destruct (commandIndex <? 0)%Z eqn:Hneg; [reflexivity|].
  destruct (Z.of_nat (length (commandResults st)) <=? commandIndex)%Z eqn:Hlen;
    [reflexivity|]. simpl.
  destruct H as [H | [H | [r [Hr [Hf Hs]]]]]; [lia | lia |].
  rewrite Hr. destruct (status r); try reflexivity; congruence.
Qed.

(** An index below zero, an index past the end, and a completed result. *)
Lemma retryCommand_noop_witness :
  retryCommand (-1) Scenarios.counting (Scenarios.oneCompleted, 0%nat)
    = (Scenarios.oneCompleted, 0%nat)
  /\ retryCommand 1 Scenarios.counting (Scenarios.oneCompleted, 0%nat)
    = (Scenarios.oneCompleted, 0%nat)
  /\ retryCommand 0 Scenarios.counting (Scenarios.oneCompleted, 0%nat)
    = (Scenarios.oneCompleted, 0%nat).
Proof.
  split; [|split]; apply retryCommand_noop.
  - left. lia.
  - right. left. simpl. lia.
  - right. right. eexists. split; [reflexivity|]. split; discriminate.
Defined.

(** ** Starting a queue *)

(** The refs as [startCommandQueue] leaves them before it calls
    [processNextCommand]. *)
Lemma startCommandQueue_unfold {E : Type} (text : string)
    (executeCommandFn : ExecuteFn (E := E)) (st : State) (e : E) :
  parseCommands text <> [] ->
  startCommandQueue text executeCommandFn (st, e) =
  processNextCommand executeCommandFn
    (mkState (parseCommands text) 0 [] true (showResults st) (isPaused st)
       (shouldStopCurrent st) (currentTokenUsage st) zeroUsage true (timers st), e).
Proof.
  intros Hne. unfold startCommandQueue.
  destruct (truthyStr (trim text)) eqn:Ht; simpl.
  - destruct (parseCommands text); [congruence | reflexivity].
  - apply truthyStr_false, parseCommands_blank in Ht. congruence.
Qed.

(** C7 as amended: the commands are the trimmed lines of the text that are
    not empty; without such a line nothing changes; otherwise the command
    list is replaced, the result list, the index and the session token
    counter are reset, the queue is marked as processing and the execute
    function is stored, while the paused flag, the stop-request flag and the
    per-command token counter stay as they were. A paused queue then stays at
    index 0 without processing; otherwise the first command is handed to the
    execute function. *)
Theorem startCommandQueue_resets {E : Type} (text : string)
    (executeCommandFn : ExecuteFn (E := E)) (st : State) (e : E) :
  (forall c, In c (parseCommands text) <->
             exists line, In line (splitLines text) /\ c = trim line
                          /\ c <> EmptyString)
  /\ (parseCommands text = [] ->
      startCommandQueue text executeCommandFn (st, e) = (st, e))
  /\ (forall first rest, parseCommands text = first :: rest ->
      let fresh :=
        mkState (first :: rest) 0 [] true (showResults st) (isPaused st)
          (shouldStopCurrent st) (currentTokenUsage st) zeroUsage true (timers st) in
      (isPaused st = true ->
       startCommandQueue text executeCommandFn (st, e) = (fresh, e))
      /\ (isPaused st = false ->
          startCommandQueue text executeCommandFn (st, e) =
          match executeCommandFn first (fresh, e) with
          | Return s' => s'
          | Throw message (st', e') =>
              (setTimeout 1000
                 (set_currentCommandIndex (S (currentCommandIndex st'))
                    (set_commandResults
                       (commandResults st' ++
                          [mkResult first failed (Some message) Null []
                             (currentTokenUsage st')]) st')), e')
          end)).
Proof.
  split; [intros c; apply parseCommands_In|]. split.
  - intros Hnil. unfold startCommandQueue.
    destruct (truthyStr (trim text)); simpl; [|reflexivity].
    now rewrite Hnil.
  - intros first rest Hcmds fresh.
    assert (Hne : parseCommands text <> []) by (rewrite Hcmds; discriminate).
    rewrite (startCommandQueue_unfold _ _ _ _ Hne), Hcmds. fold fresh.
    split; intros Hp; unfold processNextCommand; subst fresh; simpl; rewrite Hp.
    + reflexivity.
    + destruct (executeCommandFn first _) as [s'|message [st' e']]; reflexivity.
Qed.

(** A blank text, a text with one command, and the same on a paused queue. *)
Lemma startCommandQueue_resets_witness :
  startCommandQueue "   " Scenarios.counting (Scenarios.oneCompleted, 0%nat)
    = (Scenarios.oneCompleted, 0%nat)
  /\ startCommandQueue " get the title " Scenarios.counting
       (Scenarios.oneCompleted, 0%nat)
    = (mkState ["get the title"] 0 [] true false false false zeroUsage zeroUsage
         true [], 1%nat)
  /\ startCommandQueue " get the title " Scenarios.counting
       (Scenarios.pausedState, 0%nat)
    = (mkState ["get the title"] 0 [] true false true true (mkUsage 7 3 10)
         zeroUsage true [], 0%nat).
Proof.
  split; [|split].
  - apply (startCommandQueue_resets "   " Scenarios.counting). reflexivity.
  - apply (proj2 (proj2 (startCommandQueue_resets " get the title "
                           Scenarios.counting Scenarios.oneCompleted 0%nat))
             "get the title" [] eq_refl).
    reflexivity.
  - apply (proj2 (proj2 (startCommandQueue_resets " get the title "
                           Scenarios.counting Scenarios.pausedState 0%nat))
             "get the title" [] eq_refl).
    reflexivity.
Defined.

(** C7 fails as stated. Started on an idle queue whose stop flag is still
    set, [startCommandQueue] hands the first command to the execute function
    with the flag set and the per-command counter as it was; started on a
    queue that is paused as well, it leaves both flags set and processes
    nothing. *)
Lemma start_keeps_flags_counterexample :
  let after := startCommandQueue "get the title" Scenarios.counting
                 (Scenarios.stopPendingState, 0%nat) in
  let paused := startCommandQueue "get the title" Scenarios.counting
                  (Scenarios.pausedState, 0%nat) in
  (shouldStopCurrent (fst after) = true
   /\ currentTokenUsage (fst after) = mkUsage 7 3 10
   /\ snd after = 1%nat)
  /\ (isPaused (fst paused) = true
      /\ shouldStopCurrent (fst paused) = true
      /\ snd paused = 0%nat).
Proof. repeat split. Qed.

End QueueFacts.

(** * Properties of the [Done] tool *)

Module ToolsFacts.
Import JS Tools.

Section WithBuiltins.

Variable JSON_parse : string -> ParseResult.
Variable JSON_stringify : Value -> string.


End WithBuiltins.


End ToolsFacts.

(** * Properties of the command executor *)

Module ExecutorFacts.
Import JS CommandQueue Tools CommandExecutor.

(** ** What the queue operations leave alone *)

Lemma applyAction_currentTokenUsage a st :
  currentTokenUsage (applyAction a st) = currentTokenUsage st.
Proof.
  destruct a; simpl; try reflexivity.
  unfold resumeExecution. simpl. now destruct (_ && _).
Qed.

Lemma operator_currentTokenUsage actions st :
  currentTokenUsage (fold_left (fun st a => applyAction a st) actions st)
  = currentTokenUsage st.
Proof.
  revert st. induction actions as [|a actions IH]; intros st; simpl; [reflexivity|].
  now rewrite IH, applyAction_currentTokenUsage.
Qed.

Lemma addCommandResult_shouldStopCurrent result st :
  shouldStopCurrent (addCommandResult result st) = shouldStopCurrent st.
Proof.
  unfold addCommandResult.
  destruct (findIndex _ _) as [i|].
  - now destruct (commandResults st !! i).
  - simpl. now destruct (_ && _).
Qed.

Section Facts.

Context {host : Host}.
Variable call : Args.t.

(** ** The terminal branches *)

Lemma report_facts s err d m :
  status (fst (report call s err d m)) = s
  /\ error (fst (report call s err d m)) = err
  /\ data (fst (report call s err d m)) = d
  /\ commandRecord (snd (report call s err d m)) = commandRecord m
  /\ journal (snd (report call s err d m)) = journal m
  /\ world (snd (report call s err d m)) = world m
  /\ shouldStopCurrent (queue (snd (report call s err d m)))
     = shouldStopCurrent (queue m).
Proof.
  unfold report. simpl. rewrite addCommandResult_shouldStopCurrent.
  repeat split; reflexivity.
Qed.

Lemma stopCommand_facts m :
  status (fst (stopCommand call m)) = stopped
  /\ error (fst (stopCommand call m)) = Some stoppedMessage
  /\ data (fst (stopCommand call m)) = Null
  /\ cr_status (commandRecord (snd (stopCommand call m))) = stopped
  /\ cr_toolResults (commandRecord (snd (stopCommand call m)))
     = cr_toolResults (commandRecord m)
  /\ journal (snd (stopCommand call m)) = journal m
  /\ shouldStopCurrent (queue (snd (stopCommand call m))) = false.
Proof.
  unfold stopCommand.
  destruct (report_facts stopped (Some stoppedMessage) Null
              (terminate stopped (Some stoppedMessage)
                 (set_queue (resetStopFlag (queue m)) m)))
    as (Hs & He & Hd & Hr & Hj & _ & Hf).
  rewrite Hs, He, Hd, Hr, Hj, Hf. repeat split; reflexivity.
Qed.

Lemma failCommand_facts message m :
  status (fst (failCommand call message m)) = failed
  /\ error (fst (failCommand call message m)) = Some message
  /\ data (fst (failCommand call message m)) = Null
  /\ cr_status (commandRecord (snd (failCommand call message m))) = failed
  /\ cr_toolResults (commandRecord (snd (failCommand call message m)))
     = cr_toolResults (commandRecord m)
  /\ journal (snd (failCommand call message m)) = journal m.
Proof.
  unfold failCommand.
  destruct (report_facts failed (Some message) Null
              (terminate failed (Some message) m))
    as (Hs & He & Hd & Hr & Hj & _ & _).
  rewrite Hs, He, Hd, Hr, Hj. repeat split; reflexivity.
Qed.

(** ** One tool call *)

Lemma runTool_facts toolCall args m t m' :
  runTool toolCall args m = Some (t, m') ->
  commandRecord m' = commandRecord m
  /\ journal m' = journal m ++ [ToolRun toolCall]
  /\ currentTokenUsage (queue m') = currentTokenUsage (queue m).
Proof.
  unfold runTool.
  destruct (String.eqb (function_name toolCall) "Done").
  - intros H. injection H as _ <-. repeat split; reflexivity.
  - destruct (existsb _ _); [|discriminate].
    destruct (pageTool _ _ _) as [result w]. intros H. injection H as _ <-.
    unfold resume. simpl. rewrite operator_currentTokenUsage.
    repeat split; reflexivity.
Qed.

Lemma runCall_facts toolCall m :
  let m' := match runCall toolCall m with
            | Completion _ _ m' => m'
            | Answer _ m' => m'
            end in
  commandRecord m' = commandRecord m
  /\ (journal m' = journal m \/ journal m' = journal m ++ [ToolRun toolCall])
  /\ currentTokenUsage (queue m') = currentTokenUsage (queue m).
Proof.
  unfold runCall.
  destruct (JSON_parse (function_arguments toolCall)) as [args|message];
    [|simpl; auto].
  destruct (runTool toolCall args m) as [[t m1]|] eqn:Hrun; [|simpl; auto].
  apply runTool_facts in Hrun as (Hr & Hj & Hu).
  destruct t as [result|message]; [destruct (completionOf result)|]; simpl; auto.
Qed.

(** A [Done] call without data is answered with the text of the tool and
    does not end the command. *)
Lemma Done_without_data_answered toolCall args m :
  function_name toolCall = "Done" ->
  JSON_parse (function_arguments toolCall) = Parsed args ->
  isNullish args = false ->
  isNullish (dataOf args) = true ->
  exists m',
    runCall toolCall m = Answer nullDataMessage m'
    /\ commandRecord m' = commandRecord m
    /\ queue m' = queue m.
Proof.
  intros Hname Hparse Hargs Hdata. unfold runCall, runTool.
  rewrite Hparse, Hname. cbn [String.eqb Ascii.eqb Bool.eqb].
  unfold Done_implementation. rewrite Hargs, Hdata. cbn [snd].
  unfold completionOf.
  replace (includes COMMAND_COMPLETE nullDataMessage) with false by reflexivity.
  eexists. split; [reflexivity|]. split; reflexivity.
Qed.

(** ** The dispatch of a batch *)

Lemma dispatch_app pre rest acc m :
  dispatch call (pre ++ rest) acc m =
  match dispatch call pre acc m with
  | Returned r => Returned r
  | Through acc' m' => dispatch call rest acc' m'
  end.
Proof.
  revert acc m. induction pre as [|c pre IH]; intros acc m; simpl; [reflexivity|].
  destruct (shouldStopCurrent (queue m)); [reflexivity|].
  destruct (runCall c m); [reflexivity | apply IH].
Qed.

(** A batch that went through answered every call with one tool result, in
    order, ran no tool outside the batch and spent no token. *)
Lemma dispatch_through calls acc m acc' m' :
  dispatch call calls acc m = Through acc' m' ->
  exists results ran,
    acc' = acc ++ results
    /\ cr_toolResults (commandRecord m') = cr_toolResults (commandRecord m) ++ results
    /\ List.map tool_call_id results = List.map tc_id calls
    /\ sublist ran calls
    /\ journal m' = journal m ++ List.map ToolRun ran
    /\ currentTokenUsage (queue m') = currentTokenUsage (queue m).
Proof.
  revert acc m. induction calls as [|c rest IH]; intros acc m; simpl.
  - intros H. injection H as <- <-. exists [], []. rewrite !app_nil_r.
    repeat split; auto; constructor.
  - destruct (shouldStopCurrent (queue m)); [discriminate|].
    pose proof (runCall_facts c m) as Hcall.
    destruct (runCall c m) as [result d m1|content m1]; [discriminate|].
    simpl in Hcall. destruct Hcall as (Hr & Hj & Hu). intros H.
    apply IH in H as (results & ran & -> & Hres & Hids & Hsub & Hjournal & Husage).
    simpl in Hres, Hjournal, Husage. rewrite Hr in Hres. rewrite Husage, Hu.
    exists (toolResult c content m1 :: results).
    destruct Hj as [Hj | Hj]; rewrite Hj in Hjournal.
    + exists ran. rewrite <- !app_assoc in *. simpl in *.
      repeat split; auto; [now f_equal | now apply sublist_cons].
    + exists (c :: ran). rewrite <- !app_assoc in *. simpl in *.
      repeat split; auto; [now f_equal | now apply sublist_skip].
Qed.

(** Whatever way a batch ends, its journal entries are runs of its own
    calls, in order, and the token counter of the attempt is as before. *)
Lemma dispatch_journal calls acc m :
  exists ran,
    sublist ran calls
    /\ journal (machineOf (dispatch call calls acc m))
       = journal m ++ List.map ToolRun ran.
Proof.
  revert acc m. induction calls as [|c rest IH]; intros acc m; cbn [dispatch].
  - exists []. rewrite app_nil_r. split; [constructor | reflexivity].
  - destruct (shouldStopCurrent (queue m)).
    + exists []. cbn [machineOf List.map].
      destruct (stopCommand_facts m) as (_&_&_&_&_&Hj&_).
      rewrite Hj, app_nil_r. split; [apply sublist_nil_l | reflexivity].
    + pose proof (runCall_facts c m) as Hcall.
      destruct (runCall c m) as [result d m1|content m1]; cbn zeta iota in Hcall;
        destruct Hcall as (Hr & Hj & Hu).
      * cbn [machineOf]. unfold completeCommand.
        match goal with |- context [report call ?s ?e ?d ?x] =>
          destruct (report_facts s e d x) as (_&_&_&_&Hrj&_) end.
        rewrite Hrj. cbn [journal pushToolResult set_commandRecord].
        destruct Hj as [Hj | Hj]; rewrite Hj.
        -- exists []. rewrite app_nil_r. split; [apply sublist_nil_l | reflexivity].
        -- exists [c]. split; [|reflexivity].
           apply sublist_skip, sublist_nil_l.
      * destruct (IH (acc ++ [toolResult c content m1])
                    (pushToolResult (toolResult c content m1) m1))
          as (ran & Hsub & Hjournal).
        rewrite Hjournal. cbn [journal pushToolResult set_commandRecord].
        destruct Hj as [Hj | Hj]; rewrite Hj.
        -- exists ran. split; [now apply sublist_cons | reflexivity].
        -- exists (c :: ran). rewrite <- app_assoc.
           split; [now apply sublist_skip | reflexivity].
Qed.

(** ** The loop *)

Lemma finishCommand_facts a m :
  status (fst (finishCommand call a m)) = completed
  /\ error (fst (finishCommand call a m)) = None
  /\ data (fst (finishCommand call a m))
     = Str (match am_content a with
            | Some c => if truthyStr c then c else defaultData
            | None => defaultData
            end)
  /\ cr_status (commandRecord (snd (finishCommand call a m))) = completed
  /\ cr_toolResults (commandRecord (snd (finishCommand call a m)))
     = cr_toolResults (commandRecord m)
  /\ journal (snd (finishCommand call a m)) = journal m.
Proof.
  unfold finishCommand.
  match goal with |- context [report call ?s ?e ?d ?x] =>
    destruct (report_facts s e d x) as (Hs & He & Hd & Hr & Hj & _) end.
  rewrite Hs, He, Hd, Hr, Hj.
  destruct (am_content a) as [c|]; [destruct (truthyStr c)|];
    repeat split; reflexivity.
Qed.

Lemma recordToolCalls_facts calls m :
  queue (snd (recordToolCalls calls m)) = queue m
  /\ world (snd (recordToolCalls calls m)) = world m
  /\ journal (snd (recordToolCalls calls m)) = journal m
  /\ cr_toolResults (commandRecord (snd (recordToolCalls calls m)))
     = cr_toolResults (commandRecord m).
Proof.
  revert m. induction calls as [|c rest IH]; intros m; cbn [recordToolCalls];
    [repeat split; reflexivity|].
  destruct (JSON_parse (function_arguments c)); [|repeat split; reflexivity].
  destruct (IH (pushToolCall
                  (mkToolCallEvent (function_name c) v (tc_id c) (clock (world m))) m))
    as (Hq & Hw & Hj & Hr).
  rewrite Hq, Hw, Hj, Hr. repeat split; reflexivity.
Qed.

(** A batch with a call whose arguments do not parse leaves the loop before
    any call is dispatched. *)
Lemma recordToolCalls_malformed pre bad post message m :
  Forall (fun c => exists args, JSON_parse (function_arguments c) = Parsed args) pre ->
  JSON_parse (function_arguments bad) = SyntaxError message ->
  fst (recordToolCalls (pre ++ bad :: post) m) = Some message.
Proof.
  intros Hpre Hbad. revert m.
  induction Hpre as [|c pre [args Hc] _ IH]; intros m; cbn [recordToolCalls app].
  - now rewrite Hbad.
  - rewrite Hc. apply IH.
Qed.

Lemma roundTrip_facts api m :
  journal (snd (roundTrip call api m))
  = journal m ++ [ModelCall (total (currentTokenUsage (queue m)))]
  /\ cr_toolResults (commandRecord (snd (roundTrip call api m)))
     = cr_toolResults (commandRecord m).
Proof.
  unfold roundTrip. destruct (create _ _ _) as [[response|message] w];
    [|split; reflexivity].
  destruct (usage response) as [u|]; cbn [updateTokenUsage];
    destruct (choices response); split; reflexivity.
Qed.

Lemma loop_S fuel api a it m :
  loop call (S fuel) api a it m =
  if hasToolCalls a && (it <? maxIterations call)%Z then
    if shouldStopCurrent (queue m) then Some (stopCommand call m)
    else if (Args.maxTokens call <=? total (currentTokenUsage (queue m)))%Z then
      Some (failCommand call
              (tokenLimitMessage (Args.maxTokens call)
                 (total (currentTokenUsage (queue m)))) m)
    else
      match recordToolCalls (callsOf a) m with
      | (Some message, m1) => Some (failCommand call message m1)
      | (None, m1) =>
          match dispatch call (callsOf a) [] m1 with
          | Returned r => Some r
          | Through toolCallResults m2 =>
              let api' := api ++ [assistantApiMessage a]
                            ++ List.map toolApiMessage toolCallResults in
              match roundTrip call api' m2 with
              | (Err message, m3) => Some (failCommand call message m3)
              | (Ok next, m3) => loop call fuel api' next (it + 1)%Z m3
              end
          end
      end
  else Some (finishCommand call a m).
Proof. reflexivity. Qed.

(** ** Stop during a batch *)

(** C3 as amended. The stop flag is polled at the head of an iteration of
    the loop and again before each call of the batch; nothing is awaited
    between the head and the poll before the first call. In an iteration
    with tool calls below the cap:
    - when the flag is set at the head, the attempt ends there as stopped,
      with the stop message and [null] data, the tool results of the record
      as they were, nothing run and the flag clear;
    - when the iteration is entered (no stop pending, the token total below
      the ceiling) with a batch [pre ++ c :: post] whose arguments all parse,
      the dispatch of the [j] calls of [pre] has gone through and the flag is
      found set at the poll before [c], which is call [j+1], the attempt
      ends there as stopped, with the stop message and [null] data; the
      tool results of the record are those it held when the batch began,
      followed by one result for each of the [j] calls, in their order ([j]
      more than before the batch, and [j] in all when the record held
      none); no tool has run but calls among the first [j], and no request
      was made; and the flag is clear when the attempt returns. *)
Theorem stop_during_batch (fuel : nat) (api : list ApiMessage)
    (a : AssistantMessage) (it : Z) (m : Machine) :
  hasToolCalls a = true ->
  (it < maxIterations call)%Z ->
  (shouldStopCurrent (queue m) = true ->
   exists r,
     loop call (S fuel) api a it m = Some r
     /\ status (fst r) = stopped
     /\ error (fst r) = Some stoppedMessage
     /\ data (fst r) = Null
     /\ cr_status (commandRecord (snd r)) = stopped
     /\ cr_toolResults (commandRecord (snd r)) = cr_toolResults (commandRecord m)
     /\ journal (snd r) = journal m
     /\ shouldStopCurrent (queue (snd r)) = false)
  /\ (forall (pre : list ToolCall) (c : ToolCall) (post : list ToolCall)
             (acc' : list ToolResultEvent) (m' : Machine),
        shouldStopCurrent (queue m) = false ->
        (total (currentTokenUsage (queue m)) < Args.maxTokens call)%Z ->
        callsOf a = pre ++ c :: post ->
        fst (recordToolCalls (callsOf a) m) = None ->
        dispatch call pre [] (snd (recordToolCalls (callsOf a) m)) = Through acc' m' ->
        shouldStopCurrent (queue m') = true ->
        exists r results ran,
          loop call (S fuel) api a it m = Some r
          /\ status (fst r) = stopped
          /\ error (fst r) = Some stoppedMessage
          /\ data (fst r) = Null
          /\ cr_status (commandRecord (snd r)) = stopped
          /\ cr_toolResults (commandRecord (snd r))
             = cr_toolResults (commandRecord m) ++ results
          /\ List.map tool_call_id results = List.map tc_id pre
          /\ length (cr_toolResults (commandRecord (snd r)))
             = (length (cr_toolResults (commandRecord m)) + length pre)%nat
          /\ (cr_toolResults (commandRecord m) = [] ->
              length (cr_toolResults (commandRecord (snd r))) = length pre)
          /\ sublist ran pre
          /\ journal (snd r) = journal m ++ List.map ToolRun ran
          /\ shouldStopCurrent (queue (snd r)) = false).
Proof.
  intros Ha Hit. split.
  - intros Hstop.
    destruct (stopCommand_facts m) as (Hs & He & Hd & Hcs & Htr & Hj & Hflag).
    exists (stopCommand call m). split.
    { rewrite loop_S, Ha, Hstop.
      replace (it <? maxIterations call)%Z with true by lia. reflexivity. }
    repeat split; assumption.
  - intros pre c post acc' m' Hstop Htotal Hcalls Hrec Hpre Hstop'.
    destruct (recordToolCalls_facts (callsOf a) m) as (_ & _ & Hj1 & Hr1).
    destruct (recordToolCalls (callsOf a) m) as [o m1] eqn:Hrun.
    cbn [fst snd] in *. subst o.
    destruct (stopCommand_facts m') as (Hs & He & Hd & Hcs & Htr & Hj & Hflag).
    destruct (dispatch_through _ _ _ _ _ Hpre)
      as (results & ran & _ & Hres & Hids & Hsub & Hjournal & _).
    assert (Hlen : length results = length pre).
    { apply (f_equal (@length _)) in Hids. now rewrite !length_map in Hids. }
    exists (stopCommand call m'), results, ran.
    split.
    { rewrite loop_S, Ha, Hstop, Hrun, Hcalls, dispatch_app, Hpre.
      replace (it <? maxIterations call)%Z with true by lia.
      replace (Args.maxTokens call <=? total (currentTokenUsage (queue m)))%Z
        with false by lia.
      cbn [andb dispatch]. now rewrite Hstop'. }
    rewrite Hs, He, Hd, Hcs, Htr, Hj, Hflag, Hres, Hjournal, Hr1, Hj1.
    repeat split; auto.
    + rewrite length_app, Hlen. reflexivity.
    + intros ->. cbn. exact Hlen.
Qed.

(** A call whose arguments do not parse fails the attempt at the head of the
    iteration: nothing of the batch is dispatched, no tool result is
    recorded. *)
Lemma loop_malformed fuel api a it m pre bad post message :
  hasToolCalls a = true ->
  (it < maxIterations call)%Z ->
  shouldStopCurrent (queue m) = false ->
  (total (currentTokenUsage (queue m)) < Args.maxTokens call)%Z ->
  callsOf a = pre ++ bad :: post ->
  Forall (fun c => exists args, JSON_parse (function_arguments c) = Parsed args) pre ->
  JSON_parse (function_arguments bad) = SyntaxError message ->
  exists r,
    loop call (S fuel) api a it m = Some r
    /\ status (fst r) = failed
    /\ error (fst r) = Some message
    /\ journal (snd r) = journal m
    /\ cr_toolResults (commandRecord (snd r)) = cr_toolResults (commandRecord m).
Proof.
  intros Ha Hit Hstop Htotal Hcalls Hpre Hbad.
  pose proof (recordToolCalls_malformed pre bad post message m Hpre Hbad) as Hrec.
  destruct (recordToolCalls_facts (pre ++ bad :: post) m) as (_ & _ & Hj & Hr).
  rewrite loop_S, Ha, Hstop, Hcalls.
  replace (it <? maxIterations call)%Z with true by lia.
  replace (Args.maxTokens call <=? total (currentTokenUsage (queue m)))%Z
    with false by lia.
  cbn [andb]. destruct (recordToolCalls (pre ++ bad :: post) m) as [o m1].
  cbn [fst snd] in *. subst o.
  destruct (failCommand_facts message m1) as (Hs & He & _ & _ & Htr & Hjf).
  eexists. split; [reflexivity|]. rewrite Hs, He, Htr, Hjf, Hj, Hr.
  repeat split; reflexivity.
Qed.

(** The fuel [executeCommand] gives the loop is enough. *)
Lemma loop_total fuel api a it m :
  (maxIterations call - it <= Z.of_nat fuel)%Z ->
  exists r, loop call fuel api a it m = Some r.
Proof.
  revert api a it m. induction fuel as [|fuel IH]; intros api a it m Hfuel.
  - cbn [loop]. replace (it <? maxIterations call)%Z with false by lia.
    rewrite andb_false_r. eauto.
  - rewrite loop_S. destruct (_ && _); [|eauto].
    destruct (shouldStopCurrent (queue m)); [eauto|].
    destruct (_ <=? _)%Z; [eauto|].
    destruct (recordToolCalls (callsOf a) m) as [[message|] m1]; [eauto|].
    destruct (dispatch call (callsOf a) [] m1) as [r|results m2]; [eauto|].
    cbn zeta. destruct (roundTrip call _ m2) as [[next|message] m3]; [|eauto].
    apply IH. lia.
Qed.

Lemma executeCommand_total q w : exists r, executeCommand call q w = Some r.
Proof.
  unfold executeCommand. destruct (negb _); [eauto|].
  destruct (roundTrip call _ _) as [[a|message] m1]; [|eauto].
  apply loop_total. lia.
Qed.

(** Every request the loop makes is made below the token limit. *)
Lemma loop_journal fuel api a it m r :
  loop call fuel api a it m = Some r ->
  exists later,
    journal (snd r) = journal m ++ later
    /\ Forall (spendsBelow (Args.maxTokens call)) later.
Proof.
  revert api a it m. induction fuel as [|fuel IH]; intros api a it m.
  - cbn [loop]. destruct (_ && _); [discriminate|].
    intros H. injection H as <-. exists [].
    destruct (finishCommand_facts a m) as (_&_&_&_&_&Hj).
    rewrite Hj, app_nil_r. auto.
  - rewrite loop_S. destruct (_ && _).
    2:{ intros H. injection H as <-. exists [].
        destruct (finishCommand_facts a m) as (_&_&_&_&_&Hj).
        rewrite Hj, app_nil_r. auto. }
    destruct (shouldStopCurrent (queue m)).
    { intros H. injection H as <-. exists [].
      destruct (stopCommand_facts m) as (_&_&_&_&_&Hj&_).
      rewrite Hj, app_nil_r. auto. }
    destruct (_ <=? _)%Z eqn:Hlimit.
    { intros H. injection H as <-. exists [].
      destruct (failCommand_facts
                  (tokenLimitMessage (Args.maxTokens call)
                     (total (currentTokenUsage (queue m)))) m) as (_&_&_&_&_&Hj).
      rewrite Hj, app_nil_r. auto. }
    destruct (recordToolCalls_facts (callsOf a) m) as (Hq1 & _ & Hj1 & _).
    destruct (recordToolCalls (callsOf a) m) as [[message|] m1];
      cbn [snd] in Hq1, Hj1.
    { intros H. injection H as <-. exists [].
      destruct (failCommand_facts message m1) as (_&_&_&_&_&Hj).
      rewrite Hj, Hj1, app_nil_r. auto. }
    destruct (dispatch_journal (callsOf a) [] m1) as (ran & _ & Hjd).
    assert (Hran : Forall (spendsBelow (Args.maxTokens call)) (List.map ToolRun ran)).
    { clear. induction ran; constructor; simpl; auto. }
    destruct (dispatch call (callsOf a) [] m1) as [r1|results m2] eqn:Hd.
    { intros H. injection H as <-. exists (List.map ToolRun ran).
      cbn [machineOf] in Hjd. rewrite Hjd, Hj1. auto. }
    cbn [machineOf] in Hjd. cbn zeta.
    apply dispatch_through in Hd as (_ & _ & _ & _ & _ & _ & _ & Hu).
    match goal with |- context [roundTrip call ?x m2] =>
      destruct (roundTrip_facts x m2) as (Hjr & _);
      destruct (roundTrip call x m2) as [[next|message] m3] end;
      cbn [snd] in Hjr.
    + intros H. apply IH in H as (later & Hj & Hlater).
      exists (List.map ToolRun ran ++ ModelCall (total (currentTokenUsage (queue m2)))
                :: later).
      rewrite Hj, Hjr, Hjd, Hj1, <- !app_assoc. split; [reflexivity|].
      apply Forall_app. split; [exact Hran|]. constructor; [|exact Hlater].
      simpl. rewrite Hu, Hq1. lia.
    + intros H. injection H as <-.
      destruct (failCommand_facts message m3) as (_&_&_&_&_&Hj).
      exists (List.map ToolRun ran ++ [ModelCall (total (currentTokenUsage (queue m2)))]).
      rewrite Hj, Hjr, Hjd, Hj1, <- !app_assoc. split; [reflexivity|].
      apply Forall_app. split; [exact Hran|]. constructor; [|constructor].
      simpl. rewrite Hu, Hq1. lia.
Qed.

Lemma tokenLimitMessage_prefix limit spent :
  String.prefix "Token limit reached" (tokenLimitMessage limit spent) = true.
Proof. reflexivity. Qed.

(** ** The token budget *)


(** ** The iteration cap *)

(** At the cap the loop is left and the attempt is completed with the text of
    the last assistant message, or with the default text. *)
Lemma loop_at_cap fuel api a it m :
  (maxIterations call <= it)%Z ->
  loop call fuel api a it m = Some (finishCommand call a m).
Proof.
  intros Hcap. destruct fuel; cbn [loop];
    replace (it <? maxIterations call)%Z with false by lia;
    now rewrite andb_false_r.
Qed.

Lemma operator_shouldStopCurrent actions st :
  ~ In PressStop actions ->
  shouldStopCurrent (fold_left (fun st a => applyAction a st) actions st)
  = shouldStopCurrent st.
Proof.
  revert st. induction actions as [|a actions IH]; intros st Hno; simpl;
    [reflexivity|].
  rewrite IH by (intros Hin; apply Hno; now right).
  destruct a; simpl; [exfalso; apply Hno; now left | reflexivity |].
  unfold resumeExecution. simpl. now destruct (_ && _).
Qed.

Lemma modelCalls_app j1 j2 : modelCalls (j1 ++ j2) = (modelCalls j1 + modelCalls j2)%nat.
Proof. unfold modelCalls. now rewrite List.filter_app, length_app. Qed.

Lemma modelCalls_ToolRun ran : modelCalls (List.map ToolRun ran) = 0%nat.
Proof. induction ran; simpl; auto. Qed.

Section Insistent.

(** A model that answers every request with tool calls other than [Done]
    whose arguments parse, spending at most [U] tokens per response; page
    tools whose results are no completion signal; an operator who does not
    press Stop; a budget that fifty responses do not exhaust. *)
Variable U : Z.
Hypothesis U_nonneg : (0 <= U)%Z.
Hypothesis budget : (50 * U < Args.maxTokens call)%Z.
Hypothesis key : truthyStr (Args.apiKey call) = true.
Hypothesis insists :
  forall name api w, exists u a others w',
    create name api w = (Ok (mkResponse u (a :: others)), w')
    /\ hasToolCalls a = true
    /\ Forall plainCall (callsOf a)
    /\ (forall x, u = Some x -> (total (usageDelta x) <= U)%Z).
Hypothesis no_signal :
  forall name args w, completionOf (fst (pageTool name args w)) = None.
Hypothesis no_stop : forall w, ~ In PressStop (operator w).

Lemma runCall_plain c m :
  plainCall c ->
  exists content m',
    runCall c m = Answer content m'
    /\ shouldStopCurrent (queue m') = shouldStopCurrent (queue m).
Proof.
  intros [[args Hargs] Hname]. unfold runCall, runTool. rewrite Hargs.
  apply String.eqb_neq in Hname. rewrite Hname.
  destruct (existsb _ _); [|eauto].
  pose proof (no_signal (function_name c) args (world m)) as Hsig.
  destruct (pageTool _ _ _) as [result w]. cbn [fst] in Hsig. rewrite Hsig.
  eexists. eexists. split; [reflexivity|].
  unfold resume. cbn [queue]. now apply operator_shouldStopCurrent.
Qed.

Lemma dispatch_plain calls acc m :
  Forall plainCall calls ->
  shouldStopCurrent (queue m) = false ->
  exists acc' m',
    dispatch call calls acc m = Through acc' m'
    /\ shouldStopCurrent (queue m') = false.
Proof.
  intros Hcalls. revert acc m.
  induction Hcalls as [|c rest Hc _ IH]; intros acc m Hstop; cbn [dispatch].
  - eauto.
  - rewrite Hstop. destruct (runCall_plain c m Hc) as (content & m' & -> & Hs).
    apply IH. cbn [pushToolResult set_commandRecord queue]. congruence.
Qed.

Lemma recordToolCalls_plain calls m :
  Forall plainCall calls -> fst (recordToolCalls calls m) = None.
Proof.
  intros Hcalls. revert m.
  induction Hcalls as [|c rest [[args Hc] _] _ IH]; intros m;
    cbn [recordToolCalls]; [reflexivity|].
  rewrite Hc. apply IH.
Qed.

Lemma roundTrip_insistent api m :
  exists a m',
    roundTrip call api m = (Ok a, m')
    /\ hasToolCalls a = true
    /\ Forall plainCall (callsOf a)
    /\ shouldStopCurrent (queue m') = shouldStopCurrent (queue m)
    /\ (total (currentTokenUsage (queue m'))
        <= total (currentTokenUsage (queue m)) + U)%Z
    /\ modelCalls (journal m') = S (modelCalls (journal m))
    /\ exists u others,
         create (Args.modelName call) api (world m)
         = (Ok (mkResponse u (a :: others)), world m').
Proof.
  unfold roundTrip.
  destruct (insists (Args.modelName call) api (world m))
    as (u & a & others & w' & Hcreate & Ha & Hplain & Hu).
  rewrite Hcreate. cbn [usage choices]. exists a.
  assert (Hj : forall j, modelCalls (j ++ [ModelCall (total (currentTokenUsage (queue m)))])
                         = S (modelCalls j)).
  { intros j. rewrite modelCalls_app. cbn. lia. }
  destruct u as [x|]; cbn [updateTokenUsage]; eexists;
    (split; [reflexivity|]); cbn [queue journal resume world];
    (split; [exact Ha|]); (split; [exact Hplain|]).
  - cbn [shouldStopCurrent set_totalTokenUsage set_currentTokenUsage
           currentTokenUsage totalTokenUsage addUsage total].
    rewrite operator_shouldStopCurrent, operator_currentTokenUsage by apply no_stop.
    specialize (Hu x eq_refl). split; [reflexivity|]. split; [lia|].
    split; [apply Hj | eauto].
  - rewrite operator_shouldStopCurrent, operator_currentTokenUsage by apply no_stop.
    split; [reflexivity|]. split; [lia|]. split; [apply Hj | eauto].
Qed.

Lemma finishCommand_world a m : world (snd (finishCommand call a m)) = world m.
Proof.
  unfold finishCommand.
  match goal with |- context [report call ?s ?e ?d ?x] =>
    destruct (report_facts s e d x) as (_ & _ & _ & _ & _ & Hw & _) end.
  rewrite Hw. destruct (am_content a) as [c|]; [destruct (truthyStr c)|];
    reflexivity.
Qed.

Lemma loop_insistent fuel api a it m :
  hasToolCalls a = true ->
  Forall plainCall (callsOf a) ->
  shouldStopCurrent (queue m) = false ->
  (0 <= it)%Z ->
  Z.of_nat fuel = Z.max 0 (maxIterations call - it) ->
  (total (currentTokenUsage (queue m)) <= (it + 1) * U)%Z ->
  (exists request w0 u others,
     create (Args.modelName call) request w0
     = (Ok (mkResponse u (a :: others)), world m)) ->
  exists r last,
    loop call fuel api a it m = Some r
    /\ (exists request w0 u others,
          create (Args.modelName call) request w0
          = (Ok (mkResponse u (last :: others)), world (snd r)))
    /\ hasToolCalls last = true
    /\ status (fst r) = completed
    /\ error (fst r) = None
    /\ data (fst r)
       = Str (match am_content last with
              | Some c => if truthyStr c then c else defaultData
              | None => defaultData
              end)
    /\ cr_status (commandRecord (snd r)) = completed
    /\ modelCalls (journal (snd r)) = (modelCalls (journal m) + fuel)%nat.
Proof.
  revert api a it m. induction fuel as [|fuel IH];
    intros api a it m Ha Hplain Hstop Hit Hfuel Htotal Hlast.
  - rewrite loop_at_cap by lia.
    destruct (finishCommand_facts a m) as (Hs & He & Hd & Hcs & _ & Hj).
    eexists. exists a. split; [reflexivity|].
    rewrite Hs, He, Hd, Hcs, Hj, finishCommand_world.
    repeat split; auto.
  - assert (Hcap : (maxIterations call <= 50)%Z) by (unfold maxIterations; lia).
    rewrite loop_S, Ha, Hstop.
    replace (it <? maxIterations call)%Z with true by lia.
    replace (Args.maxTokens call <=? total (currentTokenUsage (queue m)))%Z
      with false by nia.
    cbn [andb].
    pose proof (recordToolCalls_plain (callsOf a) m Hplain) as Hrec.
    destruct (recordToolCalls_facts (callsOf a) m) as (Hq1 & _ & Hj1 & _).
    destruct (recordToolCalls (callsOf a) m) as [o m1]. cbn [fst snd] in *.
    subst o.
    destruct (dispatch_plain (callsOf a) [] m1 Hplain) as (acc & m2 & Hd & Hstop2);
      [congruence|].
    rewrite Hd. cbn zeta.
    apply dispatch_through in Hd as (_ & ran & _ & _ & _ & _ & Hj2 & Hu2).
    match goal with |- context [roundTrip call ?x m2] =>
      destruct (roundTrip_insistent x m2)
        as (next & m3 & -> & Hnext & Hplain3 & Hstop3 & Htotal3 & Hcalls3 & u & others
            & Hcreate) end.
    match goal with |- context [loop call fuel ?x next _ m3] =>
      destruct (IH x next (it + 1)%Z m3 Hnext Hplain3) as (r & last & -> & Hr) end;
      [congruence | lia | lia | rewrite Hu2, Hq1 in Htotal3; lia | eauto 6 |].
    exists r, last. split; [reflexivity|].
    destruct Hr as (Hwho & Hstill & Hs & He & Hd & Hcs & Hcount).
    repeat split; auto.
    rewrite Hcount, Hcalls3, Hj2, modelCalls_app, modelCalls_ToolRun, Hj1. lia.
Qed.


End Insistent.

End Facts.

(** Three calls in the first batch, Stop pressed while the first one runs. *)
Lemma stop_during_batch_witness :
  let host := Scenarios.hostOf [] 3 2 (Some 2%nat) in
  let call := Scenarios.callWith 50 150000 in
  let m := mkMachine initialState 1%nat
             (mkCommandRecord "get the title" executing "0" [] [] [] zeroUsage None None)
             [ModelCall 0] in
  let a := mkAssistantMessage None
             (Some [Scenarios.goBack "c1"; Scenarios.goBack "c2"; Scenarios.goBack "c3"]) in
  exists r,
    loop call 1 [] a 0 m = Some r
    /\ status (fst r) = stopped
    /\ length (cr_toolResults (commandRecord (snd r))) = 1%nat
    /\ journal (snd r) = [ModelCall 0; ToolRun (Scenarios.goBack "c1")].
Proof.
  intros host call m a.
  destruct (dispatch call [Scenarios.goBack "c1"] [] (snd (recordToolCalls (callsOf a) m)))
    as [r0|acc' m'] eqn:Hd; [vm_compute in Hd; discriminate Hd|].
  assert (Hstop : shouldStopCurrent (queue m') = true).
  { vm_compute in Hd. injection Hd as _ <-. reflexivity. }
  destruct (proj2 (stop_during_batch (host := host) call 0%nat [] a 0%Z m
                     eq_refl eq_refl)
              [Scenarios.goBack "c1"] (Scenarios.goBack "c2") [Scenarios.goBack "c3"]
              acc' m')
    as (r & results & ran & Hrun & Hs & _ & _ & _ & _ & _ & _ & Hlen & Hsub & Hj & _);
    [reflexivity | cbn; lia | reflexivity | reflexivity | exact Hd | exact Hstop |].
  exists r. split; [exact Hrun|]. split; [exact Hs|]. split; [now apply Hlen|].
  vm_compute in Hrun. injection Hrun as <-. reflexivity.
Defined.

(** C3 fails as stated: the model asks for two calls in every response and
    Stop is pressed while the first call of the second batch runs. The poll
    before the second call of that batch finds the flag ([j] is one), and the
    attempt ends as stopped with three tool results in its record, the two
    of the first batch and one of the second, not with one. *)
Lemma stop_in_second_batch_counterexample :
  (fun r => (status (fst r),
             List.map tool_call_id (cr_toolResults (commandRecord (snd r))),
             journal (snd r)))
    <$> executeCommand
          (host := Scenarios.hostOf [Scenarios.goBack "c1"; Scenarios.goBack "c2"]
                     3 2 (Some 5%nat))
          (Scenarios.callWith 50 150000) initialState 0%nat
  = Some (stopped, ["c1"; "c2"; "c1"],
          [ModelCall 0; ToolRun (Scenarios.goBack "c1");
           ToolRun (Scenarios.goBack "c2"); ModelCall 5;
           ToolRun (Scenarios.goBack "c1")])
  /\ length ["c1"; "c2"; "c1"] <> 1%nat.
Proof. split; [vm_compute; reflexivity | discriminate]. Qed.


(** The same attempt as it runs: two requests, the second one at 500 tokens,
    and the failure before a third. *)
Example token_limit_run :
  (fun r => (status (fst r), error (fst r), data (fst r), journal (snd r)))
    <$> executeCommand (host := Scenarios.hostOf [Scenarios.goBack "c1"] 300 200 None)
          (Scenarios.callWith 50 1000) initialState 0%nat
  = Some (failed, Some "Token limit reached (1000). Current usage: 1000 tokens",
          Null,
          [ModelCall 0; ToolRun (Scenarios.goBack "c1"); ModelCall 500]).
Proof. vm_compute. reflexivity. Qed.




(** C2 at a failing input: the model asks for two calls in one response, the
    second with arguments that break off. The arguments are parsed when the
    calls are recorded, before the dispatch: the attempt ends as failed with
    the parse error as its message, no tool has run (the journal holds the
    one request to the model) and no tool result is recorded. *)
Theorem malformed_call_fails_attempt :
  (fun r => (status (fst r), error (fst r), journal (snd r),
             cr_toolResults (commandRecord (snd r))))
    <$> executeCommand
          (host := Scenarios.hostOf
                     [Scenarios.goBack "c1"; Scenarios.brokenClick "c2"] 3 2 None)
          (Scenarios.callWith 50 150000) initialState 0%nat
  = Some (failed, Some "Unexpected end of JSON input", [ModelCall 0], []).
Proof. reflexivity. Qed.

(** The queue and the executor together: a stop request left over from the
    last queue stops the first command of the next one at its first poll,
    before any tool has run. *)
Example stale_stop_stops_first_command :
  let host := Scenarios.hostOf [Scenarios.goBack "c1"] 3 2 None in
  let after := startCommandQueue "get the title"
                 (asExecuteFn Scenarios.argumentsFor)
                 (Scenarios.stopPendingState, 0%nat) in
  List.map (fun r => (status r, error r)) (commandResults (fst after))
    = [(stopped, Some stoppedMessage)]
  /\ shouldStopCurrent (fst after) = false
  /\ currentCommandIndex (fst after) = 1%nat.
Proof. repeat split. Qed.

End ExecutorFacts.

(** * Properties of the page serializer *)

Module SerializerFacts.
Import JS LLMinify.

(** Induction on a node with the hypothesis for every child. *)
Lemma Node_children_ind (P : Node -> Prop) :
  (forall r t attrs kids, Forall P kids -> P (Element r t attrs kids)) ->
  (forall d, P (Text d)) ->
  (forall d, P (Comment d)) ->
  forall n, P n.
Proof.
  intros Helement Htext Hcomment.
  fix IH 1. intros [r t attrs kids|d|d]; [|apply Htext | apply Hcomment].
  apply Helement. induction kids as [|k kids IHkids]; constructor.
  - apply IH.
  - exact IHkids.
Qed.

(** ** The mapping *)

Lemma getElementById_inside i cloned original wanted :
  (Z.of_nat i < wanted <= Z.of_nat (i + length cloned))%Z ->
  getElementById (mappingFrom i cloned original) wanted
  = original !! (Z.to_nat wanted - 1)%nat.
Proof.
  revert i. induction cloned as [|c rest IH]; intros i Hrange; simpl in *; [lia|].
  unfold getElementById in *. cbn [List.find id].
  destruct (Z.eqb_spec (Z.of_nat (S i)) wanted) as [Heq | Hne].
  - cbn [el]. f_equal. lia.
  - apply IH. lia.
Qed.

Lemma getElementById_outside i cloned original wanted :
  (wanted <= Z.of_nat i \/ Z.of_nat (i + length cloned) < wanted)%Z ->
  getElementById (mappingFrom i cloned original) wanted = None.
Proof.
  revert i. induction cloned as [|c rest IH]; intros i Hrange; simpl in *;
    [reflexivity|].
  unfold getElementById in *. cbn [List.find id].
  destruct (Z.eqb_spec (Z.of_nat (S i)) wanted) as [Heq | Hne]; [lia|].
  apply IH. lia.
Qed.

Lemma mappingFrom_length i cloned original :
  length (mappingFrom i cloned original) = length cloned.
Proof. revert i. induction cloned; intros i; simpl; auto. Qed.

Section WithStyle.

Variable getComputedStyle : Node -> string * string.

(** The mapping of a refresh has one entry for each element of the stripped
    clone that the selectors select. *)
Lemma refresh_mapping documentElement :
  mapping (refresh getComputedStyle documentElement)
  = buildMapping
      (querySelectorAll matchesInteractive (_stripAttributes (cloneNode documentElement)))
      (documentQuerySelectorAll matchesInteractive documentElement).
Proof. reflexivity. Qed.

(** X17: an id up to the size of the mapping resolves to the element found at
    that position in the live document; any other id resolves to nothing,
    in particular an id of an earlier, larger snapshot. *)
Lemma refresh_resolve documentElement wanted :
  let page := refresh getComputedStyle documentElement in
  ((1 <= wanted <= Z.of_nat (length (mapping page)))%Z ->
   getElementById (mapping page) wanted
   = documentQuerySelectorAll matchesInteractive documentElement
       !! (Z.to_nat wanted - 1)%nat)
  /\ ((wanted < 1 \/ Z.of_nat (length (mapping page)) < wanted)%Z ->
      getElementById (mapping page) wanted = None).
Proof.
  intros page. subst page. rewrite refresh_mapping. unfold buildMapping.
  rewrite mappingFrom_length. split; intros H.
  - apply getElementById_inside. simpl. lia.
  - apply getElementById_outside. simpl. lia.
Qed.

End WithStyle.

(** ** The elements with an [id] through the prune steps *)

Lemma labelled_app l1 l2 : labelled (l1 ++ l2) = labelled l1 ++ labelled l2.
Proof.
  unfold labelled. now rewrite flat_map_app, List.filter_app, List.map_app.
Qed.

Lemma labelled_cons n l : labelled (n :: l) = labelled [n] ++ labelled l.
Proof. apply (labelled_app [n] l). Qed.

Lemma labelled_element r t attrs kids :
  labelled [Element r t attrs kids]
  = (if hasAttribute "id" attrs then [(Some r, t, attrs)] else []) ++ labelled kids.
Proof.
  unfold labelled. cbn [flat_map elementsOf isElement]. rewrite app_nil_r.
  cbn [List.filter]. change (descendants (Element r t attrs kids))
    with (flat_map elementsOf kids).
  change (hasId (Element r t attrs kids)) with (hasAttribute "id" attrs).
  now destruct (hasAttribute "id" attrs).
Qed.

Lemma labelled_other n : isElement n = false -> labelled [n] = [].
Proof. destruct n; [discriminate | reflexivity | reflexivity]. Qed.

Lemma labelled_no_elements kids :
  existsb isElement kids = false -> labelled kids = [].
Proof.
  induction kids as [|k kids IH]; simpl; [reflexivity|].
  intros H. apply orb_false_iff in H as [Hk Hkids].
  rewrite labelled_cons, (labelled_other _ Hk), IH; auto.
Qed.

Lemma eachDescendant_isElement f n : isElement (eachDescendant f n) = isElement n.
Proof. now destruct n. Qed.

(** A pass whose body keeps the elements with an [id] of each subtree it
    looks at keeps those of the whole tree. *)
Lemma eachDescendant_labelled f :
  (forall n, isElement n = true -> labelled (f n) = labelled [n]) ->
  forall n, labelled [eachDescendant f n] = labelled [n].
Proof.
  intros Hf. induction n as [r t attrs kids IH|d|d] using Node_children_ind;
    [|reflexivity|reflexivity].
  cbn [eachDescendant]. rewrite !labelled_element. f_equal.
  induction IH as [|k kids Hk _ IHkids]; [reflexivity|].
  cbn [flat_map]. rewrite labelled_app, IHkids, (labelled_cons k). f_equal.
  destruct (isElement k) eqn:Hel; [|reflexivity].
  rewrite Hf by now rewrite eachDescendant_isElement. exact Hk.
Qed.

Lemma pruneIfEmpty_labelled n : labelled (pruneIfEmpty n) = labelled [n].
Proof.
  destruct n as [r t attrs kids|d|d]; [|reflexivity|reflexivity].
  unfold pruneIfEmpty. destruct (hasAttribute "id" attrs) eqn:Hid; [reflexivity|].
  destruct (inList t _controlTags); [reflexivity|].
  destruct (_ && _); [reflexivity|].
  destruct (existsb isRealText kids); [reflexivity|].
  destruct (existsb isElement kids) eqn:Hel; [reflexivity|].
  cbn [negb andb]. rewrite labelled_element, Hid, (labelled_no_elements _ Hel).
  reflexivity.
Qed.

Lemma collapseIfWrapper_labelled n : labelled (collapseIfWrapper n) = labelled [n].
Proof.
  destruct n as [r t attrs kids|d|d]; [|reflexivity|reflexivity].
  unfold collapseIfWrapper. destruct (hasAttribute "id" attrs) eqn:Hid; [reflexivity|].
  destruct (inList t _controlTags); [reflexivity|].
  destruct (List.filter isElement kids) as [|child [|]] eqn:Hkids; try reflexivity.
  destruct (_ && _) eqn:Hcond; [|reflexivity].
  apply andb_true_iff in Hcond as [_ Hlen]. apply Nat.eqb_eq in Hlen.
  destruct kids as [|k [|]]; try discriminate.
  cbn [List.filter] in Hkids. destruct (isElement k); [|discriminate].
  injection Hkids as ->. now rewrite labelled_element, Hid.
Qed.

(** X16, the has-id guard: the elements with an [id] attribute below the root are
    the same, in the same order, before and after the empty-wrapper prune and
    the single-child collapse. *)
Lemma prune_steps_keep_labelled clone :
  labelled [_pruneEmptyNodes clone] = labelled [clone]
  /\ labelled [_collapseSingleChildWrappers clone] = labelled [clone]
  /\ labelled [_collapseSingleChildWrappers (_pruneEmptyNodes clone)]
     = labelled [clone].
Proof.
  assert (Hp : forall n, labelled [_pruneEmptyNodes n] = labelled [n])
    by (apply eachDescendant_labelled; intros; apply pruneIfEmpty_labelled).
  assert (Hc : forall n, labelled [_collapseSingleChildWrappers n] = labelled [n])
    by (apply eachDescendant_labelled; intros; apply collapseIfWrapper_labelled).
  repeat split; auto. now rewrite Hc.
Qed.

(** ** The [id] attributes below the root *)

Lemma idValues_app l1 l2 : idValues (l1 ++ l2) = idValues l1 ++ idValues l2.
Proof. unfold idValues. now rewrite flat_map_app, omap_app. Qed.

Lemma idValues_cons n l : idValues (n :: l) = idValues [n] ++ idValues l.
Proof. apply (idValues_app [n] l). Qed.

Lemma idValues_element r t attrs kids :
  idValues [Element r t attrs kids]
  = match getAttribute "id" attrs with Some v => [v] | None => [] end
    ++ idValues kids.
Proof.
  unfold idValues. cbn [flat_map elementsOf isElement]. rewrite app_nil_r.
  change (descendants (Element r t attrs kids)) with (flat_map elementsOf kids).
  cbn [omap list_omap attributesOf]. now destruct (getAttribute "id" attrs).
Qed.

Lemma idValues_other n : isElement n = false -> idValues [n] = [].
Proof. destruct n; [discriminate | reflexivity | reflexivity]. Qed.

Lemma interactiveCount_app l1 l2 :
  interactiveCount (l1 ++ l2) = (interactiveCount l1 + interactiveCount l2)%nat.
Proof.
  unfold interactiveCount. now rewrite flat_map_app, List.filter_app, length_app.
Qed.

Lemma interactiveCount_cons n l :
  interactiveCount (n :: l) = (interactiveCount [n] + interactiveCount l)%nat.
Proof. apply (interactiveCount_app [n] l). Qed.

Lemma interactiveCount_element r t attrs kids :
  interactiveCount [Element r t attrs kids]
  = ((if matchesInteractive (Element r t attrs kids) then 1 else 0)
     + interactiveCount kids)%nat.
Proof.
  unfold interactiveCount. cbn [flat_map elementsOf isElement]. rewrite app_nil_r.
  change (descendants (Element r t attrs kids)) with (flat_map elementsOf kids).
  cbn [List.filter]. now destruct (matchesInteractive _).
Qed.

Lemma interactiveCount_other n : isElement n = false -> interactiveCount [n] = 0%nat.
Proof. destruct n; [discriminate | reflexivity | reflexivity]. Qed.

(** *** Step 3 leaves no [id] below the root *)

Lemma getAttribute_filter name p attrs v :
  getAttribute name (List.filter p attrs) = Some v ->
  exists v', getAttribute name attrs = Some v'.
Proof.
  induction attrs as [|[k x] attrs IH]; cbn [List.filter getAttribute];
    [discriminate|].
  destruct (String.eqb k name) eqn:Hk; [eauto|].
  destruct (p (k, x)); cbn [getAttribute]; [rewrite Hk|]; exact IH.
Qed.

Lemma stripped_no_id t attrs :
  getAttribute "id" (List.filter (keepAttribute t) attrs) = None.
Proof.
  induction attrs as [|[k x] attrs IH]; cbn [List.filter]; [reflexivity|].
  destruct (keepAttribute t (k, x)) eqn:Hkeep; [|exact IH].
  cbn [getAttribute]. destruct (String.eqb_spec k "id") as [->|_]; [|exact IH].
  unfold keepAttribute in Hkeep. cbn in Hkeep. discriminate.
Qed.

Lemma stripAttributes_idValues n : idValues (childNodesOf (_stripAttributes n)) = [].
Proof.
  unfold _stripAttributes.
  induction n as [r t attrs kids IH|d|d] using Node_children_ind;
    [|reflexivity|reflexivity].
  cbn [eachDescendant childNodesOf].
  induction IH as [|k kids Hk _ IHkids]; [reflexivity|].
  cbn [flat_map]. rewrite idValues_app, IHkids, app_nil_r.
  destruct k as [r' t' attrs' kids'|d|d]; [|reflexivity|reflexivity].
  cbn [isElement eachDescendant stripElement childNodesOf] in *.
  now rewrite idValues_element, stripped_no_id, Hk.
Qed.

(** *** Step 4 numbers the selected elements from 1 on *)

Lemma getAttribute_setAttribute name v attrs :
  getAttribute name (setAttribute name v attrs) = Some v.
Proof.
  induction attrs as [|[k x] attrs IH]; cbn [setAttribute getAttribute].
  - now rewrite String.eqb_refl.
  - destruct (String.eqb k name) eqn:Hk; cbn [getAttribute]; rewrite Hk; auto.
Qed.

Lemma numberNode_element c r t attrs kids :
  numberNode c (Element r t attrs kids) =
  let hit := matchesInteractive (Element r t attrs kids) in
  let (c', kids') := numberList (if hit then S c else c) kids in
  (c', Element r t (if hit then setAttribute "id" (idText c) attrs else attrs) kids').
Proof. reflexivity. Qed.

Lemma numberList_numbered kids :
  Forall numbered kids ->
  forall c,
    idValues kids = [] ->
    fst (numberList c kids) = (c + interactiveCount kids)%nat
    /\ idValues (snd (numberList c kids))
       = List.map idText (seq c (interactiveCount kids)).
Proof.
  induction 1 as [|k rest Hk _ IH]; intros c Hids; cbn [numberList].
  - split; [cbn; lia | reflexivity].
  - rewrite idValues_cons in Hids. apply app_eq_nil in Hids as [Hk0 Hrest0].
    destruct (Hk c Hk0) as [Hc1 Hv1].
    destruct (numberNode c k) as [c1 k']. cbn [fst snd] in Hc1, Hv1.
    destruct (IH c1 Hrest0) as [Hc2 Hv2].
    destruct (numberList c1 rest) as [c2 rest']. cbn [fst snd] in *.
    rewrite (interactiveCount_cons k rest), (idValues_cons k' rest'), Hv1, Hv2.
    split; [lia|]. subst c1. now rewrite seq_app, List.map_app.
Qed.

Lemma numberNode_numbered n : numbered n.
Proof.
  induction n as [r t attrs kids IH|d|d] using Node_children_ind;
    [|intros c _; split; [cbn; lia | reflexivity]
     |intros c _; split; [cbn; lia | reflexivity]].
  intros c Hids. rewrite idValues_element in Hids.
  apply app_eq_nil in Hids as [Hown Hkids].
  rewrite numberNode_element, interactiveCount_element. cbn zeta.
  destruct (matchesInteractive (Element r t attrs kids)).
  - destruct (numberList_numbered kids IH (S c) Hkids) as [Hc Hv].
    destruct (numberList (S c) kids) as [c' kids']. cbn [fst snd] in *.
    rewrite idValues_element, getAttribute_setAttribute, Hv.
    split; [lia | reflexivity].
  - destruct (numberList_numbered kids IH c Hkids) as [Hc Hv].
    destruct (numberList c kids) as [c' kids']. cbn [fst snd] in *.
    rewrite idValues_element, Hv.
    destruct (getAttribute "id" attrs); [discriminate|].
    split; [lia | reflexivity].
Qed.

Lemma numberDescendants_idValues clone :
  idValues (childNodesOf clone) = [] ->
  idValues (childNodesOf (numberDescendants clone))
  = List.map idText (seq 1 (interactiveCount (childNodesOf clone))).
Proof.
  destruct clone as [r t attrs kids|d|d]; [|reflexivity|reflexivity].
  cbn [childNodesOf numberDescendants]. intros Hids.
  apply numberList_numbered; [|exact Hids].
  apply Forall_forall. intros k _. apply numberNode_numbered.
Qed.

Lemma querySelectorAll_length clone :
  length (querySelectorAll matchesInteractive clone)
  = interactiveCount (childNodesOf clone).
Proof. destruct clone; reflexivity. Qed.

(** *** Steps 5 to 9 add no [id] *)

Lemma idValues_labelled l :
  idValues l = omap (fun key => getAttribute "id" (snd key)) (labelled l).
Proof.
  unfold idValues, labelled. induction (flat_map elementsOf l) as [|n ns IH];
    [reflexivity|].
  cbn [omap list_omap List.filter]. unfold hasId at 1, hasAttribute.
  destruct (getAttribute "id" (attributesOf n)) eqn:Hn; cbn [List.map omap list_omap snd];
    [rewrite Hn|]; now rewrite IH.
Qed.

Section Pass.

Variable f : Node -> list Node.
Hypothesis f_incl :
  forall n, isElement n = true -> incl (idValues (f n)) (idValues [n]).

Lemma pass_children_incl kids :
  Forall (fun k => incl (idValues [eachDescendant f k]) (idValues [k])) kids ->
  incl (idValues
          (flat_map (fun k => if isElement k then f (eachDescendant f k) else [k])
             kids))
       (idValues kids).
Proof.
  induction 1 as [|k kids Hk _ IH]; [apply incl_refl|].
  cbn [flat_map]. rewrite idValues_app, (idValues_cons k).
  apply incl_app_app; [|exact IH].
  destruct (isElement k) eqn:Hel; [|apply incl_refl].
  eapply incl_tran; [apply f_incl; now rewrite eachDescendant_isElement | exact Hk].
Qed.

Lemma pass_node_incl n : incl (idValues [eachDescendant f n]) (idValues [n]).
Proof.
  induction n as [r t attrs kids IH|d|d] using Node_children_ind;
    [|apply incl_refl|apply incl_refl].
  cbn [eachDescendant]. rewrite !idValues_element.
  apply incl_app_app; [apply incl_refl | now apply pass_children_incl].
Qed.

Lemma pass_incl n :
  incl (idValues (childNodesOf (eachDescendant f n))) (idValues (childNodesOf n)).
Proof.
  destruct n as [r t attrs kids|d|d]; [|apply incl_refl|apply incl_refl].
  cbn [eachDescendant childNodesOf]. apply pass_children_incl.
  apply Forall_forall. intros k _. apply pass_node_incl.
Qed.

End Pass.

Lemma blankElement_incl n : incl (idValues (blankElement n)) (idValues [n]).
Proof.
  destruct n as [r t attrs kids|d|d]; [|apply incl_refl|apply incl_refl].
  unfold blankElement. destruct (inList t _); [|apply incl_refl].
  rewrite !idValues_element. apply incl_app_app; [apply incl_refl|].
  intros x Hx. destruct Hx.
Qed.

Lemma removeIfHidden_incl style n :
  incl (idValues (removeIfHidden style n)) (idValues [n]).
Proof.
  unfold removeIfHidden. destruct (isHidden style n); [|apply incl_refl].
  intros x Hx. destruct Hx.
Qed.

Lemma pruneIfEmpty_incl n : incl (idValues (pruneIfEmpty n)) (idValues [n]).
Proof. rewrite !idValues_labelled, pruneIfEmpty_labelled. apply incl_refl. Qed.

Lemma collapseIfWrapper_incl n : incl (idValues (collapseIfWrapper n)) (idValues [n]).
Proof. rewrite !idValues_labelled, collapseIfWrapper_labelled. apply incl_refl. Qed.

Lemma removeComments_idValues n : idValues [_removeComments n] = idValues [n].
Proof.
  induction n as [r t attrs kids IH|d|d] using Node_children_ind;
    [|reflexivity|reflexivity].
  cbn [_removeComments]. rewrite !idValues_element. f_equal.
  induction IH as [|k kids Hk _ IHkids]; [reflexivity|].
  cbn [flat_map]. rewrite idValues_app, IHkids, (idValues_cons k). f_equal.
  destruct k; [exact Hk | reflexivity | reflexivity].
Qed.

Lemma removeComments_children n :
  idValues (childNodesOf (_removeComments n)) = idValues (childNodesOf n).
Proof.
  pose proof (removeComments_idValues n) as H.
  destruct n as [r t attrs kids|d|d]; [|reflexivity|reflexivity].
  cbn [_removeComments] in *. rewrite !idValues_element in H.
  now apply app_inv_head in H.
Qed.

(** *** The mapping has an element for every number given out *)

Lemma hasAttribute_filter name p attrs :
  hasAttribute name (List.filter p attrs) = true -> hasAttribute name attrs = true.
Proof.
  unfold hasAttribute. destruct (getAttribute name (List.filter p attrs)) eqn:H;
    [|discriminate].
  apply getAttribute_filter in H as [v' ->]. reflexivity.
Qed.

Lemma matchesInteractive_stripped r r' t p attrs kids kids' :
  matchesInteractive (Element r' t (List.filter p attrs) kids') = true ->
  matchesInteractive (Element r t attrs kids) = true.
Proof.
  cbn [matchesInteractive]. intros H. apply orb_true_iff in H as [H | H];
    apply orb_true_iff; [now left | right].
  apply existsb_exists in H as [a [Hin Ha]]. apply existsb_exists.
  exists a. split; [exact Hin | now apply hasAttribute_filter in Ha].
Qed.

Lemma stripped_clone_count n :
  (interactiveCount (childNodesOf (_stripAttributes (cloneNode n)))
   <= interactiveCount (childNodesOf n))%nat.
Proof.
  unfold _stripAttributes.
  induction n as [r t attrs kids IH|d|d] using Node_children_ind;
    [|cbn; lia|cbn; lia].
  cbn [cloneNode eachDescendant childNodesOf].
  induction IH as [|k kids Hk _ IHkids]; [cbn; lia|].
  cbn [List.map flat_map]. rewrite interactiveCount_app, (interactiveCount_cons k).
  apply Nat.add_le_mono; [|exact IHkids].
  destruct k as [r' t' attrs' kids'|d|d]; [|cbn; lia|cbn; lia].
  cbn [cloneNode isElement eachDescendant stripElement childNodesOf] in *.
  rewrite !interactiveCount_element. apply Nat.add_le_mono; [|exact Hk].
  destruct (matchesInteractive (Element (copyRef r') t' _ _)) eqn:Hm; [|lia].
  now rewrite (matchesInteractive_stripped r' _ _ _ _ kids' _ Hm).
Qed.

Lemma resolves_mappingFrom i cloned original k :
  (i < k <= i + length cloned)%nat ->
  (k <= length original)%nat ->
  resolves (mappingFrom i cloned original) (idText k) = true.
Proof.
  revert i. induction cloned as [|c rest IH]; intros i Hk Hlen; cbn [length] in Hk;
    [lia|].
  unfold resolves in *. cbn [mappingFrom existsb id el].
  destruct (Nat.eq_dec k (S i)) as [->|Hne].
  - rewrite String.eqb_refl. destruct (lookup_lt_is_Some_2 original i) as [x ->];
      [lia | reflexivity].
  - rewrite IH by lia. apply orb_true_r.
Qed.

(** X15: every [id] attribute below the root of the tree that is serialized
    is the number of an entry of the mapping that holds an element. *)
Lemma descendant_ids_resolve style documentElement :
  let page := refresh style documentElement in
  Forall (fun v => resolves (mapping page) v = true)
    (idValues (childNodesOf (tree page))).
Proof.
  intros page. subst page. unfold refresh, _assignElementIds.
  cbn [mapping tree].
  set (original := documentQuerySelectorAll matchesInteractive documentElement).
  set (clone := _stripAttributes (cloneNode documentElement)).
  apply Forall_forall. intros v Hv. apply list_elem_of_In in Hv.
  apply (pass_incl _ (fun n _ => collapseIfWrapper_incl n)) in Hv.
  apply (pass_incl _ (fun n _ => pruneIfEmpty_incl n)) in Hv.
  apply (pass_incl _ (fun n _ => removeIfHidden_incl style n)) in Hv.
  rewrite removeComments_children in Hv.
  apply (pass_incl _ (fun n _ => blankElement_incl n)) in Hv.
  rewrite numberDescendants_idValues in Hv by apply stripAttributes_idValues.
  apply in_map_iff in Hv as [k [<- Hk]]. apply in_seq in Hk.
  unfold buildMapping. apply resolves_mappingFrom.
  - rewrite querySelectorAll_length. lia.
  - pose proof (stripped_clone_count documentElement) as Hcount.
    fold clone in Hcount.
    assert (interactiveCount (childNodesOf documentElement) <= length original)%nat.
    { subst original. unfold documentQuerySelectorAll, interactiveCount.
      destruct documentElement as [r t attrs kids|d|d]; cbn [childNodesOf];
        [|cbn; lia|cbn; lia].
      change (descendants (Element r t attrs kids)) with (flat_map elementsOf kids).
      cbn [List.filter]. destruct (matchesInteractive _); cbn [length]; lia. }
    lia.
Qed.

(** ** Two pages on which the ids go wrong *)

(** C8 at a failing input: on [<html><body><div onclick="go()">Go</div>
    </body></html>] the refresh finds one interactive element, the [div];
    the clone is stripped of its attributes before it is queried with the
    same selectors, so no element of the clone is selected, the mapping is
    empty and id 1 resolves to nothing. *)
Theorem attribute_only_element_unresolved
    (getComputedStyle : Node -> string * string) :
  let page := refresh getComputedStyle Scenarios.clickableDivPage in
  documentQuerySelectorAll matchesInteractive Scenarios.clickableDivPage
    = [Element (Live 2) "DIV" [("onclick", "go()")] [Text "Go"]]
  /\ mapping page = []
  /\ getElementById (mapping page) 1 = None.
Proof. repeat split. Qed.

(** The second half of C8 on an example: id 2 of a page with two controls
    resolves to nothing after the refresh of a page with one. *)
Example stale_id_unresolved :
  getElementById
    (mapping (refresh Scenarios.detachedStyle Scenarios.twoControlsPage)) 2
    = Some (Element (Live 3) "BUTTON" [] [Text "Go"])
  /\ getElementById
       (mapping (refresh Scenarios.detachedStyle Scenarios.oneControlPage)) 2
     = None.
Proof. split; reflexivity. Qed.

(** C9 at a failing input: on [<html id="app"><body><a href="/x">Read</a>
    </body></html>] the attributes of the root of the clone are not
    stripped, the root is not a descendant of itself; its [id] attribute is
    in the tree that is serialized, next to the assigned id of the link, and
    it is the number of no entry of the mapping. *)
Theorem root_id_unresolved :
  let page := refresh Scenarios.detachedStyle Scenarios.rootIdPage in
  attributesOf (tree page) = [("id", "app")]
  /\ idAttributes (tree page) = ["app"; "1"]
  /\ resolves (mapping page) "app" = false
  /\ resolves (mapping page) "1" = true.
Proof. repeat split. Qed.

End SerializerFacts.

(** * Properties of whole attempts *)

Module RunFacts.
Import JS CommandQueue Tools CommandExecutor ExecutorFacts Runs.

Section Invariant.
Context {host : Host}.
Variable call : Args.t.
Variable P : State -> Prop.
Hypothesis P_kept : keptByExecutor P.

Lemma ended_stop m : running call m -> P (queue m) -> ended call P (stopCommand call m).
Proof.
  intros (Hc & He & Ht) HP. destruct P_kept as (_ & _ & Hreset).
  exists stopped, (Some stoppedMessage), Null,
    (terminate stopped (Some stoppedMessage) (set_queue (resetStopFlag (queue m)) m)).
  cbn. repeat split; auto; try discriminate.
Qed.

Lemma ended_fail message m :
  running call m -> P (queue m) -> ended call P (failCommand call message m).
Proof.
  intros (Hc & He & Ht) HP.
  exists failed, (Some message), Null, (terminate failed (Some message) m).
  cbn. repeat split; auto; try discriminate.
Qed.

Lemma ended_finish a m :
  running call m -> P (queue m) -> ended call P (finishCommand call a m).
Proof.
  intros (Hc & He & Ht) HP. unfold finishCommand.
  eexists completed, None, _, _. split; [reflexivity|].
  destruct (truthyStr _); cbn; repeat split; auto; try discriminate; congruence.
Qed.

Lemma ended_complete t d m :
  running call m -> P (queue m) -> ended call P (completeCommand call t d m).
Proof.
  intros (Hc & He & Ht) HP. unfold completeCommand.
  eexists completed, None, _, _. split; [reflexivity|].
  cbn; repeat split; auto; try discriminate; congruence.
Qed.

Lemma running_resume ev w m : running call m -> running call (resume ev w m).
Proof.
  intros (Hc & He & Ht). unfold running, resume. cbn [commandRecord queue].
  rewrite operator_currentTokenUsage. auto.
Qed.

Lemma P_resume ev w m : P (queue m) -> P (queue (resume ev w m)).
Proof. destruct P_kept as (Hop & _). intros HP. apply Hop, HP. Qed.

Lemma runCall_running toolCall m :
  running call m -> P (queue m) ->
  let m' := match runCall toolCall m with
            | Completion _ _ m' => m'
            | Answer _ m' => m'
            end in
  running call m' /\ P (queue m').
Proof.
  intros Hrun HP. unfold runCall.
  destruct (JSON_parse (function_arguments toolCall)) as [args|message]; [|auto].
  unfold runTool. destruct (String.eqb (function_name toolCall) "Done").
  - destruct (snd (Done_implementation JSON_parse JSON_stringify args))
      as [result|message]; [destruct (completionOf result)|]; cbn; auto.
  - destruct (existsb _ _); [|auto].
    destruct (pageTool _ _ _) as [result w].
    destruct (completionOf result); cbn zeta iota;
      (split; [now apply running_resume | now apply P_resume]).
Qed.

Lemma running_pushToolResult t m : running call m -> running call (pushToolResult t m).
Proof. intros H. exact H. Qed.

Lemma dispatch_ended calls acc m :
  running call m -> P (queue m) ->
  match dispatch call calls acc m with
  | Returned rm => ended call P rm
  | Through _ m' => running call m' /\ P (queue m')
  end.
Proof.
  revert acc m. induction calls as [|c rest IH]; intros acc m Hrun HP;
    cbn [dispatch]; [auto|].
  destruct (shouldStopCurrent (queue m)); [now apply ended_stop|].
  pose proof (runCall_running c m Hrun HP) as Hcall.
  destruct (runCall c m) as [result d m1|content m1]; cbn zeta iota in Hcall;
    destruct Hcall as [Hrun1 HP1].
  - now apply ended_complete.
  - apply IH; assumption.
Qed.

Lemma recordToolCalls_running calls m :
  running call m -> P (queue m) ->
  running call (snd (recordToolCalls calls m)) /\ P (queue (snd (recordToolCalls calls m))).
Proof.
  revert m. induction calls as [|c rest IH]; intros m Hrun HP; cbn [recordToolCalls];
    [auto|].
  destruct (JSON_parse (function_arguments c)); [|auto].
  apply IH; assumption.
Qed.

Lemma roundTrip_running api m :
  running call m -> P (queue m) ->
  running call (snd (roundTrip call api m)) /\ P (queue (snd (roundTrip call api m))).
Proof.
  intros Hrun HP. unfold roundTrip.
  destruct (create _ _ _) as [[response|message] w]; cbn [snd];
    [|split; [now apply running_resume | now apply P_resume]].
  pose proof (running_resume (ModelCall (total (currentTokenUsage (queue m)))) w m Hrun)
    as (Hc & He & Ht).
  pose proof (P_resume (ModelCall (total (currentTokenUsage (queue m)))) w m HP) as HP1.
  destruct P_kept as (_ & Husage & _).
  specialize (Husage (usage response)
                (commandRecord (resume (ModelCall (total (currentTokenUsage (queue m)))) w m))
                _ HP1).
  destruct (usage response) as [u|]; cbn [updateTokenUsage] in *;
    destruct (choices response); cbn [snd queue commandRecord];
    (split; [|exact Husage]); unfold running; cbn in *; repeat split; auto;
    congruence.
Qed.

Lemma loop_ended fuel api a it m rm :
  running call m -> P (queue m) ->
  loop call fuel api a it m = Some rm -> ended call P rm.
Proof.
  revert api a it m. induction fuel as [|fuel IH]; intros api a it m Hrun HP.
  - cbn [loop]. destruct (_ && _); [discriminate|].
    intros H. injection H as <-. now apply ended_finish.
  - rewrite loop_S. destruct (_ && _);
      [|intros H; injection H as <-; now apply ended_finish].
    destruct (shouldStopCurrent (queue m));
      [intros H; injection H as <-; now apply ended_stop|].
    destruct (_ <=? _)%Z; [intros H; injection H as <-; now apply ended_fail|].
    pose proof (recordToolCalls_running (callsOf a) m Hrun HP) as [Hrun1 HP1].
    destruct (recordToolCalls (callsOf a) m) as [[message|] m1]; cbn [snd] in *;
      [intros H; injection H as <-; now apply ended_fail|].
    pose proof (dispatch_ended (callsOf a) [] m1 Hrun1 HP1) as Hd.
    destruct (dispatch call (callsOf a) [] m1) as [r1|results m2];
      [intros H; injection H as <-; exact Hd|].
    destruct Hd as [Hrun2 HP2]. cbn zeta.
    match goal with |- context [roundTrip call ?x m2] =>
      pose proof (roundTrip_running x m2 Hrun2 HP2) as [Hrun3 HP3];
      destruct (roundTrip call x m2) as [[next|message] m3] end; cbn [snd] in *.
    + apply IH; assumption.
    + intros H. injection H as <-. now apply ended_fail.
Qed.

Lemma executeCommand_ended q w rm :
  P (resetCurrentTokenUsage q) ->
  executeCommand call q w = Some rm -> ended call P rm.
Proof.
  intros HP. unfold executeCommand.
  set (m0 := mkMachine (resetCurrentTokenUsage q) w _ []).
  assert (Hrun0 : running call m0) by (repeat split; reflexivity).
  destruct (negb _); [intros H; injection H as <-; now apply ended_fail|].
  match goal with |- context [roundTrip call ?x m0] =>
    pose proof (roundTrip_running x m0 Hrun0 HP) as [Hrun1 HP1];
    destruct (roundTrip call x m0) as [[a|message] m1] end; cbn [snd] in *.
  - now apply loop_ended.
  - intros H. injection H as <-. now apply ended_fail.
Qed.

End Invariant.

(** ** What the operations leave alone *)

Lemma usage_ext (a b : TokenUsage) :
  input a = input b -> output a = output b -> total a = total b -> a = b.
Proof. destruct a, b; cbn; congruence. Qed.

Lemma sameQueue_kept {host : Host} q : keptByExecutor (sameQueue q).
Proof.
  split; [|split].
  - intros w st. induction (operator w) as [|a actions IH] in st |- *; cbn [fold_left];
      [auto|].
    intros H. apply IH. destruct a; cbn; [exact H | exact H |].
    unfold resumeExecution. cbn. destruct (_ && _); exact H.
  - intros [u|] r st H; [|exact H]. exact H.
  - intros st H. exact H.
Qed.

Lemma usagePlus_kept {host : Host} base :
  keptByExecutor (fun st => usagePlus (totalTokenUsage st) base (currentTokenUsage st)).
Proof.
  split; [|split].
  - intros w st. induction (operator w) as [|a actions IH] in st |- *; cbn [fold_left];
      [auto|].
    intros H. apply IH. destruct a; cbn; [exact H | exact H |].
    unfold resumeExecution. cbn. destruct (_ && _); exact H.
  - intros [u|] r st (Hi & Ho & Ht); [|repeat split; assumption].
    unfold usagePlus. cbn. rewrite Hi, Ho, Ht. repeat split; lia.
  - intros st H. exact H.
Qed.

Lemma keptByExecutor_and {host : Host} (P Q : State -> Prop) :
  keptByExecutor P -> keptByExecutor Q -> keptByExecutor (fun st => P st /\ Q st).
Proof.
  intros (P1 & P2 & P3) (Q1 & Q2 & Q3). split; [|split].
  - intros w st [HP HQ]. split; [now apply P1 | now apply Q1].
  - intros u r st [HP HQ]. split; [now apply P2 | now apply Q2].
  - intros st [HP HQ]. split; [now apply P3 | now apply Q3].
Qed.

Lemma findIndex_None {A} (p : A -> bool) l :
  Forall (fun x => p x = false) l -> findIndex p l = None.
Proof.
  induction 1 as [|x l Hx _ IH]; cbn; [reflexivity|]. now rewrite Hx, IH.
Qed.

Lemma findIndex_first {A} (p : A -> bool) l i x :
  l !! i = Some x -> p x = true ->
  (forall j y, (j < i)%nat -> l !! j = Some y -> p y = false) ->
  findIndex p l = Some i.
Proof.
  revert i. induction l as [|a l IH]; intros [|i] Hx Hp Hmin; cbn in *;
    try discriminate.
  - injection Hx as ->. now rewrite Hp.
  - rewrite (Hmin 0%nat a) by (lia || reflexivity).
    rewrite (IH i Hx Hp); [reflexivity|].
    intros j y Hj Hy. apply (Hmin (S j)); [lia | exact Hy].
Qed.

(** Without a Resume the buttons register no timer. *)
Lemma calm_kept {host : Host} q :
  (forall w, ~ In PressResume (operator w)) ->
  keptByExecutor (fun st => sameQueue q st /\ timers st = timers q).
Proof.
  intros Hcalm. split; [|split].
  - intros w st. specialize (Hcalm w).
    induction (operator w) as [|a actions IH] in st, Hcalm |- *;
      cbn [fold_left]; [auto|].
    intros H. apply IH; [intros Hin; apply Hcalm; now right|].
    destruct a; [exact H | exact H |]. exfalso. apply Hcalm. now left.
  - intros [u|] r st H; exact H.
  - intros st H. exact H.
Qed.

Lemma addCommandResult_counters result st :
  currentTokenUsage (addCommandResult result st) = currentTokenUsage st
  /\ totalTokenUsage (addCommandResult result st) = totalTokenUsage st
  /\ currentCommands (addCommandResult result st) = currentCommands st.
Proof.
  unfold addCommandResult. destruct (findIndex _ _) as [i|].
  - destruct (commandResults st !! i); repeat split; reflexivity.
  - cbn. destruct (_ && _); repeat split; reflexivity.
Qed.

Lemma usageSum_app l r :
  usageSum (l ++ [r]) = addUsage (usageSum l) (tokenUsage r).
Proof.
  unfold usageSum. induction l as [|x l IH]; cbn.
  - apply usage_ext; cbn; lia.
  - rewrite IH. apply usage_ext; cbn; lia.
Qed.

Lemma usageSum_insert l i x y u :
  l !! i = Some y ->
  tokenUsage x = addUsage (tokenUsage y) u ->
  usageSum (<[i := x]> l) = addUsage (usageSum l) u.
Proof.
  unfold usageSum. revert i.
  induction l as [|z l IH]; intros [|i] Hy Hx; cbn in *; try discriminate.
  - injection Hy as ->. rewrite Hx. apply usage_ext; cbn; lia.
  - change (<[S i := x]> (z :: l)) with (z :: <[i := x]> l).
    cbn [fold_right].
    etransitivity; [apply f_equal; exact (IH i Hy Hx)|].
    apply usage_ext; cbn; lia.
Qed.

Lemma usageSum_addCommandResult result st :
  usageSum (commandResults (addCommandResult result st))
  = addUsage (usageSum (commandResults st)) (tokenUsage result).
Proof.
  unfold addCommandResult. destruct (findIndex _ _) as [i|] eqn:Hfind.
  - apply QueueFacts.findIndex_Some in Hfind as (existing & Hi & _).
    rewrite Hi. cbn [commandResults set_commandResults].
    now apply (usageSum_insert _ _ _ existing).
  - cbn. destruct (_ && _); cbn; apply usageSum_app.
Qed.

Section Attempts.
Context {host : Host}.
Variable call : Args.t.

(** *** The result and the record *)


(** *** Token accounting *)



(** *** The number of requests *)

Lemma loop_modelCalls fuel api a it m rm :
  loop call fuel api a it m = Some rm ->
  (modelCalls (journal (snd rm))
   <= modelCalls (journal m) + Z.to_nat (maxIterations call - it))%nat.
Proof.
  revert api a it m.
  induction fuel as [|fuel IH]; intros api a it m.
  - cbn [loop]. destruct (hasToolCalls a && (it <? maxIterations call)%Z);
      [discriminate|].
    intros H. injection H as <-.
    destruct (finishCommand_facts call a m) as (_&_&_&_&_&->). lia.
  - rewrite loop_S.
    destruct (hasToolCalls a && (it <? maxIterations call)%Z) eqn:Hcond.
    2:{ intros H. injection H as <-.
        destruct (finishCommand_facts call a m) as (_&_&_&_&_&->). lia. }
    apply andb_prop in Hcond as [_ Hit]. apply Z.ltb_lt in Hit.
    destruct (shouldStopCurrent (queue m)).
    { intros H. injection H as <-.
      destruct (stopCommand_facts call m) as (_&_&_&_&_&->&_). lia. }
    destruct (_ <=? _)%Z.
    { intros H. injection H as <-.
      match goal with |- context [failCommand call ?x m] =>
        destruct (failCommand_facts call x m) as (_&_&_&_&_&->) end. lia. }
    destruct (recordToolCalls_facts (callsOf a) m) as (_ & _ & Hj1 & _).
    destruct (recordToolCalls (callsOf a) m) as [[message|] m1];
      cbn [snd] in Hj1.
    { intros H. injection H as <-.
      destruct (failCommand_facts call message m1) as (_&_&_&_&_&->).
      rewrite Hj1. lia. }
    destruct (dispatch_journal call (callsOf a) [] m1) as (ran & _ & Hj2).
    destruct (dispatch call (callsOf a) [] m1) as [r|results m2];
      cbn [machineOf] in Hj2.
    { intros H. injection H as <-.
      rewrite Hj2, modelCalls_app, modelCalls_ToolRun, Hj1. lia. }
    cbv zeta.
    match goal with |- context [roundTrip call ?x m2] =>
      destruct (roundTrip_facts call x m2) as (Hj3 & _);
      destruct (roundTrip call x m2) as [[next|message] m3] end;
      cbn [snd] in Hj3.
    + intros H. apply IH in H.
      rewrite Hj3, Hj2, !modelCalls_app, modelCalls_ToolRun, Hj1 in H.
      cbn in H. lia.
    + intros H. injection H as <-.
      destruct (failCommand_facts call message m3) as (_&_&_&_&_&->).
      rewrite Hj3, Hj2, !modelCalls_app, modelCalls_ToolRun, Hj1. cbn. lia.
Qed.


(** X5: an attempt makes no request to the model exactly when no API key is
    configured; it then fails with the message that asks for the key, with
    no token counted and no tool call recorded. *)
Theorem no_request_without_api_key q w :
  exists rm,
    executeCommand call q w = Some rm
    /\ (journal (snd rm) = [] <-> Args.apiKey call = EmptyString)
    /\ (journal (snd rm) = [] ->
        status (fst rm) = failed
        /\ error (fst rm) = Some apiKeyMessage
        /\ tokenUsage (fst rm) = zeroUsage
        /\ world (snd rm) = w
        /\ cr_toolCalls (commandRecord (snd rm)) = []).
Proof.
  destruct (executeCommand_total call q w) as [rm Hrun]. exists rm.
  split; [exact Hrun|]. revert Hrun.
  unfold executeCommand.
  destruct (Args.apiKey call) as [|c key] eqn:Hkey; cbn [truthyStr negb].
  - intros H. injection H as <-.
    match goal with |- context [failCommand call ?x ?m] =>
      destruct (failCommand_facts call x m) as (Hs & He & _ & _ & _ & Hj) end.
    rewrite Hj. split; [split; reflexivity|]. intros _.
    rewrite Hs, He. repeat split; reflexivity.
  - assert (Hne : forall (j : list Event) ev later, j ++ [ev] ++ later <> [])
      by (intros [|x j] ev later; discriminate).
    match goal with |- context [roundTrip call ?x ?m] =>
      destruct (roundTrip_facts call x m) as (Hj & _);
      destruct (roundTrip call x m) as [[next|message] m1] end; cbn [snd] in Hj.
    + intros H. apply loop_journal in H as (later & Hl & _).
      rewrite Hl, Hj. cbn [app].
      split; [split; discriminate | discriminate].
    + intros H. injection H as <-.
      destruct (failCommand_facts call message m1) as (_&_&_&_&_&Hjf).
      rewrite Hjf, Hj. cbn [app].
      split; [split; discriminate | discriminate].
Qed.

(** *** Completion by [Done] *)

(** X6: a [Done] call with data, reached while no stop is requested, ends
    the attempt as completed with the data (a string that parses as JSON is
    replaced by what it parses to), given that the signal text contains the
    marker and parses back; its tool result is recorded, and the calls after
    it in the batch are not run. *)
Theorem Done_completes_batch (c : ToolCall) (rest : list ToolCall)
    (acc : list ToolResultEvent) (m : Machine) (args : Value) :
  function_name c = "Done" ->
  JSON_parse (function_arguments c) = Parsed args ->
  isNullish args = false ->
  isNullish (dataOf args) = false ->
  let payload := parseIfString JSON_parse (dataOf args) in
  let text := sentinel JSON_stringify payload in
  includes COMMAND_COMPLETE text = true ->
  JSON_parse text = Parsed (Object [("type", Str COMMAND_COMPLETE); ("data", payload)]) ->
  shouldStopCurrent (queue m) = false ->
  exists outcome,
    dispatch call (c :: rest) acc m = Returned outcome
    /\ status (fst outcome) = completed
    /\ error (fst outcome) = None
    /\ data (fst outcome) = payload
    /\ journal (snd outcome) = journal m ++ [ToolRun c]
    /\ cr_status (commandRecord (snd outcome)) = completed
    /\ cr_toolResults (commandRecord (snd outcome))
       = cr_toolResults (commandRecord m) ++ [mkToolResult (tc_id c) "tool" text (clock (world m))].
Proof.
  intros Hname Hparse Hargs Hdata payload text Hmark Hback Hstop.
  cbn [dispatch]. rewrite Hstop. unfold runCall, runTool.
  rewrite Hparse, Hname. cbn [String.eqb Ascii.eqb Bool.eqb].
  unfold Done_implementation. rewrite Hargs, Hdata. cbn [snd].
  fold payload. fold text. unfold completionOf. rewrite Hmark, Hback.
  eexists. split; [reflexivity|].
  unfold completeCommand.
  match goal with |- context [report call ?s ?e ?d ?x] =>
    destruct (report_facts call s e d x) as (Hs & He & Hd & Hr & Hj & _) end.
  rewrite Hs, He, Hd, Hr, Hj. repeat split; reflexivity.
Qed.

(** *** Tool calls and tool results *)

Lemma recordToolCalls_calls calls m :
  let out := recordToolCalls calls m in
  cr_toolResults (commandRecord (snd out)) = cr_toolResults (commandRecord m)
  /\ exists recorded,
       cr_toolCalls (commandRecord (snd out))
       = cr_toolCalls (commandRecord m) ++ recorded
       /\ (fst out = None -> List.map tce_id recorded = List.map tc_id calls).
Proof.
  revert m. induction calls as [|c rest IH]; intros m; cbn [recordToolCalls].
  - split; [reflexivity|]. exists []. now rewrite app_nil_r.
  - destruct (JSON_parse (function_arguments c)) as [args|message].
    + match goal with |- context [recordToolCalls rest ?x] =>
        destruct (IH x) as (Hres & recorded & Hcalls & Hids) end.
      cbv zeta. split; [exact Hres|].
      eexists (_ :: recorded). rewrite Hcalls. cbn. rewrite <- app_assoc.
      split; [reflexivity|]. intros Hnone. now rewrite (Hids Hnone).
    + cbn. split; [reflexivity|]. exists []. rewrite app_nil_r.
      split; [reflexivity | discriminate].
Qed.

Lemma dispatch_results calls acc m :
  let m' := machineOf (dispatch call calls acc m) in
  cr_toolCalls (commandRecord m') = cr_toolCalls (commandRecord m)
  /\ exists results,
       cr_toolResults (commandRecord m') = cr_toolResults (commandRecord m) ++ results
       /\ List.map tool_call_id results `prefix_of` List.map tc_id calls
       /\ (forall acc' m2, dispatch call calls acc m = Through acc' m2 ->
           List.map tool_call_id results = List.map tc_id calls).
Proof.
  revert acc m. induction calls as [|c rest IH]; intros acc m; cbn [dispatch].
  - cbn. split; [reflexivity|]. exists []. rewrite app_nil_r.
    repeat split; auto.
  - destruct (shouldStopCurrent (queue m)).
    + cbn [machineOf]. unfold stopCommand.
      match goal with |- context [report call ?s ?e ?d ?x] =>
        destruct (report_facts call s e d x) as (_&_&_&Hr&_) end.
      cbv zeta. rewrite Hr. cbn. split; [reflexivity|]. exists [].
      rewrite app_nil_r. repeat split; [apply prefix_nil | discriminate].
    + pose proof (runCall_facts c m) as Hcall.
      destruct (runCall c m) as [result d m1|content m1];
        cbn zeta iota in Hcall; destruct Hcall as (Hrec & _ & _).
      * cbn [machineOf]. unfold completeCommand.
        match goal with |- context [report call ?s ?e ?d ?x] =>
          destruct (report_facts call s e d x) as (_&_&_&Hr&_) end.
        cbv zeta. rewrite Hr. cbn. rewrite Hrec. split; [reflexivity|].
        eexists [_]. split; [reflexivity|]. cbn.
        split; [|discriminate]. apply prefix_cons, prefix_nil.
      * match goal with |- context [dispatch call rest ?a ?x] =>
          destruct (IH a x) as (Hcalls & results & Hres & Hpre & Hall) end.
        cbv zeta. cbn in Hcalls, Hres. rewrite Hrec in Hcalls, Hres.
        split; [exact Hcalls|].
        exists (toolResult c content m1 :: results).
        rewrite Hres, <- app_assoc. split; [reflexivity|]. cbn.
        split; [now apply prefix_cons|].
        intros acc' m2 H. f_equal. eapply Hall, H.
Qed.

Lemma roundTrip_calls api m :
  cr_toolCalls (commandRecord (snd (roundTrip call api m)))
  = cr_toolCalls (commandRecord m)
  /\ cr_toolResults (commandRecord (snd (roundTrip call api m)))
     = cr_toolResults (commandRecord m).
Proof.
  unfold roundTrip. destruct (create _ _ _) as [[response|message] w];
    [|split; reflexivity].
  destruct (usage response) as [u|]; cbn [updateTokenUsage];
    destruct (choices response); split; reflexivity.
Qed.

Lemma report_record s err d m :
  commandRecord (snd (report call s err d m)) = commandRecord m.
Proof. reflexivity. Qed.

Lemma closed_calls m :
  (forall mes, cr_toolCalls (commandRecord (snd (failCommand call mes m)))
               = cr_toolCalls (commandRecord m)
            /\ cr_toolResults (commandRecord (snd (failCommand call mes m)))
               = cr_toolResults (commandRecord m))
  /\ (cr_toolCalls (commandRecord (snd (stopCommand call m)))
      = cr_toolCalls (commandRecord m)
      /\ cr_toolResults (commandRecord (snd (stopCommand call m)))
         = cr_toolResults (commandRecord m))
  /\ (forall a, cr_toolCalls (commandRecord (snd (finishCommand call a m)))
               = cr_toolCalls (commandRecord m)
             /\ cr_toolResults (commandRecord (snd (finishCommand call a m)))
               = cr_toolResults (commandRecord m)).
Proof.
  split; [|split].
  - intros mes. split; reflexivity.
  - split; reflexivity.
  - intros a. unfold finishCommand. rewrite report_record.
    destruct (am_content a) as [c|]; [destruct (truthyStr c)|]; split; reflexivity.
Qed.

Lemma loop_answers fuel api a it m rm :
  List.map tool_call_id (cr_toolResults (commandRecord m))
  = List.map tce_id (cr_toolCalls (commandRecord m)) ->
  loop call fuel api a it m = Some rm ->
  answersInOrder (commandRecord (snd rm)).
Proof.
  assert (Hrefl : forall r : CommandRecord,
             List.map tool_call_id (cr_toolResults r)
             = List.map tce_id (cr_toolCalls r) ->
             answersInOrder r).
  { intros r E. unfold answersInOrder. now rewrite E. }
  intros Hinv H. revert api a it m H Hinv.
  induction fuel as [|fuel IH]; intros api a it m.
  - cbn [loop]. destruct (hasToolCalls a && (it <? maxIterations call)%Z);
      [discriminate|].
    intros H Hinv. injection H as <-. apply Hrefl.
    destruct (closed_calls m) as (_ & _ & Hf). destruct (Hf a) as [-> ->].
    exact Hinv.
  - rewrite loop_S.
    destruct (hasToolCalls a && (it <? maxIterations call)%Z).
    2:{ intros H Hinv. injection H as <-. apply Hrefl.
        destruct (closed_calls m) as (_ & _ & Hf). destruct (Hf a) as [-> ->].
        exact Hinv. }
    destruct (shouldStopCurrent (queue m)).
    { intros H Hinv. injection H as <-. apply Hrefl.
      destruct (closed_calls m) as (_ & [-> ->] & _). exact Hinv. }
    destruct (_ <=? _)%Z.
    { intros H Hinv. injection H as <-. apply Hrefl.
      destruct (closed_calls m) as (Hf & _).
      match goal with |- context [failCommand call ?x m] =>
        destruct (Hf x) as [-> ->] end. exact Hinv. }
    destruct (recordToolCalls_calls (callsOf a) m)
      as (Hres1 & recorded & Hcalls1 & Hids1).
    destruct (recordToolCalls (callsOf a) m) as [[message|] m1];
      cbn [fst snd] in Hres1, Hcalls1, Hids1.
    { intros H Hinv. injection H as <-.
      destruct (closed_calls m1) as (Hf & _). destruct (Hf message) as [E1 E2].
      unfold answersInOrder. rewrite E1, E2, Hres1, Hcalls1, map_app, Hinv.
      now apply prefix_app_r. }
    specialize (Hids1 eq_refl).
    destruct (dispatch_results (callsOf a) [] m1)
      as (Hcalls2 & results & Hres2 & Hpre2 & Hall2).
    destruct (dispatch call (callsOf a) [] m1) as [r|acc2 m2];
      cbn [machineOf] in Hcalls2, Hres2.
    { intros H Hinv. injection H as <-. unfold answersInOrder.
      rewrite Hcalls2, Hres2, Hres1, Hcalls1, !map_app, Hinv, Hids1.
      now apply prefix_app. }
    specialize (Hall2 _ _ eq_refl). cbv zeta.
    match goal with |- context [roundTrip call ?x m2] =>
      destruct (roundTrip_calls x m2) as (Hc3 & Hr3);
      destruct (roundTrip call x m2) as [[next|message] m3] end;
      cbn [snd] in Hc3, Hr3; intros H Hinv.
    + apply IH in H; [exact H|].
      rewrite Hc3, Hr3, Hcalls2, Hres2, Hres1, Hcalls1, !map_app, Hinv, Hids1, Hall2.
      reflexivity.
    + injection H as <-. apply Hrefl.
      destruct (closed_calls m3) as (Hf & _). destruct (Hf message) as [-> ->].
      rewrite Hc3, Hr3, Hcalls2, Hres2, Hres1, Hcalls1, !map_app, Hinv, Hids1, Hall2.
      reflexivity.
Qed.

(** X7: in the command record of every attempt the tool results answer the
    recorded tool calls in order: the ids of the results are the ids of the
    first recorded calls, so there are never more results than calls. *)
Theorem tool_results_answer_calls q w :
  exists rm,
    executeCommand call q w = Some rm
    /\ answersInOrder (commandRecord (snd rm))
    /\ (length (cr_toolResults (commandRecord (snd rm)))
        <= length (cr_toolCalls (commandRecord (snd rm))))%nat.
Proof.
  destruct (executeCommand_total call q w) as [rm Hrun]. exists rm.
  split; [exact Hrun|].
  enough (H : answersInOrder (commandRecord (snd rm))).
  { split; [exact H|]. apply prefix_length in H. now rewrite !length_map in H. }
  revert Hrun. unfold executeCommand.
  destruct (negb (truthyStr (Args.apiKey call))).
  { intros H. injection H as <-. exists []. reflexivity. }
  match goal with |- context [roundTrip call ?x ?m] =>
    destruct (roundTrip_calls x m) as (Hc & Hr);
    destruct (roundTrip call x m) as [[next|message] m1] end; cbn [snd] in Hc, Hr.
  - intros H. refine (loop_answers _ _ _ _ _ _ _ H). now rewrite Hc, Hr.
  - intros H. injection H as <-. exists [].
    destruct (closed_calls m1) as (Hf & _). destruct (Hf message) as [-> ->].
    now rewrite Hc, Hr.
Qed.

End Attempts.




Lemma no_request_without_api_key_witness :
  let host := Scenarios.hostOf [Scenarios.goBack "c1"] 3 2 None in
  exists rm,
    executeCommand MoreScenarios.keylessCall initialState 0%nat = Some rm
    /\ (journal (snd rm) = [] <-> Args.apiKey MoreScenarios.keylessCall = EmptyString)
    /\ (journal (snd rm) = [] ->
        status (fst rm) = failed
        /\ error (fst rm) = Some apiKeyMessage
        /\ tokenUsage (fst rm) = zeroUsage
        /\ world (snd rm) = 0%nat
        /\ cr_toolCalls (commandRecord (snd rm)) = []).
Proof.
  intros host.
  apply (no_request_without_api_key (host := host) MoreScenarios.keylessCall
           initialState 0%nat).
Defined.

Lemma Done_completes_batch_witness :
  let host := MoreScenarios.doneHost in
  let m := mkMachine initialState 0%nat
             (mkCommandRecord "get the title" executing "0" [] [] [] zeroUsage
                None None) [] in
  exists outcome,
    dispatch (Scenarios.callWith 50 150000)
      [MoreScenarios.done "c1"; Scenarios.goBack "c2"] [] m = Returned outcome
    /\ status (fst outcome) = completed
    /\ error (fst outcome) = None
    /\ data (fst outcome) = Str "Example Title"
    /\ journal (snd outcome) = [ToolRun (MoreScenarios.done "c1")]
    /\ cr_status (commandRecord (snd outcome)) = completed
    /\ cr_toolResults (commandRecord (snd outcome))
       = [mkToolResult "c1" "tool"
            (Scenarios.stringify MoreScenarios.titleSignal) "0"].
Proof.
  intros host m.
  apply (Done_completes_batch (host := host) (Scenarios.callWith 50 150000)
           (MoreScenarios.done "c1") [Scenarios.goBack "c2"] [] m
           MoreScenarios.titleArguments);
    reflexivity.
Defined.

End RunFacts.

(** * Properties of whole queue runs *)

Module QueueRunFacts.
Import JS CommandQueue Tools CommandExecutor ExecutorFacts Runs RunFacts EventLoop.

Section Quiet.
Context {host : Host}.

(** The operator presses nothing but Stop. *)
Hypothesis only_stop : forall w a, In a (operator w) -> a = PressStop.

Lemma quiet_kept q :
  keptByExecutor
    (fun st => sameQueue q st
               /\ isPaused st = isPaused q /\ timers st = timers q).
Proof.
  split; [|split].
  - intros w st. specialize (only_stop w).
    induction (operator w) as [|a actions IH] in st, only_stop |- *;
      cbn [fold_left]; [auto|].
    intros H. apply IH; [intros b Hb; apply only_stop; now right|].
    rewrite (only_stop a) by now left. exact H.
  - intros [u|] r st H; exact H.
  - intros st H. exact H.
Qed.

Variable argumentsFor : string -> Args.t.
Hypothesis command_passed : forall c, Args.command (argumentsFor c) = c.

Lemma processNextCommand_reports commands k st w c :
  reportedUpTo commands k st ->
  commands !! k = Some c ->
  exists st' w',
    processNextCommand (asExecuteFn argumentsFor) (st, w) = (st', w')
    /\ timers st' = [1000%Z]
    /\ showResults st' = showResults st
    /\ reportedUpTo commands (S k) (clearTimers st').
Proof.
  intros (Hcmds & Hidx & Hproc & Hfn & Hpaused & Htimers & Hmap & Hterm & Hsum) Hc.
  unfold processNextCommand. rewrite Hpaused, Hcmds, Hidx.
  assert (Hlt : (k < length commands)%nat) by (apply lookup_lt_is_Some; eauto).
  destruct (Nat.leb_spec (length commands) k) as [Hle|_]; [lia|].
  rewrite Hc. unfold asExecuteFn. cbn [fst snd].
  destruct (executeCommand_total (argumentsFor c) st w) as [rm Hrun].
  rewrite Hrun.
  apply (executeCommand_ended (argumentsFor c)
           (fun x => (sameQueue (resetCurrentTokenUsage st) x
                      /\ isPaused x = isPaused (resetCurrentTokenUsage st)
                      /\ timers x = timers (resetCurrentTokenUsage st))
                     /\ usagePlus (totalTokenUsage x) (totalTokenUsage st)
                          (currentTokenUsage x))) in Hrun;
    [|apply keptByExecutor_and; [apply quiet_kept | apply usagePlus_kept]
     |split; [repeat split | unfold usagePlus; cbn; lia]].
  destruct Hrun as (s & err & d & m1 & -> & [(Hsame & Hp1 & Ht1) Hplus] & Hs & _).
  destruct Hsame as (Hc1 & Hi1 & Hr1 & Hpr1 & Hsh1 & Hfn1).
  cbn in Hc1, Hi1, Hr1, Hpr1, Hsh1, Hfn1, Hp1, Ht1.
  unfold report. cbn [fst snd queue set_queue world].
  unfold addCommandResult. cbn [command].
  rewrite findIndex_None.
  2:{ rewrite Hr1. eapply Forall_impl; [exact Hterm|]. cbn. intros r Hr.
      destruct (status r); try discriminate; cbn; now rewrite andb_false_r. }
  cbn. rewrite Hfn1, Hfn, Hp1, Hpaused. cbn.
  eexists _, _. split; [reflexivity|]. cbn. rewrite Ht1, Htimers.
  split; [reflexivity|]. split; [congruence|].
  unfold reportedUpTo. cbn.
  rewrite Hc1, Hi1, Hr1, Hpr1, Hfn1, Hp1, command_passed, map_app, Hmap.
  cbn. rewrite (take_S_r _ _ _ Hc).
  repeat split; auto; try congruence.
  - apply Forall_app. split; [exact Hterm|]. now repeat constructor.
  - rewrite usageSum_app, <- Hsum. cbn.
    destruct Hplus as (Ha & Hb & Hd). apply usage_ext; cbn; assumption.
Qed.

Lemma processNextCommand_finishes commands st w :
  reportedUpTo commands (length commands) st ->
  exists st',
    processNextCommand (asExecuteFn argumentsFor) (st, w) = (st', w)
    /\ commandResults st' = commandResults st
    /\ currentCommandIndex st' = length commands
    /\ totalTokenUsage st' = totalTokenUsage st
    /\ isProcessingCommands st' = false
    /\ showResults st' = true
    /\ timers st' = [].
Proof.
  intros (Hcmds & Hidx & Hproc & Hfn & Hpaused & Htimers & Hmap & Hterm & Hsum).
  unfold processNextCommand. rewrite Hpaused, Hcmds, Hidx, Nat.leb_refl.
  eexists. split; [reflexivity|]. cbn. repeat split; auto.
Qed.

Lemma fireTimers_from commands n k st w d :
  timers st = [d] ->
  reportedUpTo commands k (clearTimers st) ->
  (k + n = length commands)%nat ->
  exists final w',
    fireTimers (S n) (asExecuteFn argumentsFor) (st, w) = Some (final, w')
    /\ List.map command (commandResults final) = commands
    /\ Forall (fun r => isTerminal (status r) = true) (commandResults final)
    /\ totalTokenUsage final = usageSum (commandResults final)
    /\ currentCommandIndex final = length commands
    /\ isProcessingCommands final = false
    /\ showResults final = true
    /\ timers final = [].
Proof.
  revert k st w d. induction n as [|n IH]; intros k st w d Ht Hready Hk.
  - rewrite Nat.add_0_r in Hk. subst k.
    destruct (processNextCommand_finishes _ _ w Hready)
      as (st' & Hrun & Hres & Hidx & Htot & Hproc & Hshow & Htim).
    exists st', w. cbn [fireTimers]. unfold fireTimer. cbn [fst snd].
    rewrite Ht, Hrun.
    destruct Hready as (_ & _ & _ & _ & _ & _ & Hmap & Hterm & Hsum).
    rewrite Hres, Htot. cbn in Hmap, Hterm, Hsum.
    rewrite firstn_all in Hmap. repeat split; auto.
  - assert (Hc : is_Some (commands !! k)) by (apply lookup_lt_is_Some; lia).
    destruct Hc as [c Hc].
    destruct (processNextCommand_reports _ _ _ w _ Hready Hc)
      as (st' & w' & Hrun & Htim & _ & Hnext).
    destruct (IH (S k) st' w' _ Htim Hnext ltac:(lia))
      as (final & w'' & Hfire & Hfacts).
    exists final, w''. split; [|exact Hfacts].
    change (fireTimers (S (S n)) (asExecuteFn argumentsFor) (st, w))
      with (match fireTimer (asExecuteFn argumentsFor) (st, w) with
            | Some s' => fireTimers (S n) (asExecuteFn argumentsFor) s'
            | None => None
            end).
    unfold fireTimer at 1. cbn [fst snd]. rewrite Ht, Hrun. exact Hfire.
Qed.

End Quiet.





End QueueRunFacts.

(** ** Pause and Resume *)

Module PauseFacts.
Import JS CommandQueue Tools CommandExecutor ExecutorFacts Runs RunFacts EventLoop.

Section Calm.
Context {host : Host}.

(** The operator does not press Resume while an attempt runs. *)
Hypothesis no_resume : forall w, ~ In PressResume (operator w).

Variable argumentsFor : string -> Args.t.
Hypothesis command_passed : forall c, Args.command (argumentsFor c) = c.

(** One call of [processNextCommand] on a queue with a command left: the
    command is attempted and reported, and the timer for the next command is
    registered unless the queue was paused meanwhile. *)
Lemma processNextCommand_calm commands k st w c :
  reportedUpTo commands k st ->
  commands !! k = Some c ->
  exists st' w' r,
    processNextCommand (asExecuteFn argumentsFor) (st, w) = (st', w')
    /\ currentCommands st' = commands
    /\ currentCommandIndex st' = S k
    /\ commandResults st' = commandResults st ++ [r]
    /\ command r = c
    /\ isTerminal (status r) = true
    /\ isProcessingCommands st' = true
    /\ storedExecuteCommandFn st' = true
    /\ totalTokenUsage st' = usageSum (commandResults st')
    /\ timers st' = (if isPaused st' then [] else [1000%Z]).
Proof.
  intros (Hcmds & Hidx & Hproc & Hfn & Hpaused & Htimers & Hmap & Hterm & Hsum) Hc.
  unfold processNextCommand. rewrite Hpaused, Hcmds, Hidx.
  assert (Hlt : (k < length commands)%nat) by (apply lookup_lt_is_Some; eauto).
  destruct (Nat.leb_spec (length commands) k) as [Hle|_]; [lia|].
  rewrite Hc. unfold asExecuteFn. cbn [fst snd].
  destruct (executeCommand_total (argumentsFor c) st w) as [rm Hrun].
  rewrite Hrun.
  apply (executeCommand_ended (argumentsFor c)
           (fun x => (sameQueue (resetCurrentTokenUsage st) x
                      /\ timers x = timers (resetCurrentTokenUsage st))
                     /\ usagePlus (totalTokenUsage x) (totalTokenUsage st)
                          (currentTokenUsage x))) in Hrun;
    [|apply keptByExecutor_and; [now apply calm_kept | apply usagePlus_kept]
     |split; [split; [repeat split | reflexivity] | unfold usagePlus; cbn; lia]].
  destruct Hrun as (s & err & d & m1 & -> & [(Hsame & Ht1) Hplus] & Hs & _).
  destruct Hsame as (Hc1 & Hi1 & Hr1 & Hpr1 & Hsh1 & Hfn1).
  cbn in Hc1, Hi1, Hr1, Hpr1, Hsh1, Hfn1, Ht1.
  unfold report. cbn [fst snd queue set_queue world].
  unfold addCommandResult. cbn [command].
  rewrite findIndex_None.
  2:{ rewrite Hr1. eapply Forall_impl; [exact Hterm|]. cbn. intros r Hr.
      destruct (status r); try discriminate; cbn; now rewrite andb_false_r. }
  cbn. rewrite Hfn1, Hfn. cbn [andb].
  eexists _, _, (mkResult _ s err d _ _). split; [reflexivity|].
  destruct (isPaused (queue m1)) eqn:Hp; cbn; rewrite ?Hp, ?Hc1, ?Hi1, ?Hr1, ?Hpr1,
    ?Hfn1, ?Ht1, ?Htimers, ?usageSum_app, <- ?Hsum, ?command_passed; cbn;
    (repeat split; try congruence; try assumption;
     destruct Hplus as (Ha & Hb & Hd); apply usage_ext; cbn; assumption).
Qed.

End Calm.

(** X18: Pause pressed while a command runs holds the queue when that
    command has ended, and Resume then continues with the next command,
    which runs once. A queue that has reported on its first [k] commands
    runs command [k]; the operator may press Stop and Pause while an attempt
    runs, but not Resume. When the queue is paused as the attempt ends, the
    command has its result, the position has advanced and no timer is
    pending. Resume then registers one timer of 100 ms, and its callback
    runs command [k+1]: exactly one result is added, for that command, the
    position advances by one, and the timer for the command after it is
    pending unless the queue was paused again. *)
Theorem pause_holds_resume_continues {host : Host} (argumentsFor : string -> Args.t)
    (commands : list string) (k : nat) (st : State) (w : World) (c c' : string) :
  (forall w, ~ In PressResume (operator w)) ->
  (forall c, Args.command (argumentsFor c) = c) ->
  reportedUpTo commands k st ->
  commands !! k = Some c ->
  commands !! S k = Some c' ->
  let fn := asExecuteFn argumentsFor in
  let held := processNextCommand fn (st, w) in
  isPaused (fst held) = true ->
  timers (fst held) = []
  /\ currentCommandIndex (fst held) = S k
  /\ (exists r,
        commandResults (fst held) = commandResults st ++ [r]
        /\ command r = c
        /\ isTerminal (status r) = true)
  /\ timers (resumeExecution (fst held)) = [100%Z]
  /\ exists final w' r',
       fireTimer fn (resumeExecution (fst held), snd held) = Some (final, w')
       /\ commandResults final = commandResults (fst held) ++ [r']
       /\ command r' = c'
       /\ isTerminal (status r') = true
       /\ currentCommandIndex final = S (S k)
       /\ timers final = (if isPaused final then [] else [1000%Z]).
Proof.
  intros Hcalm Hcmd Hready Hc Hc' fn held. subst fn held.
  destruct (processNextCommand_calm Hcalm argumentsFor Hcmd _ _ _ w _ Hready Hc)
    as (st1 & w1 & r & -> & Hcmds & Hidx & Hres & Hr & Hterm & Hproc & Hfn & Hsum
        & Htimers).
  cbn [fst snd]. intros Hpaused. rewrite Hpaused in Htimers.
  split; [exact Htimers|]. split; [exact Hidx|].
  split; [exists r; repeat split; assumption|].
  assert (Hresume : timers (resumeExecution st1) = [100%Z]).
  { unfold resumeExecution. cbn. rewrite Hfn, Hproc. cbn. now rewrite Htimers. }
  split; [exact Hresume|].
  assert (Hnext : reportedUpTo commands (S k) (clearTimers (resumeExecution st1))).
  { destruct Hready as (_ & _ & _ & _ & _ & _ & Hmap & Hall & _).
    unfold resumeExecution. cbn. rewrite Hfn, Hproc. cbn.
    unfold reportedUpTo. cbn. rewrite Hres, map_app, Hmap, (take_S_r _ _ _ Hc).
    cbn [List.map]. rewrite Hr.
    repeat split; auto.
    - apply Forall_app. split; [exact Hall|]. now repeat constructor.
    - now rewrite <- Hres. }
  destruct (processNextCommand_calm Hcalm argumentsFor Hcmd _ _ _ w1 _ Hnext Hc')
    as (st2 & w2 & r' & Hrun & _ & Hidx2 & Hres2 & Hr2 & Hterm2 & _ & _ & _ & Htimers2).
  exists st2, w2, r'. unfold fireTimer. cbn [fst snd]. rewrite Hresume, Hrun.
  split; [reflexivity|].
  assert (Hsame : commandResults (clearTimers (resumeExecution st1)) = commandResults st1).
  { unfold resumeExecution. cbn. now destruct (_ && _). }
  rewrite Hsame in Hres2. repeat split; assumption.
Qed.

(** Two commands, Pause pressed while the first request of the first one is
    pending. *)
Lemma pause_holds_resume_continues_witness :
  let host := MoreScenarios.pausingHost 1 in
  let fn := asExecuteFn MoreScenarios.briefArguments in
  let held := processNextCommand fn (MoreScenarios.twoCommands, 0%nat) in
  isPaused (fst held) = true
  /\ timers (fst held) = []
  /\ timers (resumeExecution (fst held)) = [100%Z]
  /\ exists final w' r',
       fireTimer fn (resumeExecution (fst held), snd held) = Some (final, w')
       /\ commandResults final = commandResults (fst held) ++ [r']
       /\ command r' = "get the links"
       /\ currentCommandIndex final = 2%nat.
Proof.
  intros host fn held.
  assert (Hpaused : isPaused (fst held) = true) by (vm_compute; reflexivity).
  split; [exact Hpaused|].
  destruct (pause_holds_resume_continues (host := host) MoreScenarios.briefArguments
              ["get the title"; "get the links"] 0 MoreScenarios.twoCommands 0%nat
              "get the title" "get the links")
    as (Htimers & _ & _ & Hresume & final & w' & r' & Hfire & Hres & Hr & _ & Hidx & _).
  - intros w H. cbn in H.
    destruct (w =? 1)%nat; [destruct H as [H | []]; discriminate H | destruct H].
  - reflexivity.
  - unfold reportedUpTo. cbn.
    split; [reflexivity|]. split; [reflexivity|]. split; [reflexivity|].
    split; [reflexivity|]. split; [reflexivity|]. split; [reflexivity|].
    split; [reflexivity|]. split; [constructor | reflexivity].
  - reflexivity.
  - reflexivity.
  - exact Hpaused.
  - split; [exact Htimers|]. split; [exact Hresume|].
    exists final, w', r'. repeat split; assumption.
Defined.

End PauseFacts.

(** * Properties of the panel and of the settings *)

Module PanelFacts.
Import JS CommandQueue Panel.

Lemma pushed_mergeData existing new :
  pushed (mergeData existing new) = pushed existing ++ pushed new.
Proof.
  unfold mergeData.
  destruct new as [| |b|n|s|more|props]; cbn [isNullish negb];
    try (now rewrite app_nil_r);
    destruct existing as [| |b'|n'|s'|old|props']; cbn; rewrite ?app_nil_r;
    reflexivity.
Qed.

Lemma unifiedData_app l1 l2 :
  unifiedData (l1 ++ l2) = unifiedData l1 ++ unifiedData l2.
Proof. apply flat_map_app. Qed.

Lemma unifiedData_insert l i x old :
  l !! i = Some old ->
  unifiedData l
  = unifiedData (take i l) ++ pushed (data old) ++ unifiedData (drop (S i) l)
  /\ unifiedData (<[i := x]> l)
     = unifiedData (take i l) ++ pushed (data x) ++ unifiedData (drop (S i) l).
Proof.
  revert i. induction l as [|y l IH]; intros [|i] H; cbn in H; try discriminate.
  - injection H as ->. split; reflexivity.
  - destruct (IH i H) as [H1 H2].
    change (<[S i := x]> (y :: l)) with (y :: <[i := x]> l).
    cbn [take drop unifiedData flat_map] in *.
    fold (unifiedData l). fold (unifiedData (<[i := x]> l)).
    fold (unifiedData (take i l)). fold (unifiedData (drop (S i) l)).
    rewrite <- !app_assoc. split; f_equal; assumption.
Qed.

(** X10: [addCommandResult] never takes an item out of the unified data of
    the panel: the data of the reported result is put in, at the end or right
    after the data of the result under retry, and every other item stays
    where it was. *)
Theorem unifiedData_addCommandResult result st :
  exists before after,
    unifiedData (commandResults st) = before ++ after
    /\ unifiedData (commandResults (addCommandResult result st))
       = before ++ pushed (data result) ++ after.
Proof.
  unfold addCommandResult.
  destruct (findIndex _ _) as [i|] eqn:Hfind.
  - apply QueueFacts.findIndex_Some in Hfind as (existing & Hi & _).
    rewrite Hi. cbn [commandResults set_commandResults].
    destruct (unifiedData_insert (commandResults st) i
                (mergeResult existing result) existing Hi) as [H1 H2].
    exists (unifiedData (take i (commandResults st)) ++ pushed (data existing)),
      (unifiedData (drop (S i) (commandResults st))).
    rewrite H2. cbn [mergeResult data]. rewrite pushed_mergeData, <- !app_assoc.
    split; [exact H1 | reflexivity].
  - exists (unifiedData (commandResults st)), [].
    rewrite !app_nil_r. split; [reflexivity|].
    match goal with |- unifiedData (commandResults ?x) = _ =>
      replace (commandResults x) with (commandResults st ++ [result])
        by (cbn; destruct (_ && _); reflexivity) end.
    rewrite unifiedData_app. cbn. now rewrite app_nil_r.
Qed.

End PanelFacts.

Module StoreFacts.
Import JS Store.

Lemma truthy_defined v : truthy v = true -> v <> Undefined.
Proof. intros H ->. discriminate. Qed.

Lemma sync_get_skip key k v items storage :
  String.eqb key k = false ->
  sync_get key (sync_set ((k, v) :: items) storage)
  = sync_get key (sync_set items storage).
Proof.
  intros H. unfold sync_get, sync_set. cbn [List.filter snd].
  destruct v; cbn [app getProp]; rewrite ?H; reflexivity.
Qed.

Lemma sync_get_head key v items storage :
  v <> Undefined ->
  sync_get key (sync_set ((key, v) :: items) storage) = v.
Proof.
  intros Hv. unfold sync_get, sync_set. cbn [List.filter snd].
  destruct v; try congruence; cbn [app getProp]; now rewrite String.eqb_refl.
Qed.

Lemma orElse_defined a b : b <> Undefined -> orElse a b <> Undefined.
Proof.
  intros Hb. unfold orElse. destruct (truthy a) eqn:Ha;
    [now apply truthy_defined | exact Hb].
Qed.

Lemma get_itemsOf s storage :
  llm s <> Undefined -> apiKey s <> Undefined ->
  sync_get "llm" (sync_set (itemsOf s) storage) = llm s
  /\ sync_get "apiKey" (sync_set (itemsOf s) storage) = apiKey s
  /\ sync_get "customSystemPrompt" (sync_set (itemsOf s) storage)
     = orElse (customSystemPrompt s) (Str "")
  /\ sync_get "maxToolCalls" (sync_set (itemsOf s) storage)
     = orElse (maxToolCalls s) (Number 50)
  /\ sync_get "maxTokens" (sync_set (itemsOf s) storage)
     = orElse (maxTokens s) (Number 150000).
Proof.
  intros Hl Hk. unfold itemsOf.
  split; [|split; [|split; [|split]]];
    rewrite ?sync_get_skip by reflexivity; apply sync_get_head;
    try assumption; apply orElse_defined; discriminate.
Qed.

Lemma orElse_truthy a b : truthy b = false -> (if truthy (orElse a b) then orElse a b else b) = orElse a b.
Proof.
  intros Hb. unfold orElse. destruct (truthy a) eqn:Ha; [now rewrite Ha | now rewrite Hb].
Qed.

(** X11: settings saved in the dialog are the settings of the next session:
    [loadSettings] on fresh refs reads what the dialog stored, with an empty
    model name read as ['openai'] and a zero or empty bound as its
    default. *)
Theorem saved_settings_load dialog storage :
  llm dialog <> Undefined ->
  apiKey dialog <> Undefined ->
  loadSettings (dialogSaveSettings dialog storage) initialSettings
  = mkSettings (orElse (llm dialog) (Str "openai")) (orElse (apiKey dialog) (Str ""))
      (orElse (customSystemPrompt dialog) (Str ""))
      (orElse (maxToolCalls dialog) (Number 50))
      (orElse (maxTokens dialog) (Number 150000)).
Proof.
  intros Hl Hk. unfold loadSettings, dialogSaveSettings.
  destruct (get_itemsOf dialog storage Hl Hk) as (-> & -> & -> & -> & ->).
  cbn [llm apiKey customSystemPrompt maxToolCalls maxTokens
                         initialSettings].
  f_equal.
  - apply orElse_truthy. reflexivity.
  - unfold orElse. destruct (truthy (maxToolCalls dialog)) eqn:E.
    + destruct (maxToolCalls dialog); try discriminate; reflexivity.
    + reflexivity.
  - unfold orElse. destruct (truthy (maxTokens dialog)) eqn:E.
    + destruct (maxTokens dialog); try discriminate; reflexivity.
    + reflexivity.
Qed.

Lemma saved_settings_load_witness :
  loadSettings (dialogSaveSettings MoreScenarios.dialogValues []) initialSettings
  = mkSettings (Str "gpt-4o-mini") (Str "sk-test") (Str "") (Number 50) (Number 2000).
Proof.
  apply (saved_settings_load MoreScenarios.dialogValues []); discriminate.
Defined.

End StoreFacts.

(** * More properties of the page serializer *)

Module AddressingFacts.
Import JS LLMinify SerializerFacts Addressing.

Lemma selected_app l1 l2 : selected (l1 ++ l2) = selected l1 ++ selected l2.
Proof.
  unfold selected. now rewrite flat_map_app, List.filter_app, List.map_app.
Qed.

Lemma selected_cons n l : selected (n :: l) = selected [n] ++ selected l.
Proof. apply (selected_app [n] l). Qed.

Lemma selected_element r t attrs kids :
  selected [Element r t attrs kids]
  = (if matchesInteractive (Element r t attrs kids) then [(Some r, t)] else [])
    ++ selected kids.
Proof.
  unfold selected. cbn [flat_map elementsOf isElement]. rewrite app_nil_r.
  change (descendants (Element r t attrs kids)) with (flat_map elementsOf kids).
  cbn [List.filter]. now destruct (matchesInteractive _).
Qed.

Lemma selected_other n : isElement n = false -> selected [n] = [].
Proof. destruct n; [discriminate | reflexivity | reflexivity]. Qed.

Lemma selected_length l : length (selected l) = interactiveCount l.
Proof. unfold selected, interactiveCount. apply length_map. Qed.

(** *** Step 3 on the clone selects the copies of what the document selects *)

Lemma forallb_flat_map {A B} (p : B -> bool) (f : A -> list B) l :
  forallb p (flat_map f l) = forallb (fun x => forallb p (f x)) l.
Proof.
  induction l as [|x l IH]; cbn; [reflexivity|]. now rewrite forallb_app, IH.
Qed.

Lemma cloneNode_isElement n : isElement (cloneNode n) = isElement n.
Proof. now destruct n. Qed.

Lemma stripped_clone_children kids :
  Forall (fun k =>
            forallb byTag (elementsOf k) = true ->
            selected (stripElement (eachDescendant stripElement (cloneNode k)))
            = List.map copyOf (selected [k])) kids ->
  forallb byTag (flat_map elementsOf kids) = true ->
  selected
    (flat_map (fun k => if isElement k
                        then stripElement (eachDescendant stripElement k)
                        else [k])
       (List.map cloneNode kids))
  = List.map copyOf (selected kids).
Proof.
  induction 1 as [|k kids Hk _ IH]; [reflexivity|].
  cbn [flat_map List.map]. rewrite forallb_app. intros H.
  apply andb_true_iff in H as [Hown Hrest].
  rewrite selected_app, (selected_cons k kids), List.map_app, (IH Hrest).
  f_equal. rewrite cloneNode_isElement.
  destruct (isElement k) eqn:Hel; [now apply Hk|].
  destruct k; [discriminate | reflexivity | reflexivity].
Qed.

Lemma stripped_clone_node n :
  forallb byTag (elementsOf n) = true ->
  selected (stripElement (eachDescendant stripElement (cloneNode n)))
  = List.map copyOf (selected [n]).
Proof.
  induction n as [r t attrs sub IH|d|d] using Node_children_ind;
    [|reflexivity|reflexivity].
  cbn [elementsOf isElement forallb].
  change (descendants (Element r t attrs sub)) with (flat_map elementsOf sub).
  intros H. apply andb_true_iff in H as [Hown Hsub].
  cbn [cloneNode eachDescendant stripElement].
  rewrite !selected_element, List.map_app, (stripped_clone_children sub IH Hsub).
  f_equal. unfold byTag in Hown. cbn [tagNameOf] in Hown.
  destruct (matchesInteractive (Element r t attrs sub)) eqn:Hm.
  - cbn [implb] in Hown. cbn [matchesInteractive]. rewrite Hown. reflexivity.
  - destruct (matchesInteractive (Element (copyRef r) t _ _)) eqn:Hc; [|reflexivity].
    apply (matchesInteractive_stripped r _ _ _ _ sub) in Hc. congruence.
Qed.

Lemma stripped_clone_selected n :
  forallb byTag (descendants n) = true ->
  selected (childNodesOf (_stripAttributes (cloneNode n)))
  = List.map copyOf (selected (childNodesOf n)).
Proof.
  destruct n as [r t attrs kids|d|d]; [|reflexivity|reflexivity].
  change (descendants (Element r t attrs kids)) with (flat_map elementsOf kids).
  cbn [cloneNode _stripAttributes eachDescendant childNodesOf].
  apply stripped_clone_children. apply Forall_forall. intros k _.
  apply stripped_clone_node.
Qed.

(** *** Step 4 numbers the selected elements in their order *)

Lemma numberList_addressed kids :
  Forall (fun k => forall c, idValues [k] = [] ->
                             addressedFrom c [k] [snd (numberNode c k)]) kids ->
  forall c, idValues kids = [] -> addressedFrom c kids (snd (numberList c kids)).
Proof.
  induction 1 as [|k rest Hk _ IH]; intros c Hids; cbn [numberList].
  - intros key [].
  - rewrite idValues_cons in Hids. apply app_eq_nil in Hids as [Hk0 Hrest0].
    specialize (Hk c Hk0).
    destruct (numberNode_numbered k c Hk0) as [Hc1 _].
    destruct (numberNode c k) as [c1 k']. cbn [fst snd] in Hk, Hc1.
    specialize (IH c1 Hrest0).
    destruct (numberList c1 rest) as [c2 rest']. cbn [snd] in *.
    intros key Hkey. rewrite labelled_cons in Hkey. apply in_app_or in Hkey.
    rewrite (selected_cons k rest).
    destruct Hkey as [Hkey | Hkey].
    + destruct (Hk key Hkey) as (i & Hi & Hid). exists i.
      split; [now apply lookup_app_l_Some | exact Hid].
    + destruct (IH key Hkey) as (i & Hi & Hid).
      exists (length (selected [k]) + i)%nat. split.
      * rewrite lookup_app_r by lia.
        now replace (length (selected [k]) + i - length (selected [k]))%nat with i by lia.
      * rewrite Hid, selected_length. f_equal. f_equal. lia.
Qed.

Lemma numberNode_addressed n :
  forall c, idValues [n] = [] -> addressedFrom c [n] [snd (numberNode c n)].
Proof.
  induction n as [r t attrs kids IH|d|d] using Node_children_ind;
    [|intros c _ key []|intros c _ key []].
  intros c Hids. rewrite idValues_element in Hids.
  apply app_eq_nil in Hids as [Hown Hkids].
  rewrite numberNode_element. cbn zeta.
  destruct (matchesInteractive (Element r t attrs kids)) eqn:Hm.
  - pose proof (numberList_addressed kids IH (S c) Hkids) as Hl.
    destruct (numberList (S c) kids) as [c' kids']. cbn [snd] in *.
    intros key Hkey. rewrite labelled_element in Hkey.
    unfold hasAttribute in Hkey. rewrite getAttribute_setAttribute in Hkey.
    rewrite selected_element, Hm. cbn [app] in *.
    destruct Hkey as [<- | Hkey].
    + exists 0%nat. cbn [fst snd]. rewrite getAttribute_setAttribute, Nat.add_0_r.
      split; reflexivity.
    + destruct (Hl key Hkey) as (i & Hi & Hid). exists (S i).
      split; [exact Hi|]. rewrite Hid. f_equal. f_equal. lia.
  - pose proof (numberList_addressed kids IH c Hkids) as Hl.
    destruct (numberList c kids) as [c' kids']. cbn [snd] in *.
    intros key Hkey. rewrite labelled_element in Hkey.
    unfold hasAttribute in Hkey.
    destruct (getAttribute "id" attrs); [discriminate|]. cbn [app] in Hkey.
    rewrite selected_element, Hm. cbn [app]. now apply Hl.
Qed.

Lemma numberDescendants_addressed clone :
  idValues (childNodesOf clone) = [] ->
  addressedFrom 1 (childNodesOf clone) (childNodesOf (numberDescendants clone)).
Proof.
  destruct clone as [r t attrs kids|d|d]; [|intros _ key []|intros _ key []].
  cbn [childNodesOf numberDescendants]. intros Hids.
  apply numberList_addressed; [|exact Hids].
  apply Forall_forall. intros k _. apply numberNode_addressed.
Qed.

(** *** Steps 5 to 9 bring no element with an [id] *)

Section LabelledPass.

Variable f : Node -> list Node.
Hypothesis f_incl :
  forall n, isElement n = true -> incl (labelled (f n)) (labelled [n]).

Lemma pass_children_labelled kids :
  Forall (fun k => incl (labelled [eachDescendant f k]) (labelled [k])) kids ->
  incl (labelled
          (flat_map (fun k => if isElement k then f (eachDescendant f k) else [k])
             kids))
       (labelled kids).
Proof.
  induction 1 as [|k kids Hk _ IH]; [apply incl_refl|].
  cbn [flat_map]. rewrite labelled_app, (labelled_cons k).
  apply incl_app_app; [|exact IH].
  destruct (isElement k) eqn:Hel; [|apply incl_refl].
  eapply incl_tran; [apply f_incl; now rewrite eachDescendant_isElement | exact Hk].
Qed.

Lemma pass_node_labelled n : incl (labelled [eachDescendant f n]) (labelled [n]).
Proof.
  induction n as [r t attrs kids IH|d|d] using Node_children_ind;
    [|apply incl_refl|apply incl_refl].
  cbn [eachDescendant]. rewrite !labelled_element.
  apply incl_app_app; [apply incl_refl | now apply pass_children_labelled].
Qed.

Lemma pass_labelled n :
  incl (labelled (childNodesOf (eachDescendant f n))) (labelled (childNodesOf n)).
Proof.
  destruct n as [r t attrs kids|d|d]; [|apply incl_refl|apply incl_refl].
  cbn [eachDescendant childNodesOf]. apply pass_children_labelled.
  apply Forall_forall. intros k _. apply pass_node_labelled.
Qed.

End LabelledPass.

Lemma blankElement_labelled n : incl (labelled (blankElement n)) (labelled [n]).
Proof.
  destruct n as [r t attrs kids|d|d]; [|apply incl_refl|apply incl_refl].
  unfold blankElement. destruct (inList t _); [|apply incl_refl].
  rewrite !labelled_element. apply incl_app_app; [apply incl_refl|].
  intros x Hx. destruct Hx.
Qed.

Lemma removeIfHidden_labelled style n :
  incl (labelled (removeIfHidden style n)) (labelled [n]).
Proof.
  unfold removeIfHidden. destruct (isHidden style n); [|apply incl_refl].
  intros x Hx. destruct Hx.
Qed.

Lemma removeComments_labelled n : labelled [_removeComments n] = labelled [n].
Proof.
  induction n as [r t attrs kids IH|d|d] using Node_children_ind;
    [|reflexivity|reflexivity].
  cbn [_removeComments]. rewrite !labelled_element. f_equal.
  induction IH as [|k kids Hk _ IHkids]; [reflexivity|].
  cbn [flat_map]. rewrite labelled_app, IHkids, (labelled_cons k). f_equal.
  destruct k; [exact Hk | reflexivity | reflexivity].
Qed.

Lemma removeComments_children_labelled n :
  labelled (childNodesOf (_removeComments n)) = labelled (childNodesOf n).
Proof.
  pose proof (removeComments_labelled n) as H.
  destruct n as [r t attrs kids|d|d]; [|reflexivity|reflexivity].
  cbn [_removeComments] in *. rewrite !labelled_element in H.
  now apply app_inv_head in H.
Qed.

Lemma incl_of_eq {A} (l1 l2 : list A) : l1 = l2 -> incl l1 l2.
Proof. intros ->. apply incl_refl. Qed.

Lemma later_steps_labelled style clone :
  incl (labelled
          (childNodesOf
             (_collapseSingleChildWrappers
                (_pruneEmptyNodes
                   (_removeHiddenElements style
                      (_removeComments (eachDescendant blankElement clone)))))))
       (labelled (childNodesOf clone)).
Proof.
  intros key Hkey.
  apply (pass_labelled _ (fun n _ => incl_of_eq _ _ (collapseIfWrapper_labelled n))) in Hkey.
  apply (pass_labelled _ (fun n _ => incl_of_eq _ _ (pruneIfEmpty_labelled n))) in Hkey.
  apply (pass_labelled _ (fun n _ => removeIfHidden_labelled style n)) in Hkey.
  rewrite removeComments_children_labelled in Hkey.
  now apply (pass_labelled _ (fun n _ => blankElement_labelled n)) in Hkey.
Qed.

(** X12: on a document whose root is not selected and whose selected
    elements are selected by their tag, every [id] below the root of the
    tree that is serialized is a number of the mapping, and [getElementById]
    gives for it the element of the live document of which the element
    carrying the [id] is the copy. *)
Theorem ids_address_their_elements style documentElement :
  selectedByTag documentElement = true ->
  let page := refresh style documentElement in
  Forall (fun key =>
            exists k live,
              getAttribute "id" (snd key) = Some (idText k)
              /\ getElementById (mapping page) (Z.of_nat k) = Some live
              /\ In live (documentQuerySelectorAll matchesInteractive documentElement)
              /\ fst (fst key) = option_map copyRef (refOf live)
              /\ snd (fst key) = tagNameOf live)
    (labelled (childNodesOf (tree page))).
Proof.
  intros Htag page. subst page. unfold refresh, _assignElementIds.
  cbn [mapping tree].
  apply andb_true_iff in Htag as [Hroot Hbelow]. apply negb_true_iff in Hroot.
  set (clone := _stripAttributes (cloneNode documentElement)).
  apply Forall_forall. intros key Hkey. apply list_elem_of_In in Hkey.
  apply later_steps_labelled in Hkey.
  apply (numberDescendants_addressed clone (stripAttributes_idValues _)) in Hkey
    as (i & Hi & Hid).
  subst clone. rewrite (stripped_clone_selected _ Hbelow) in Hi.
  rewrite list_lookup_fmap in Hi.
  destruct (selected (childNodesOf documentElement) !! i) as [[r0 t0]|] eqn:Hsel;
    [|discriminate].
  injection Hi as Hkey1.
  unfold selected in Hsel. rewrite list_lookup_fmap in Hsel.
  destruct (List.filter matchesInteractive
              (flat_map elementsOf (childNodesOf documentElement)) !! i)
    as [live|] eqn:Hlive; [|discriminate].
  injection Hsel as <- <-.
  assert (Horiginal :
            documentQuerySelectorAll matchesInteractive documentElement
            = List.filter matchesInteractive
                (flat_map elementsOf (childNodesOf documentElement))).
  { unfold documentQuerySelectorAll. cbn [List.filter]. rewrite Hroot.
    destruct documentElement; reflexivity. }
  exists (1 + i)%nat, live. split; [exact Hid|].
  assert (Hbound : (i < interactiveCount (childNodesOf documentElement))%nat).
  { unfold interactiveCount. apply lookup_lt_is_Some. eauto. }
  assert (Hcount :
            length (querySelectorAll matchesInteractive
                      (_stripAttributes (cloneNode documentElement)))
            = interactiveCount (childNodesOf documentElement)).
  { rewrite querySelectorAll_length, <- !selected_length,
      (stripped_clone_selected _ Hbelow). apply length_map. }
  split.
  - unfold buildMapping. rewrite getElementById_inside by (rewrite Hcount; lia).
    rewrite Horiginal.
    replace (Z.to_nat (Z.of_nat (1 + i)) - 1)%nat with i by lia. exact Hlive.
  - split.
    + rewrite Horiginal. apply list_elem_of_In. eapply list_elem_of_lookup_2, Hlive.
    + rewrite <- Hkey1. split; reflexivity.
Qed.

Lemma ids_address_their_elements_witness :
  selectedByTag Scenarios.twoControlsPage = true
  /\ let page := refresh Scenarios.detachedStyle Scenarios.twoControlsPage in
     Forall (fun key =>
               exists k live,
                 getAttribute "id" (snd key) = Some (idText k)
                 /\ getElementById (mapping page) (Z.of_nat k) = Some live
                 /\ In live (documentQuerySelectorAll matchesInteractive
                               Scenarios.twoControlsPage)
                 /\ fst (fst key) = option_map copyRef (refOf live)
                 /\ snd (fst key) = tagNameOf live)
       (labelled (childNodesOf (tree page))).
Proof.
  split; [reflexivity|].
  apply (ids_address_their_elements Scenarios.detachedStyle Scenarios.twoControlsPage).
  reflexivity.
Defined.

(** [refresh_resolve] at id 2 of the page with two controls. *)
Lemma refresh_resolve_witness :
  let page := refresh Scenarios.detachedStyle Scenarios.twoControlsPage in
  (1 <= 2 <= Z.of_nat (length (mapping page)))%Z
  /\ getElementById (mapping page) 2
     = documentQuerySelectorAll matchesInteractive Scenarios.twoControlsPage
         !! (Z.to_nat 2 - 1)%nat.
Proof.
  intros page.
  assert (H : (1 <= 2 <= Z.of_nat (length (mapping page)))%Z) by (vm_compute; split; discriminate).
  split; [exact H|].
  exact (proj1 (refresh_resolve Scenarios.detachedStyle Scenarios.twoControlsPage 2) H).
Defined.

End AddressingFacts.

Module TreeFacts.
Import JS LLMinify SerializerFacts Tree.

Lemma subtree_element r t attrs kids :
  subtree (Element r t attrs kids) = Element r t attrs kids :: flat_map subtree kids.
Proof. reflexivity. Qed.

Section ShallowPass.

Variable Q : Node -> Prop.
Hypothesis Q_shallow : shallow Q.
Variable f : Node -> list Node.
Hypothesis f_keeps :
  forall n, isElement n = true ->
            Forall Q (subtree n) -> Forall Q (flat_map subtree (f n)).

Lemma pass_keeps_children kids :
  Forall (fun k => Forall Q (subtree k) -> Forall Q (subtree (eachDescendant f k)))
    kids ->
  Forall Q (flat_map subtree kids) ->
  Forall Q (flat_map subtree
              (flat_map (fun k => if isElement k then f (eachDescendant f k) else [k])
                 kids)).
Proof.
  induction 1 as [|k kids Hk _ IH]; [auto|].
  cbn [flat_map]. rewrite flat_map_app. intros H.
  apply Forall_app in H as [Hown Hrest].
  apply Forall_app. split; [|now apply IH].
  destruct (isElement k) eqn:Hel.
  - apply f_keeps; [now rewrite eachDescendant_isElement | now apply Hk].
  - cbn [flat_map]. now rewrite app_nil_r.
Qed.

Lemma pass_keeps_node n : Forall Q (subtree n) -> Forall Q (subtree (eachDescendant f n)).
Proof.
  induction n as [r t attrs kids IH|d|d] using Node_children_ind; [|auto|auto].
  cbn [eachDescendant]. rewrite !subtree_element. intros H.
  apply Forall_cons in H as [Hown Hkids].
  apply Forall_cons. split.
  - revert Hown. apply Q_shallow. now intros ->.
  - now apply pass_keeps_children.
Qed.

Lemma pass_keeps n : Forall Q (below n) -> Forall Q (below (eachDescendant f n)).
Proof.
  unfold below. destruct n as [r t attrs kids|d|d]; [|auto|auto].
  cbn [eachDescendant childNodesOf]. apply pass_keeps_children.
  apply Forall_forall. intros k _. apply pass_keeps_node.
Qed.

End ShallowPass.

(** The bodies of the passes give back the element, the element without
    children, a child of the element, or nothing. *)
Lemma blankElement_keeps Q n :
  shallow Q -> Forall Q (subtree n) -> Forall Q (flat_map subtree (blankElement n)).
Proof.
  intros HQ. destruct n as [r t attrs kids|d|d]; cbn [blankElement flat_map];
    rewrite ?app_nil_r; auto.
  destruct (inList t _); cbn [flat_map]; rewrite ?app_nil_r; [|auto].
  rewrite !subtree_element. intros H. apply Forall_cons in H as [Hown _].
  repeat constructor. revert Hown. now apply HQ.
Qed.

Lemma removeIfHidden_keeps Q style n :
  Forall Q (subtree n) -> Forall Q (flat_map subtree (removeIfHidden style n)).
Proof.
  unfold removeIfHidden. destruct (isHidden style n); cbn [flat_map];
    rewrite ?app_nil_r; auto.
Qed.

Lemma pruneIfEmpty_keeps Q n :
  Forall Q (subtree n) -> Forall Q (flat_map subtree (pruneIfEmpty n)).
Proof.
  destruct n as [r t attrs kids|d|d]; cbn [pruneIfEmpty flat_map];
    rewrite ?app_nil_r; auto.
  repeat (match goal with |- context [if ?b then _ else _] => destruct b end;
          cbn [flat_map]; rewrite ?app_nil_r; auto).
Qed.

Lemma collapseIfWrapper_keeps Q n :
  Forall Q (subtree n) -> Forall Q (flat_map subtree (collapseIfWrapper n)).
Proof.
  destruct n as [r t attrs kids|d|d]; cbn [collapseIfWrapper flat_map];
    rewrite ?app_nil_r; auto.
  destruct (hasAttribute "id" attrs); cbn [flat_map]; rewrite ?app_nil_r; auto.
  destruct (inList t _controlTags); cbn [flat_map]; rewrite ?app_nil_r; auto.
  destruct (List.filter isElement kids) as [|child [|]] eqn:Hkids;
    cbn [flat_map]; rewrite ?app_nil_r; auto.
  destruct (_ && _) eqn:Hcond; cbn [flat_map]; rewrite ?app_nil_r; auto.
  apply andb_true_iff in Hcond as [_ Hlen]. apply Nat.eqb_eq in Hlen.
  destruct kids as [|k [|]]; try discriminate.
  cbn [List.filter] in Hkids. destruct (isElement k); [|discriminate].
  injection Hkids as ->. rewrite subtree_element. cbn [flat_map].
  rewrite app_nil_r. intros H. now apply Forall_cons in H as [_ H].
Qed.

Lemma removeComments_keeps Q n :
  shallow Q -> Forall Q (subtree n) -> Forall Q (subtree (_removeComments n)).
Proof.
  intros HQ.
  induction n as [r t attrs kids IH|d|d] using Node_children_ind; [|auto|auto].
  cbn [_removeComments]. rewrite !subtree_element. intros H.
  apply Forall_cons in H as [Hown Hkids]. apply Forall_cons. split.
  - revert Hown. apply HQ. now intros ->.
  - clear Hown. induction IH as [|k kids Hk _ IHkids]; [constructor|].
    cbn [flat_map] in *. apply Forall_app in Hkids as [Hk1 Hrest].
    rewrite flat_map_app. apply Forall_app. split; [|now apply IHkids].
    destruct (isComment k); cbn [flat_map]; rewrite ?app_nil_r; [constructor|].
    now apply Hk.
Qed.

Lemma removeComments_below Q n :
  shallow Q -> Forall Q (below n) -> Forall Q (below (_removeComments n)).
Proof.
  intros HQ. unfold below. destruct n as [r t attrs kids|d|d]; [|auto|auto].
  cbn [_removeComments childNodesOf].
  induction kids as [|k kids IH]; [auto|].
  cbn [flat_map]. intros H. apply Forall_app in H as [Hk Hrest].
  rewrite flat_map_app. apply Forall_app. split; [|now apply IH].
  destruct (isComment k); cbn [flat_map]; rewrite ?app_nil_r; [constructor|].
  now apply removeComments_keeps.
Qed.

(** Steps 5 to 9 keep a shallow property of the nodes below the root. *)
Lemma later_steps_keep Q style clone :
  shallow Q ->
  Forall Q (below clone) ->
  Forall Q (below
              (_collapseSingleChildWrappers
                 (_pruneEmptyNodes
                    (_removeHiddenElements style
                       (_removeComments (eachDescendant blankElement clone)))))).
Proof.
  intros HQ H.
  apply pass_keeps; [exact HQ | intros; now apply collapseIfWrapper_keeps|].
  apply pass_keeps; [exact HQ | intros; now apply pruneIfEmpty_keeps|].
  apply pass_keeps; [exact HQ | intros; now apply removeIfHidden_keeps|].
  apply removeComments_below; [exact HQ|].
  apply pass_keeps; [exact HQ | intros; now apply blankElement_keeps | exact H].
Qed.

(** *** Step 3 *)

Lemma keepAttribute_event t a v :
  In a interactiveAttrs -> keepAttribute t (a, v) = false.
Proof.
  intros H. cbn in H.
  repeat (destruct H as [<- | H]; [reflexivity|]). destruct H.
Qed.

Lemma getAttribute_dropped name t attrs :
  (forall v, keepAttribute t (name, v) = false) ->
  getAttribute name (List.filter (keepAttribute t) attrs) = None.
Proof.
  intros Hdrop. induction attrs as [|[k x] attrs IH]; cbn [List.filter]; [reflexivity|].
  destruct (keepAttribute t (k, x)) eqn:Hkeep; [|exact IH].
  cbn [getAttribute]. destruct (String.eqb_spec k name) as [->|_]; [|exact IH].
  rewrite Hdrop in Hkeep. discriminate.
Qed.

Lemma stripElement_stripped r t attrs kids :
  stripped (Element r t (List.filter (keepAttribute t) attrs) kids).
Proof.
  intros _. unfold hasId, hasAttribute. cbn [attributesOf tagNameOf].
  rewrite stripped_no_id. split; [reflexivity|]. split.
  - apply not_true_is_false. intros H. apply existsb_exists in H as (a & Hin & Ha).
    rewrite getAttribute_dropped in Ha; [discriminate|].
    intros v. now apply keepAttribute_event.
  - apply Forall_forall. intros a Ha. apply list_elem_of_In, filter_In in Ha. apply Ha.
Qed.

Lemma stripped_shallow : shallow stripped.
Proof. intros r t attrs kids kids' _ H. exact H. Qed.

Lemma stripAttributes_node n :
  isElement n = true ->
  Forall stripped (flat_map subtree (stripElement (eachDescendant stripElement n))).
Proof.
  induction n as [r t attrs kids IH|d|d] using Node_children_ind;
    [|discriminate|discriminate].
  intros _. cbn [eachDescendant stripElement flat_map]. rewrite app_nil_r.
  rewrite subtree_element. apply Forall_cons. split; [apply stripElement_stripped|].
  induction IH as [|k kids Hk _ IHkids]; [constructor|].
  cbn [flat_map]. rewrite flat_map_app. apply Forall_app. split; [|exact IHkids].
  destruct (isElement k) eqn:Hel; [now apply Hk|].
  destruct k; [discriminate| |]; repeat constructor; discriminate.
Qed.

Lemma stripAttributes_stripped n : Forall stripped (below (_stripAttributes n)).
Proof.
  unfold below, _stripAttributes. destruct n as [r t attrs kids|d|d];
    [|constructor|constructor].
  cbn [eachDescendant childNodesOf].
  induction kids as [|k kids IH]; [constructor|].
  cbn [flat_map]. rewrite flat_map_app. apply Forall_app. split; [|exact IH].
  destruct (isElement k) eqn:Hel; [now apply stripAttributes_node|].
  destruct k; [discriminate| |]; repeat constructor; discriminate.
Qed.

(** *** Step 4 *)

Lemma setAttribute_rule t name v attrs :
  Forall (fun a => keepAttribute t a = true) attrs ->
  Forall (fun a => fst a = name \/ keepAttribute t a = true)
    (setAttribute name v attrs).
Proof.
  induction 1 as [|[k x] attrs Ha Hrest IH]; cbn [setAttribute].
  - repeat constructor.
  - destruct (String.eqb_spec k name) as [->|_]; constructor; cbn; auto.
    eapply Forall_impl; [exact Hrest|]. cbn. auto.
Qed.

Lemma numberList_rules kids :
  Forall (fun k => Forall stripped (subtree k) ->
                   forall c, Forall (fun n => idRule n /\ attributeRule n)
                               (subtree (snd (numberNode c k)))) kids ->
  Forall stripped (flat_map subtree kids) ->
  forall c, Forall (fun n => idRule n /\ attributeRule n)
              (flat_map subtree (snd (numberList c kids))).
Proof.
  induction 1 as [|k rest Hk _ IH]; intros Hs c; cbn [numberList]; [constructor|].
  cbn [flat_map] in Hs. apply Forall_app in Hs as [Hown Hrest].
  specialize (Hk Hown c). destruct (numberNode c k) as [c1 k']. cbn [snd] in Hk.
  specialize (IH Hrest c1). destruct (numberList c1 rest) as [c2 rest'].
  cbn [snd flat_map] in *. apply Forall_app. split; assumption.
Qed.

Lemma numberNode_rules n :
  Forall stripped (subtree n) ->
  forall c, Forall (fun n => idRule n /\ attributeRule n)
              (subtree (snd (numberNode c n))).
Proof.
  induction n as [r t attrs kids IH|d|d] using Node_children_ind.
  2,3: intros _ c; repeat constructor; discriminate.
  rewrite subtree_element. intros H c. apply Forall_cons in H as [Hown Hkids].
  destruct (Hown eq_refl) as (Hid & Hevents & Hattrs).
  unfold hasId in Hid. cbn [attributesOf tagNameOf] in Hid, Hevents, Hattrs.
  rewrite numberNode_element. cbn zeta. cbn [matchesInteractive].
  rewrite Hevents, orb_false_r.
  pose proof (numberList_rules kids IH Hkids) as Hl.
  destruct (inList t interactiveTags) eqn:Htag.
  - specialize (Hl (S c)). destruct (numberList (S c) kids) as [c' kids'].
    cbn [snd] in *. rewrite subtree_element. apply Forall_cons. split; [|exact Hl].
    split.
    + intros _. unfold hasId, hasAttribute. cbn [attributesOf tagNameOf].
      now rewrite getAttribute_setAttribute, Htag.
    + unfold attributeRule. cbn [attributesOf tagNameOf].
      now apply setAttribute_rule.
  - specialize (Hl c). destruct (numberList c kids) as [c' kids'].
    cbn [snd] in *. rewrite subtree_element. apply Forall_cons. split; [|exact Hl].
    split.
    + intros _. unfold hasId. cbn [attributesOf tagNameOf]. now rewrite Hid, Htag.
    + unfold attributeRule. cbn [attributesOf tagNameOf].
      eapply Forall_impl; [exact Hattrs|]. cbn. auto.
Qed.

Lemma numberDescendants_rules clone :
  Forall stripped (below clone) ->
  Forall (fun n => idRule n /\ attributeRule n) (below (numberDescendants clone)).
Proof.
  unfold below. destruct clone as [r t attrs kids|d|d]; [|constructor|constructor].
  cbn [childNodesOf numberDescendants]. intros H.
  apply numberList_rules; [|exact H].
  apply Forall_forall. intros k _. apply numberNode_rules.
Qed.

Lemma rules_shallow : shallow (fun n => idRule n /\ attributeRule n).
Proof. intros r t attrs kids kids' _ H. exact H. Qed.

(** X13: in the tree that is serialized, for every document, an element
    below the root carries an [id] exactly when one of the six type
    selectors selects it, that is, when its [tagName] is one of
    [interactiveTags]: an HTML [input], [button], [select], [textarea],
    [option] or [a], or an element of another namespace with one of these
    names, such as a link of SVG. And each of its attributes is [id] or one
    that the strip step keeps ([value] on a control, [checked] on an input,
    [selected] on an option). *)
Theorem serialized_elements_shape style documentElement :
  let page := refresh style documentElement in
  Forall (fun n =>
            hasId n = inList (tagNameOf n) interactiveTags
            /\ Forall (fun a => fst a = "id" \/ keepAttribute (tagNameOf n) a = true)
                 (attributesOf n))
    (List.filter isElement (below (tree page))).
Proof.
  intros page. subst page. unfold refresh, _assignElementIds. cbn [tree].
  match goal with |- Forall _ (List.filter isElement ?l) =>
    assert (H : Forall (fun n => idRule n /\ attributeRule n) l) end.
  { apply later_steps_keep;
      [apply rules_shallow
      |apply numberDescendants_rules, stripAttributes_stripped]. }
  apply Forall_forall. intros n Hn. apply list_elem_of_In, filter_In in Hn as [Hin Hel].
  rewrite Forall_forall in H. apply list_elem_of_In, H in Hin as [Hid Hattrs].
  split; [now apply Hid | exact Hattrs].
Qed.

(** *** Comments and emptied elements *)

Lemma isBlanked_plain n :
  isBlanked n = true ->
  inList (tagNameOf n) interactiveTags = false
  /\ inList (tagNameOf n) _controlTags = false
  /\ String.eqb (tagNameOf n) "A" = false.
Proof.
  unfold isBlanked. intros H. cbn in H.
  repeat (apply orb_true_iff in H as [H | H];
          [apply String.eqb_eq in H; rewrite H; repeat split; reflexivity|]).
  discriminate.
Qed.

Lemma blanked_shallow Q : shallow Q -> shallow (fun n => Q n /\ blanked n).
Proof.
  intros HQ r t attrs kids kids' Hk [H1 H2]. split; [revert H1; now apply HQ|].
  intros Hb. destruct (H2 Hb) as [Hnil Hid]. cbn [childNodesOf] in *.
  split; [now apply Hk | exact Hid].
Qed.

Section EstablishingPass.

Variables P Q : Node -> Prop.
Hypothesis P_shallow : shallow P.
Variable f : Node -> list Node.
Hypothesis f_gives :
  forall r t attrs kids,
    P (Element r t attrs kids) ->
    Forall Q (flat_map subtree kids) ->
    Forall Q (flat_map subtree (f (Element r t attrs kids))).
Hypothesis other_nodes : forall n, isElement n = false -> P n -> Q n.

Lemma pass_gives_children kids :
  Forall (fun k => isElement k = true -> Forall P (subtree k) ->
                   Forall Q (flat_map subtree (f (eachDescendant f k)))) kids ->
  Forall P (flat_map subtree kids) ->
  Forall Q (flat_map subtree
              (flat_map (fun k => if isElement k then f (eachDescendant f k) else [k])
                 kids)).
Proof.
  induction 1 as [|k kids Hk _ IH]; [auto|].
  cbn [flat_map]. rewrite flat_map_app. intros H.
  apply Forall_app in H as [Hown Hrest].
  apply Forall_app. split; [|now apply IH].
  destruct (isElement k) eqn:Hel; [now apply Hk|].
  cbn [flat_map]. rewrite app_nil_r.
  destruct k; [discriminate| |]; cbn [subtree] in *;
    apply Forall_cons in Hown as [Hown _]; repeat constructor;
    now apply other_nodes.
Qed.

Lemma pass_gives_node n :
  isElement n = true -> Forall P (subtree n) ->
  Forall Q (flat_map subtree (f (eachDescendant f n))).
Proof.
  induction n as [r t attrs kids IH|d|d] using Node_children_ind;
    [|discriminate|discriminate].
  intros _. rewrite subtree_element. intros H.
  apply Forall_cons in H as [Hown Hkids].
  cbn [eachDescendant]. apply f_gives.
  - revert Hown. apply P_shallow. now intros ->.
  - now apply pass_gives_children.
Qed.

Lemma pass_gives n : Forall P (below n) -> Forall Q (below (eachDescendant f n)).
Proof.
  unfold below. destruct n as [r t attrs kids|d|d]; [|auto|auto].
  cbn [eachDescendant childNodesOf]. apply pass_gives_children.
  apply Forall_forall. intros k _. apply pass_gives_node.
Qed.

End EstablishingPass.

Lemma idRule_shallow : shallow idRule.
Proof. intros r t attrs kids kids' _ H. exact H. Qed.

(** Step 5 leaves the emptied elements without children; they have no [id]
    because their tags are none of the six. *)
Lemma blank_gives clone :
  Forall idRule (below clone) ->
  Forall (fun n => idRule n /\ blanked n) (below (eachDescendant blankElement clone)).
Proof.
  apply pass_gives; [apply idRule_shallow| |].
  - intros r t attrs kids Hid Hkids. unfold blankElement.
    destruct (inList t blankedTags) eqn:Hb;
      cbn [flat_map]; rewrite app_nil_r, subtree_element.
    + constructor; [|constructor]. split; [exact Hid|].
      intros _. split; [reflexivity|].
      change (hasId (Element r t attrs [])) with (hasId (Element r t attrs kids)).
      rewrite (Hid eq_refl). now apply (isBlanked_plain (Element r t attrs kids)).
    + constructor; [|exact Hkids]. split; [exact Hid|].
      unfold blanked, isBlanked. cbn [tagNameOf]. rewrite Hb. discriminate.
  - intros n Hel _. split; [intros H; congruence|].
    destruct n; [discriminate| |]; intros H; discriminate.
Qed.

(** Step 6 leaves no comment. *)
Lemma removeComments_gives Q n :
  shallow Q ->
  Forall Q (subtree n) -> isComment n = false ->
  Forall (fun n => Q n /\ isComment n = false) (subtree (_removeComments n)).
Proof.
  intros HQ.
  induction n as [r t attrs kids IH|d|d] using Node_children_ind.
  - cbn [_removeComments]. rewrite !subtree_element. intros H _.
    apply Forall_cons in H as [Hown Hkids]. apply Forall_cons. split.
    + split; [|reflexivity]. revert Hown. apply HQ. now intros ->.
    + clear Hown. induction IH as [|k kids Hk _ IHkids]; [constructor|].
      cbn [flat_map] in *. apply Forall_app in Hkids as [Hk1 Hrest].
      rewrite flat_map_app. apply Forall_app. split; [|now apply IHkids].
      destruct (isComment k) eqn:Hc; cbn [flat_map]; rewrite ?app_nil_r;
        [constructor|]. now apply Hk.
  - intros H _. cbn in *. apply Forall_cons in H as [H _]. repeat constructor. exact H.
  - discriminate.
Qed.

Lemma removeComments_below_gives Q n :
  shallow Q ->
  Forall Q (below n) ->
  Forall (fun n => Q n /\ isComment n = false) (below (_removeComments n)).
Proof.
  intros HQ. unfold below. destruct n as [r t attrs kids|d|d];
    [|constructor|constructor].
  cbn [_removeComments childNodesOf].
  induction kids as [|k kids IH]; [constructor|].
  cbn [flat_map]. intros H. apply Forall_app in H as [Hk Hrest].
  rewrite flat_map_app. apply Forall_app. split; [|now apply IH].
  destruct (isComment k) eqn:Hc; cbn [flat_map]; rewrite ?app_nil_r; [constructor|].
  now apply removeComments_gives.
Qed.

(** Step 8 removes the emptied elements. *)
Lemma prune_gives clone :
  Forall (fun n => (idRule n /\ blanked n) /\ isComment n = false) (below clone) ->
  Forall (fun n => isComment n = false /\ isBlanked n = false)
    (below (_pruneEmptyNodes clone)).
Proof.
  apply pass_gives.
  - intros r t attrs kids kids' Hk [HB Hc]. split; [|exact Hc].
    revert HB. now apply (blanked_shallow idRule idRule_shallow).
  - intros r t attrs kids [[Hid Hblank] _] Hkids.
    destruct (isBlanked (Element r t attrs kids)) eqn:Hb.
    + destruct (Hblank Hb) as [Hnil Hno]. cbn [childNodesOf] in Hnil. subst kids.
      destruct (isBlanked_plain _ Hb) as (_ & Hcontrol & Ha).
      unfold hasId in Hno. cbn [attributesOf tagNameOf] in *.
      unfold pruneIfEmpty. rewrite Hno, Hcontrol, Ha. cbn. constructor.
    + assert (Hself : Forall (fun n => isComment n = false /\ isBlanked n = false)
                        (subtree (Element r t attrs kids))).
      { rewrite subtree_element. constructor; [split; [reflexivity | exact Hb]|].
        exact Hkids. }
      now apply pruneIfEmpty_keeps.
  - intros n Hel [_ Hc]. split; [exact Hc|]. destruct n; [discriminate| |]; reflexivity.
Qed.

Lemma clean_shallow : shallow (fun n => isComment n = false /\ isBlanked n = false).
Proof. intros r t attrs kids kids' _ H. exact H. Qed.

(** X14: for every document, the tree that is serialized has, below its
    root, no comment and no [script], [noscript] or [style] element. *)
Theorem serialized_tree_is_clean style documentElement :
  let page := refresh style documentElement in
  Forall (fun n => isComment n = false /\ isBlanked n = false) (below (tree page)).
Proof.
  intros page. subst page. unfold refresh, _assignElementIds. cbn [tree].
  apply pass_keeps; [apply clean_shallow | intros; now apply collapseIfWrapper_keeps|].
  apply prune_gives.
  apply pass_keeps;
    [|intros; now apply removeIfHidden_keeps|].
  { intros r t attrs kids kids' Hk [HB Hc]. split; [|exact Hc].
    revert HB. now apply (blanked_shallow idRule idRule_shallow). }
  apply removeComments_below_gives; [apply (blanked_shallow idRule idRule_shallow)|].
  apply blank_gives.
  eapply Forall_impl;
    [apply numberDescendants_rules, stripAttributes_stripped|].
  cbn. intros n [H _]. exact H.
Qed.

End TreeFacts.

Module HidingFacts.
Import JS LLMinify SerializerFacts Tree TreeFacts Hiding.

Lemma getAttribute_In name attrs v :
  getAttribute name attrs = Some v -> In (name, v) attrs.
Proof.
  induction attrs as [|[k x] attrs IH]; cbn [getAttribute]; [discriminate|].
  destruct (String.eqb_spec k name) as [->|_].
  - intros H. injection H as ->. now left.
  - intros H. right. now apply IH.
Qed.

Lemma attributeRule_absent n name :
  attributeRule n ->
  name <> "id" ->
  (forall t v, keepAttribute t (name, v) = false) ->
  getAttribute name (attributesOf n) = None.
Proof.
  intros Hrule Hid Hdrop.
  destruct (getAttribute name (attributesOf n)) as [v|] eqn:Hget; [|reflexivity].
  apply getAttribute_In in Hget. unfold attributeRule in Hrule.
  rewrite Forall_forall in Hrule. apply list_elem_of_In, Hrule in Hget.
  cbn [fst] in Hget. destruct Hget as [Hget | Hget]; [contradiction|].
  rewrite Hdrop in Hget. discriminate.
Qed.

(** On the clone the attribute tests of step 7 find nothing. *)
Lemma isHidden_by_style style n :
  attributeRule n ->
  isHidden style n
  = String.eqb (fst (style n)) "none" || String.eqb (snd (style n)) "hidden".
Proof.
  intros Hrule. unfold isHidden, hasAttribute.
  rewrite (attributeRule_absent n "hidden" Hrule) by (discriminate || reflexivity).
  rewrite (attributeRule_absent n "aria-hidden" Hrule) by (discriminate || reflexivity).
  rewrite (attributeRule_absent n "role" Hrule) by (discriminate || reflexivity).
  reflexivity.
Qed.

Lemma eachDescendant_fixed f :
  forall n,
    Forall (fun k => isElement k = true -> f k = [k]) (subtree n) ->
    eachDescendant f n = n.
Proof.
  induction n as [r t attrs kids IH|d|d] using Node_children_ind;
    [|reflexivity|reflexivity].
  rewrite subtree_element. intros H. apply Forall_cons in H as [_ Hkids].
  cbn [eachDescendant]. f_equal.
  induction IH as [|k kids Hk _ IHkids]; [reflexivity|].
  cbn [flat_map] in *. apply Forall_app in Hkids as [Hown Hrest].
  rewrite (IHkids Hrest). rewrite (Hk Hown).
  destruct (isElement k) eqn:Hel; [|reflexivity].
  destruct k as [r' t' attrs' kids'|d|d]; [|discriminate|discriminate].
  rewrite subtree_element in Hown. apply Forall_cons in Hown as [Hself _].
  now rewrite (Hself eq_refl).
Qed.

Lemma eachDescendant_fixed_below f n :
  Forall (fun k => isElement k = true -> f k = [k]) (below n) ->
  eachDescendant f n = n.
Proof.
  unfold below. destruct n as [r t attrs kids|d|d]; [|reflexivity|reflexivity].
  cbn [childNodesOf eachDescendant]. intros H. f_equal.
  induction kids as [|k kids IH]; [reflexivity|].
  cbn [flat_map] in *. apply Forall_app in H as [Hown Hrest].
  rewrite (IH Hrest). rewrite (eachDescendant_fixed f k Hown).
  destruct (isElement k) eqn:Hel; [|reflexivity].
  destruct k as [r' t' attrs' kids'|d|d]; [|discriminate|discriminate].
  rewrite subtree_element in Hown. apply Forall_cons in Hown as [Hself _].
  now rewrite (Hself eq_refl).
Qed.

Lemma beforeHiding_rules documentElement :
  Forall (fun n => idRule n /\ attributeRule n) (below (beforeHiding documentElement)).
Proof.
  unfold beforeHiding, _assignElementIds. cbn [snd].
  apply removeComments_below; [apply rules_shallow|].
  apply pass_keeps; [apply rules_shallow | intros; now apply blankElement_keeps
                    | apply numberDescendants_rules, stripAttributes_stripped].
Qed.

(** X23: step 7 removes no element because of its attributes. On the clone
    the attributes [hidden], [aria-hidden] and [role] are gone since step 3,
    so with a computed style that shows every element of the clone neither
    as [display: none] nor as [visibility: hidden] the step leaves the tree
    as it is, and the tree that is serialized is the prune and the collapse
    of the tree of step 6. *)
Theorem hidden_attributes_remove_nothing style documentElement :
  (forall n, String.eqb (fst (style n)) "none" = false
             /\ String.eqb (snd (style n)) "hidden" = false) ->
  _removeHiddenElements style (beforeHiding documentElement)
  = beforeHiding documentElement
  /\ tree (refresh style documentElement)
     = _collapseSingleChildWrappers (_pruneEmptyNodes (beforeHiding documentElement)).
Proof.
  intros Hstyle.
  assert (H : _removeHiddenElements style (beforeHiding documentElement)
              = beforeHiding documentElement).
  { apply eachDescendant_fixed_below.
    eapply Forall_impl; [apply beforeHiding_rules|].
    cbn. intros n [_ Hrule] _. unfold removeIfHidden.
    rewrite (isHidden_by_style style n Hrule).
    destruct (Hstyle n) as [-> ->]. reflexivity. }
  split; [exact H|].
  change (tree (refresh style documentElement))
    with (_collapseSingleChildWrappers
            (_pruneEmptyNodes
               (_removeHiddenElements style (beforeHiding documentElement)))).
  now rewrite H.
Qed.

(** The parts of a page that are hidden by attribute are serialized. *)
Lemma hidden_attributes_remove_nothing_witness :
  tree (refresh Scenarios.detachedStyle hiddenPartsPage)
  = _collapseSingleChildWrappers (_pruneEmptyNodes (beforeHiding hiddenPartsPage))
  /\ tree (refresh Scenarios.detachedStyle hiddenPartsPage)
     = Element (Copy 0) "HTML" []
         [Element (Copy 1) "BODY" []
            [Element (Copy 2) "DIV" [] [Text "secret"];
             Element (Copy 3) "P" [] [Text "more"]]].
Proof.
  split; [|reflexivity].
  apply (hidden_attributes_remove_nothing Scenarios.detachedStyle hiddenPartsPage).
  intros n. split; reflexivity.
Defined.

End HidingFacts.

From Stdlib Require DecimalNat DecimalFacts.

Module DistinctFacts.
Import JS LLMinify SerializerFacts.

Section SublistPass.

Variable f : Node -> list Node.
Hypothesis f_sublist :
  forall n, isElement n = true -> sublist (idValues (f n)) (idValues [n]).

Lemma pass_children_sublist kids :
  Forall (fun k => sublist (idValues [eachDescendant f k]) (idValues [k])) kids ->
  sublist (idValues
             (flat_map (fun k => if isElement k then f (eachDescendant f k) else [k])
                kids))
          (idValues kids).
Proof.
  induction 1 as [|k kids Hk _ IH]; [reflexivity|].
  cbn [flat_map]. rewrite idValues_app, (idValues_cons k).
  apply sublist_app; [|exact IH].
  destruct (isElement k) eqn:Hel; [|reflexivity].
  etransitivity; [apply f_sublist; now rewrite eachDescendant_isElement | exact Hk].
Qed.

Lemma pass_node_sublist n : sublist (idValues [eachDescendant f n]) (idValues [n]).
Proof.
  induction n as [r t attrs kids IH|d|d] using Node_children_ind;
    [|reflexivity|reflexivity].
  cbn [eachDescendant]. rewrite !idValues_element.
  apply sublist_app; [reflexivity | now apply pass_children_sublist].
Qed.

Lemma pass_sublist n :
  sublist (idValues (childNodesOf (eachDescendant f n))) (idValues (childNodesOf n)).
Proof.
  destruct n as [r t attrs kids|d|d]; [|reflexivity|reflexivity].
  cbn [eachDescendant childNodesOf]. apply pass_children_sublist.
  apply Forall_forall. intros k _. apply pass_node_sublist.
Qed.

End SublistPass.

Lemma sublist_of_eq {A} (l1 l2 : list A) : l1 = l2 -> sublist l1 l2.
Proof. now intros ->. Qed.

Lemma blankElement_sublist n : sublist (idValues (blankElement n)) (idValues [n]).
Proof.
  destruct n as [r t attrs kids|d|d]; [|reflexivity|reflexivity].
  unfold blankElement. destruct (inList t _); [|reflexivity].
  rewrite !idValues_element. apply sublist_app; [reflexivity|].
  apply sublist_nil_l.
Qed.

Lemma removeIfHidden_sublist style n :
  sublist (idValues (removeIfHidden style n)) (idValues [n]).
Proof.
  unfold removeIfHidden. destruct (isHidden style n); [|reflexivity].
  apply sublist_nil_l.
Qed.

Lemma pruneIfEmpty_sublist n : sublist (idValues (pruneIfEmpty n)) (idValues [n]).
Proof.
  apply sublist_of_eq. now rewrite !idValues_labelled, pruneIfEmpty_labelled.
Qed.

Lemma collapseIfWrapper_sublist n :
  sublist (idValues (collapseIfWrapper n)) (idValues [n]).
Proof.
  apply sublist_of_eq. now rewrite !idValues_labelled, collapseIfWrapper_labelled.
Qed.

Lemma idText_inj a b : idText a = idText b -> a = b.
Proof.
  assert (Hnonnil : forall n, Nat.to_uint n <> Decimal.Nil).
  { intros n. pose proof (DecimalNat.Unsigned.to_of (Nat.to_uint n)) as E.
    rewrite DecimalNat.Unsigned.of_to in E. rewrite E. apply DecimalFacts.unorm_nonnil. }
  unfold idText. intros H.
  apply (f_equal NilZero.uint_of_string) in H.
  rewrite !NilZero.usu in H by apply Hnonnil.
  injection H as H. now apply DecimalNat.Unsigned.to_uint_inj.
Qed.

(** X24: the [id] attributes below the root of the tree that is serialized
    are the texts of distinct numbers between 1 and the size of the mapping,
    in increasing order: no two elements share an [id]. *)
Theorem serialized_ids_are_distinct style documentElement :
  let page := refresh style documentElement in
  NoDup (idValues (childNodesOf (tree page)))
  /\ sublist (idValues (childNodesOf (tree page)))
       (List.map idText (seq 1 (length (mapping page)))).
Proof.
  intros page. subst page. unfold refresh, _assignElementIds.
  cbn [mapping tree]. unfold buildMapping.
  rewrite mappingFrom_length, querySelectorAll_length.
  set (clone := _stripAttributes (cloneNode documentElement)).
  match goal with |- NoDup ?l /\ _ =>
    assert (H : sublist l (List.map idText (seq 1 (interactiveCount (childNodesOf clone)))))
  end.
  { etransitivity;
      [apply (pass_sublist _ (fun n _ => collapseIfWrapper_sublist n))|].
    etransitivity;
      [apply (pass_sublist _ (fun n _ => pruneIfEmpty_sublist n))|].
    etransitivity;
      [apply (pass_sublist _ (fun n _ => removeIfHidden_sublist style n))|].
    rewrite removeComments_children.
    etransitivity;
      [apply (pass_sublist _ (fun n _ => blankElement_sublist n))|].
    rewrite numberDescendants_idValues by apply stripAttributes_idValues.
    reflexivity. }
  split; [|exact H].
  eapply sublist_NoDup; [|exact H].
  apply (NoDup_fmap_2_strong idText); [|apply NoDup_seq].
  intros a b _ _. apply idText_inj.
Qed.

End DistinctFacts.

(** * Properties of the page tools *)

Module ToolFacts.
Import JS Tools ContentScript ContentScriptApi AutomationTools.

Section WithBrowser.

Context {dom : Dom} {browser : Browser}.

Lemma catch_resolves {A} (p : Promise A) (k : string -> A) w outcome w' :
  catch p (fun message => resolve (k message)) w = Some (outcome, w') ->
  (exists a, outcome = Ok a /\ p w = Some (Ok a, w'))
  \/ (exists message w1, outcome = Ok (k message) /\ p w = Some (Err message, w1)).
Proof.
  unfold catch, resolve. destruct (p w) as [[[a|message] w1]|]; [| |discriminate].
  - intros H. injection H as <- <-. left. eauto.
  - intros H. injection H as <- <-. right. eauto.
Qed.

Lemma await_Ok {A B} (p : Promise A) (k : A -> Promise B) w b w' :
  await p k w = Some (Ok b, w') ->
  exists a w1, p w = Some (Ok a, w1) /\ k a w1 = Some (Ok b, w').
Proof.
  unfold await. destruct (p w) as [[[a|message] w1]|]; [| |discriminate].
  - intros H. eauto.
  - discriminate.
Qed.

(** The listener has no branch for [getElementInfo]. *)
Lemma getElementInfo_rejected id w v w' :
  sendMessageToContentScript (mkRequest "getElementInfo" id Undefined Undefined) w
  <> Some (Ok v, w').
Proof.
  unfold sendMessageToContentScript. destruct (activeTab w); [|discriminate].
  destruct (sendError w); [discriminate|]. cbn. discriminate.
Qed.

Lemma checkPageReady_complete patience w :
  (forall w, tabStatus w = "complete") ->
  checkPageReady (S patience) w = Some (Ok tt, elapse 1000 w).
Proof. intros H. cbn [checkPageReady]. now rewrite H. Qed.

Lemma waitForPageReady_complete patience w :
  (forall w, tabStatus w = "complete") ->
  exists w', waitForPageReady (S patience) w = Some (Ok tt, w').
Proof.
  intros H. unfold waitForPageReady. destruct (activeTab w); [|eauto].
  rewrite checkPageReady_complete by exact H. eauto.
Qed.

Lemma sendMessage_settles request w :
  exists outcome w', sendMessageToContentScript request w = Some (outcome, w').
Proof.
  unfold sendMessageToContentScript. destruct (activeTab w); [|eauto].
  destruct (sendError w); [eauto|].
  destruct (onMessage request (script w)) as [[v|message] s]; [eauto|].
  destruct (truthyStr message); eauto.
Qed.

Lemma InputText_outcome patience args w outcome w' :
  InputText patience args w = Some (outcome, w') ->
  exists message, outcome = Ok ("Error inputting text: " ++ message)%string.
Proof.
  intros H. unfold InputText in H.
  apply catch_resolves in H as [(a & -> & H) | (message & w1 & -> & _)]; [|eauto].
  exfalso.
  apply await_Ok in H as (id & w1 & _ & H).
  apply await_Ok in H as (result & w2 & _ & H).
  apply await_Ok in H as (u1 & w3 & _ & H).
  apply await_Ok in H as (u2 & w4 & _ & H).
  apply await_Ok in H as (info & w5 & Hinfo & _).
  now apply getElementInfo_rejected in Hinfo.
Qed.

Lemma InputText_settles patience args w :
  (forall w, tabStatus w = "complete") ->
  exists outcome w', InputText (S patience) args w = Some (outcome, w').
Proof.
  intros Hready. unfold InputText, catch, await at 1.
  destruct (destructure "id" args w) as [[[id|message] w1]|] eqn:Hd.
  3:{ destruct args; discriminate. }
  2:{ unfold resolve. eauto. }
  unfold await at 1.
  destruct (sendMessage_settles
              (mkRequest "inputText" id
                 match args with
                 | Object props => getProp "text" props
                 | _ => Undefined
                 end Undefined) w1) as ([result|message] & w2 & ->);
    [|unfold resolve; eauto].
  unfold await at 1, waitFor. unfold await at 1.
  destruct (waitForPageReady_complete patience (elapse 200 w2) Hready) as [w3 ->].
  unfold await at 1.
  destruct (sendMessage_settles (mkRequest "getElementInfo" id Undefined Undefined) w3)
    as ([info|message] & w4 & Hinfo).
  - now apply getElementInfo_rejected in Hinfo.
  - rewrite Hinfo. unfold resolve. eauto.
Qed.

(** X19: [InputText] never returns its confirmation. Whenever the promise of
    the implementation settles, it is resolved with a text that begins with
    ['Error inputting text: '], also when the content script has entered the
    text: the message [getElementInfo] that follows is one the listener does
    not know. And the promise does settle when the tab has finished loading,
    for every argument and every browser. *)
Theorem InputText_never_confirms (patience : nat) (args : Value) (w : Tabs) :
  (forall outcome w',
     InputText patience args w = Some (outcome, w') ->
     exists message, outcome = Ok ("Error inputting text: " ++ message)%string)
  /\ ((forall w, tabStatus w = "complete") ->
      exists outcome w', InputText (S patience) args w = Some (outcome, w')).
Proof.
  split; [apply InputText_outcome | apply InputText_settles].
Qed.

(** *** What the page tools return *)

Lemma startsWithOneOf_app letters s rest :
  startsWithOneOf letters s = true -> startsWithOneOf letters (s ++ rest) = true.
Proof. destruct s; [discriminate | exact (fun H => H)]. Qed.

Lemma catch_initial (p : Promise string) (prefix : string) w outcome w' :
  startsWithOneOf toolInitials prefix = true ->
  (forall r w1, p w = Some (Ok r, w1) -> startsWithOneOf toolInitials r = true) ->
  catch p (fun message => resolve (prefix ++ message)%string) w = Some (outcome, w') ->
  exists r, outcome = Ok r /\ startsWithOneOf toolInitials r = true.
Proof.
  intros Hprefix Hp H.
  apply catch_resolves in H as [(r & -> & H) | (message & w1 & -> & _)].
  - exists r. split; [reflexivity | now apply Hp in H].
  - eexists. split; [reflexivity | now apply startsWithOneOf_app].
Qed.

Lemma navigateToUrl_initial patience url w r w' :
  navigateToUrl patience url w = Some (Ok r, w') ->
  startsWithOneOf toolInitials r = true.
Proof.
  unfold navigateToUrl. destruct (activeTab w); [|discriminate].
  destruct (update url w) as [[[message|] w1]|]; [discriminate| |discriminate].
  intros H. apply catch_resolves in H as [(a & E & H) | (message & w2 & E & _)];
    injection E as ->; [|reflexivity].
  apply await_Ok in H as (u & w2 & _ & H). injection H as <- _. reflexivity.
Qed.

Lemma clickElement_initial id w v w' :
  sendMessageToContentScript (mkRequest "clickElement" id Undefined Undefined) w
  = Some (Ok v, w') ->
  startsWithOneOf toolInitials (toString v) = true.
Proof.
  unfold sendMessageToContentScript. destruct (activeTab w); [|discriminate].
  destruct (sendError w); [discriminate|].
  unfold onMessage. cbn [action r_id String.eqb Ascii.eqb Bool.eqb andb].
  destruct (benderPage (script w)) as [mapping|]; [|discriminate].
  destruct (getElementByIdOf mapping id); intros H; injection H as <- _; reflexivity.
Qed.

Lemma goBack_initial w v w' :
  sendMessageToContentScript (mkRequest "goBack" Undefined Undefined Undefined) w
  = Some (Ok v, w') ->
  startsWithOneOf toolInitials (toString v) = true.
Proof.
  unfold sendMessageToContentScript. destruct (activeTab w); [|discriminate].
  destruct (sendError w); [discriminate|].
  unfold onMessage. cbn [action String.eqb Ascii.eqb Bool.eqb andb].
  intros H; injection H as <- _; reflexivity.
Qed.

Lemma implementation_initial name patience args p w outcome w' :
  implementation name patience args = Some p ->
  p w = Some (outcome, w') ->
  exists r, outcome = Ok r /\ startsWithOneOf toolInitials r = true.
Proof.
  unfold implementation.
  repeat match goal with
         | |- context [if String.eqb name ?x then _ else _] =>
             destruct (String.eqb name x)
         end;
    intros Hp; [ | | | | |discriminate]; injection Hp as <-.
  - apply catch_initial; [reflexivity|]. intros r w1 H.
    apply await_Ok in H as (url & w2 & _ & H).
    apply await_Ok in H as (result & w3 & Hnav & H).
    apply await_Ok in H as (u1 & w4 & _ & H).
    apply await_Ok in H as (u2 & w5 & _ & H).
    apply await_Ok in H as (ctx & w6 & _ & H). injection H as <- _.
    apply startsWithOneOf_app. now apply navigateToUrl_initial in Hnav.
  - apply catch_initial; [reflexivity|]. intros r w1 H.
    apply await_Ok in H as (id & w2 & _ & H).
    apply await_Ok in H as (result & w3 & Hclick & H).
    apply await_Ok in H as (u1 & w4 & _ & H).
    apply await_Ok in H as (u2 & w5 & _ & H).
    apply await_Ok in H as (ctx & w6 & _ & H). injection H as <- _.
    apply startsWithOneOf_app. now apply clickElement_initial in Hclick.
  - intros H. destruct (InputText_outcome _ _ _ _ _ H) as [message ->].
    eexists. split; reflexivity.
  - apply catch_initial; [reflexivity|]. intros r w1 H.
    apply await_Ok in H as (result & w3 & Hback & H).
    apply await_Ok in H as (u1 & w4 & _ & H).
    apply await_Ok in H as (u2 & w5 & _ & H).
    apply await_Ok in H as (ctx & w6 & _ & H). injection H as <- _.
    apply startsWithOneOf_app. now apply goBack_initial in Hback.
  - apply catch_initial; [reflexivity|]. intros r w1 H.
    apply await_Ok in H as (ids & w2 & _ & H).
    apply await_Ok in H as (result & w3 & _ & H).
    apply await_Ok in H as (ctx & w4 & _ & H).
    apply await_Ok in H as (lines & w5 & _ & H). injection H as <- _.
    reflexivity.
Qed.

End WithBrowser.

(** X20: a page cannot end a command. Whatever the page holds, also the
    completion marker, the promise of a page tool is never rejected, and
    the text it is resolved with begins with E, N or C; [JSON.parse] rejects
    such a text, so the executor reads no result of a page tool as a
    completion signal. *)
Theorem page_tool_result_is_no_signal {host : CommandExecutor.Host} {dom : Dom}
    {browser : Browser} (name : string) (patience : nat) (args : Value)
    (p : Promise string) (w : Tabs) (outcome : Try string) (w' : Tabs) :
  (forall c rest, In c toolInitials ->
                  exists message,
                    CommandExecutor.JSON_parse (String c rest) = SyntaxError message) ->
  implementation name patience args = Some p ->
  p w = Some (outcome, w') ->
  exists result,
    outcome = Ok result /\ CommandExecutor.completionOf result = None.
Proof.
  intros Hjson Himpl Hrun.
  destruct (implementation_initial _ _ _ _ _ _ _ Himpl Hrun) as (r & -> & Hr).
  exists r. split; [reflexivity|].
  unfold CommandExecutor.completionOf. destruct (includes _ _); [|reflexivity].
  destruct r as [|c rest]; [discriminate|]. cbn [startsWithOneOf] in Hr.
  destruct (Hjson c rest) as [message ->]; [|reflexivity].
  apply existsb_exists in Hr as (x & Hin & Hx). apply Ascii.eqb_eq in Hx.
  now subst x.
Qed.

(** On a page with an input, the text is entered and the tool reports an
    error. *)
Lemma InputText_never_confirms_witness :
  let dom := ToolScenarios.formDom in
  let browser := ToolScenarios.formBrowser in
  (forall w, tabStatus w = "complete")
  /\ (exists outcome w',
        InputText 1 ToolScenarios.typeHello ToolScenarios.formTab = Some (outcome, w'))
  /\ InputText 1 ToolScenarios.typeHello ToolScenarios.formTab
     = Some (Ok "Error inputting text: Unknown action",
             mkScript (dom := dom) (benderPage ToolScenarios.formTab)
               (ToolScenarios.typedPage (Str "hello"))).
Proof.
  intros dom browser.
  assert (Hready : forall w : Tabs, tabStatus w = "complete") by reflexivity.
  split; [exact Hready|]. split.
  - exact (proj2 (InputText_never_confirms (dom := dom) (browser := browser) 0
                    ToolScenarios.typeHello ToolScenarios.formTab) Hready).
  - reflexivity.
Defined.

Lemma page_tool_result_is_no_signal_witness :
  let host := Scenarios.hostOf [Scenarios.goBack "c1"] 3 2 None in
  let run := GoBack (browser := ToolScenarios.formBrowser) 1 (Object []) in
  exists outcome w',
    run ToolScenarios.formTab = Some (outcome, w')
    /\ exists result,
         outcome = Ok result /\ CommandExecutor.completionOf result = None.
Proof.
  intros host run.
  destruct (run ToolScenarios.formTab) as [[outcome w']|] eqn:Hrun;
    [|vm_compute in Hrun; discriminate Hrun].
  exists outcome, w'. split; [reflexivity|].
  apply (page_tool_result_is_no_signal (host := host)
           (browser := ToolScenarios.formBrowser) "GoBack" 1 (Object []) run
           ToolScenarios.formTab outcome w').
  - intros c rest [<- | [<- | [<- | []]]]; eexists; reflexivity.
  - reflexivity.
  - exact Hrun.
Defined.

End ToolFacts.

Module ToolRunFacts.
Import JS Tools LLMinify ContentScript ContentScriptApi AutomationTools ToolFacts.

Section WithBrowser2.

Context {dom : Dom} {browser : Browser}.

Lemma checkPageReady_polls patience w outcome w' :
  checkPageReady patience w = Some (outcome, w') ->
  outcome = Ok tt
  /\ exists polls,
       (polls < patience)%nat
       /\ tabStatus (Nat.iter polls (elapse 500) w) = "complete"
       /\ (forall j, (j < polls)%nat ->
                     tabStatus (Nat.iter j (elapse 500) w) <> "complete")
       /\ w' = elapse 1000 (Nat.iter polls (elapse 500) w).
Proof.
  revert w. induction patience as [|patience IH]; intros w; cbn [checkPageReady];
    [discriminate|].
  destruct (String.eqb_spec (tabStatus w) "complete") as [Hc | Hc].
  - intros H. injection H as <- <-. split; [reflexivity|].
    exists 0%nat. cbn. repeat split; auto; [lia | intros j Hj; lia].
  - intros H. apply IH in H as (-> & polls & Hlt & Hdone & Hnot & ->).
    split; [reflexivity|]. exists (S polls).
    assert (Hshift : forall n, Nat.iter n (elapse 500) (elapse 500 w)
                               = Nat.iter (S n) (elapse 500) w).
    { intros n. symmetry. apply Nat.iter_succ_r. }
    rewrite <- Hshift. repeat split; auto; [lia|].
    intros [|j] Hj; [exact Hc|]. rewrite <- Hshift. apply Hnot. lia.
Qed.

(** The poll that finds the tab complete ends the wait. *)
Lemma checkPageReady_after patience polls w :
  (polls < patience)%nat ->
  tabStatus (Nat.iter polls (elapse 500) w) = "complete" ->
  (forall j, (j < polls)%nat ->
             tabStatus (Nat.iter j (elapse 500) w) <> "complete") ->
  checkPageReady patience w
  = Some (Ok tt, elapse 1000 (Nat.iter polls (elapse 500) w)).
Proof.
  revert patience w. induction polls as [|polls IH]; intros patience w Hlt Hdone Hnot.
  - destruct patience as [|patience]; [lia|]. cbn [checkPageReady].
    cbn in Hdone. now rewrite Hdone.
  - destruct patience as [|patience]; [lia|]. cbn [checkPageReady].
    destruct (String.eqb_spec (tabStatus w) "complete") as [Hc|_].
    { now destruct (Hnot 0%nat ltac:(lia)). }
    rewrite Nat.iter_succ_r. apply IH; [lia | now rewrite <- Nat.iter_succ_r |].
    intros j Hj. rewrite <- Nat.iter_succ_r. apply Hnot. lia.
Qed.

(** X21: [waitForPageReady] waits for the tab. Without an active tab it is
    resolved at once. With one, it looks at the status of the tab every
    500 ms: when the status is ['complete'] for the first time at the poll
    that follows [polls] waits, the promise is resolved one second after
    that poll, the browser being where [polls] waits of 500 ms and one of
    1000 ms have taken it ([patience], the number of polls the model is
    given, being enough). And it is never rejected. *)
Theorem waitForPageReady_waits (patience : nat) (w : Tabs) :
  (activeTab w = false -> waitForPageReady patience w = Some (Ok tt, w))
  /\ (forall polls,
        activeTab w = true ->
        (polls < patience)%nat ->
        tabStatus (Nat.iter polls (elapse 500) w) = "complete" ->
        (forall j, (j < polls)%nat ->
                   tabStatus (Nat.iter j (elapse 500) w) <> "complete") ->
        waitForPageReady patience w
        = Some (Ok tt, elapse 1000 (Nat.iter polls (elapse 500) w)))
  /\ (forall outcome w',
        waitForPageReady patience w = Some (outcome, w') -> outcome = Ok tt).
Proof.
  unfold waitForPageReady. split; [|split].
  - now intros ->.
  - intros polls -> Hlt Hdone Hnot. now apply checkPageReady_after.
  - intros outcome w'. destruct (activeTab w).
    + intros H. now apply checkPageReady_polls in H as [-> _].
    + intros H. now injection H as <- _.
Qed.

(** *** The links of elements *)

Lemma humanReadable_Str d mapping id el :
  getElementByIdOf mapping id = Some el ->
  exists name, getElementHumanReadable d mapping id = Str name.
Proof.
  intros H. unfold getElementHumanReadable. rewrite H.
  destruct (truthyStr (trim _)); eauto.
Qed.

Lemma summaryLines_entries d mapping ids w :
  exists lines,
    summaryLines (List.map (urlEntry d mapping) ids) w = Some (Ok lines, w)
    /\ Forall2
         (fun id line =>
            match getElementByIdOf mapping id with
            | None =>
                line = ("ID " ++ toString id ++ ": " ++ notFoundMessage)%string
            | Some el =>
                exists name,
                  getElementHumanReadable d mapping id = Str name
                  /\ line = ("ID " ++ toString id ++ ": " ++ ContentScript.dq
                               ++ name ++ ContentScript.dq ++ " -> "
                               ++ shownLink d el)%string
            end) ids lines.
Proof.
  induction ids as [|id ids IH]; cbn [List.map summaryLines].
  - exists []. split; [reflexivity | constructor].
  - destruct IH as (lines & Hrun & Hall).
    unfold await at 1.
    assert (Hline : exists line,
               summaryLine (urlEntry d mapping id) w = Some (Ok line, w)
               /\ match getElementByIdOf mapping id with
                  | None =>
                      line = ("ID " ++ toString id ++ ": " ++ notFoundMessage)%string
                  | Some el =>
                      exists name,
                        getElementHumanReadable d mapping id = Str name
                        /\ line = ("ID " ++ toString id ++ ": " ++ ContentScript.dq
                                     ++ name ++ ContentScript.dq ++ " -> "
                                     ++ shownLink d el)%string
                  end).
    { unfold urlEntry, shownLink.
      destruct (getElementByIdOf mapping id) as [el|] eqn:Hel; cbn [summaryLine].
      - destruct (humanReadable_Str d mapping id el Hel) as [name Hname].
        rewrite Hname.
        cbn [getProp String.eqb Ascii.eqb Bool.eqb andb Store.truthy].
        eexists. split; [reflexivity|]. exists name. split; [reflexivity|].
        destruct (getAttribute "href" (attributesOf (current d el))) as [href|];
          [destruct (truthyStr href) eqn:Hhref;
           [destruct (resolveURL d href) as [absolute|];
            [destruct (truthyStr absolute) eqn:Habs|]|]|];
          cbn [Store.truthy toString]; rewrite ?Habs, ?Hhref;
          destruct name; reflexivity.
      - cbn. eexists. split; reflexivity. }
    destruct Hline as (line & -> & Hline).
    unfold await at 1. rewrite Hrun. cbn.
    exists (line :: lines). split; [reflexivity|]. now constructor.
Qed.

Lemma getPageContext_resolves patience w outcome w' :
  getPageContext patience w = Some (outcome, w') -> exists ctx, outcome = Ok ctx.
Proof.
  unfold getPageContext. intros H.
  apply catch_resolves in H as [(a & -> & _) | (message & w1 & -> & _)]; eauto.
Qed.

Lemma getPageContext_settles patience w :
  (forall w, tabStatus w = "complete") ->
  exists outcome w', getPageContext (S patience) w = Some (outcome, w').
Proof.
  intros Hready. unfold getPageContext, catch, await at 1, waitFor.
  unfold await at 1.
  destruct (waitForPageReady_complete patience (elapse 200 w) Hready) as [w1 ->].
  unfold await at 1.
  destruct (sendMessage_settles
              (mkRequest "getCurrentPageHTML" Undefined Undefined Undefined) w1)
    as ([html|message] & w2 & ->); unfold resolve; eauto.
Qed.

(** X22: [GetAbsoluteUrlFromElement] answers for each id on its own. With
    the content script of the active tab reachable and initialized and the
    tab loaded, the implementation returns, and the text is
    ['Extracted URLs:'] followed by one line for each requested id, in the
    order of the request. For an id that the mapping does not resolve the
    line is ['ID <id>: Element not found']. For any other id it is
    ['ID <id>: "<name>" -> <link>'], where the name is what
    [getElementHumanReadable] gives and the link is the [href] of the
    element made absolute against the location of the page, the [href] as
    written when it cannot be made absolute, and ['No URL'] when the
    element has none. *)
Theorem GetAbsoluteUrlFromElement_answers_each_id (patience : nat)
    (props : list (string * Value)) (w : Tabs) (mapping : list Entry) :
  activeTab w = true ->
  sendError w = None ->
  benderPage (script w) = Some mapping ->
  (forall w, tabStatus w = "complete") ->
  let ids := getProp "ids" props in
  let idArray := match ids with Array items => items | _ => [ids] end in
  exists lines w',
    GetAbsoluteUrlFromElement (S patience) (Object props) w
    = Some (Ok ("Extracted URLs:" ++ nl ++ String.concat nl lines)%string, w')
    /\ Forall2
         (fun id line =>
            match getElementByIdOf mapping id with
            | None =>
                line = ("ID " ++ toString id ++ ": " ++ notFoundMessage)%string
            | Some el =>
                exists name,
                  getElementHumanReadable (document (script w)) mapping id = Str name
                  /\ line = ("ID " ++ toString id ++ ": " ++ ContentScript.dq
                               ++ name ++ ContentScript.dq ++ " -> "
                               ++ shownLink (document (script w)) el)%string
            end) idArray lines.
Proof.
  intros Htab Hsend Hpage Hready ids idArray.
  unfold GetAbsoluteUrlFromElement, catch, await at 1.
  cbn [destructure resolve]. fold ids.
  unfold await at 1, sendMessageToContentScript.
  rewrite Htab, Hsend. unfold onMessage.
  cbn [action r_ids String.eqb Ascii.eqb Bool.eqb andb].
  rewrite Hpage. unfold getAbsoluteUrlFromElement.
  fold idArray. unfold await at 1.
  destruct (getPageContext_settles patience (setScript (script w) w) Hready)
    as (ctx & w2 & Hctx).
  rewrite Hctx.
  destruct (getPageContext_resolves _ _ _ _ Hctx) as [c ->].
  destruct (summaryLines_entries (document (script w)) mapping idArray w2)
    as (lines & Hlines & Hall).
  unfold await at 1. rewrite Hlines. cbn [resolve].
  exists lines, w2. split; [reflexivity | exact Hall].
Qed.

End WithBrowser2.

(** A tab that is loading for a second: the third poll finds it complete,
    and the promise is resolved two seconds after the call. *)
Lemma waitForPageReady_waits_witness :
  let browser := ToolScenarios.loadingBrowser in
  let start := ToolScenarios.loadingTab 0 in
  activeTab (Browser := browser) start = true
  /\ tabStatus (Browser := browser) (Nat.iter 2 (elapse (Browser := browser) 500) start)
     = "complete"
  /\ tabStatus (Browser := browser) (Nat.iter 1 (elapse (Browser := browser) 500) start)
     = "loading"
  /\ waitForPageReady (browser := browser) 3 start
     = Some (Ok tt, ToolScenarios.loadingTab 2000).
Proof.
  intros browser start.
  split; [reflexivity|]. split; [reflexivity|]. split; [reflexivity|].
  apply (proj1 (proj2 (waitForPageReady_waits (browser := browser) 3 start)) 2%nat).
  - reflexivity.
  - lia.
  - reflexivity.
  - intros j Hj. destruct j as [|[|j]]; [discriminate | discriminate | lia].
Defined.

(** A link, an anchor without [href] and an id that is not in the mapping. *)
Lemma GetAbsoluteUrlFromElement_answers_each_id_witness :
  let browser := ToolScenarios.linksBrowser in
  exists w',
    GetAbsoluteUrlFromElement (browser := browser) 1
      (Object [("ids", Array [Number 1; Number 2; Number 7])]) ToolScenarios.linksTab
    = Some (Ok ("Extracted URLs:" ++ nl
                  ++ String.concat nl
                       [("ID 1: " ++ ContentScript.dq ++ "Docs" ++ ContentScript.dq
                           ++ " -> https://example.com/docs")%string;
                        ("ID 2: " ++ ContentScript.dq ++ "Top" ++ ContentScript.dq
                           ++ " -> No URL")%string;
                        "ID 7: Element not found"])%string, w').
Proof.
  intros browser.
  destruct (GetAbsoluteUrlFromElement_answers_each_id (browser := browser) 0
              [("ids", Array [Number 1; Number 2; Number 7])] ToolScenarios.linksTab
              (mapping (refresh (fun _ => (EmptyString, EmptyString))
                          ToolScenarios.linksPage)))
    as (lines & w' & Hrun & Hall);
    [reflexivity | reflexivity | reflexivity | reflexivity |].
  exists w'. rewrite Hrun. clear Hrun.
  apply Forall2_cons_inv_l in Hall as (l1 & rest1 & H1 & Hall & ->).
  apply Forall2_cons_inv_l in Hall as (l2 & rest2 & H2 & Hall & ->).
  apply Forall2_cons_inv_l in Hall as (l3 & rest3 & H3 & Hall & ->).
  apply Forall2_nil_inv_l in Hall as ->.
  vm_compute in H1, H2, H3.
  destruct H1 as (name1 & Hname1 & ->). destruct H2 as (name2 & Hname2 & ->).
  subst l3. injection Hname1 as <-. injection Hname2 as <-.
  reflexivity.
Defined.

End ToolRunFacts.
